(** * Orchestration core of the pub/sub adapters: model and verification

    A shallow embedding of the broker-agnostic core of
    [@wishyor/pubsub-adapters]: the priority queue with its dead-letter
    store ([universal/message.queue.ts]), the subscription manager
    ([universal/subscription.manager.ts]), the handler registry
    ([universal/message.handler.ts]), the performance monitor
    ([universal/performance.monitor.ts]), the message manager with its drain
    loop ([universal/message.manager.ts]), the retry handler
    ([handlers/retry.handler.ts]) and the circuit breaker.

    Conventions of the embedding.
    - JavaScript numbers are integers of [Z]; floating point rounding is not
      modelled.
    - JavaScript strings are [string]s of 8-bit characters.
    - A [Map] whose iteration order is observable is an insertion-ordered
      association list ([JSMap]); a [Map] that is only looked up is a [gmap].
    - A method that mutates its object is a computation of the monad [M]
      over the object's state, whose completion is either normal or a thrown
      error, as in the language. *)

From Stdlib Require Import ZArith QArith_base Ascii Lia Permutation Sorted.
From stdpp Require Import base option list gmap strings pretty.

Local Open Scope Z_scope.

(** ** JavaScript values *)

(** The values that occur as properties of a payload, of message metadata
    and of subscription filters.  An object is known by its identity only. *)
Inductive JSValue : Type :=
| JSUndefined
| JSNull
| JSBool (b : bool)
| JSNumber (n : Z)
| JSNaN
| JSString (s : string)
| JSObject (ref : positive).

(** [ToBoolean]: the falsy values are [undefined], [null], [false], [0],
    [NaN] and the empty string. *)
Definition truthy (v : JSValue) : bool :=
  match v with
  | JSUndefined | JSNull | JSNaN => false
  | JSBool b => b
  | JSNumber n => negb (n =? 0)
  | JSString s => negb (String.eqb s "")
  | JSObject _ => true
  end.

(** [a || b] *)
Definition js_or (a b : JSValue) : JSValue := if truthy a then a else b.

(** [a === b] *)
Definition strict_equals (a b : JSValue) : bool :=
  match a, b with
  | JSUndefined, JSUndefined => true
  | JSNull, JSNull => true
  | JSBool x, JSBool y => Bool.eqb x y
  | JSNumber x, JSNumber y => x =? y
  | JSString x, JSString y => String.eqb x y
  | JSObject x, JSObject y => Pos.eqb x y
  | _, _ => false
  end.

(** [String(v)], for integers below the exponent notation and plain
    objects. *)
Definition String_of (v : JSValue) : string :=
  match v with
  | JSUndefined => "undefined"
  | JSNull => "null"
  | JSBool true => "true"
  | JSBool false => "false"
  | JSNumber n => pretty n
  | JSNaN => "NaN"
  | JSString s => s
  | JSObject _ => "[object Object]"
  end.

(** A record of own properties, [Record<string, unknown>]. *)
Abbreviation JSRecord := (gmap string JSValue).

(** [obj?.[key]] on an optional record: [undefined] when the record or the
    property is absent. *)
Definition opt_index (obj : option JSRecord) (key : string) : JSValue :=
  match obj with
  | Some o => default JSUndefined (o !! key)
  | None => JSUndefined
  end.

(** ** Completions and the state monad of a mutable object *)

Inductive Completion (A : Type) : Type :=
| Normal (a : A)
| Throw (e : string).
Arguments Normal {A} a.
Arguments Throw {A} e.

(** Whether a completion is normal. *)
Definition completed {A} (r : Completion A) : bool :=
  match r with Normal _ => true | Throw _ => false end.

Definition M (S A : Type) : Type := S -> Completion A * S.

Definition ret {S A} (a : A) : M S A := fun s => (Normal a, s).

Definition bind {S A B} (c : M S A) (k : A -> M S B) : M S B :=
  fun s =>
    match c s with
    | (Normal a, s') => k a s'
    | (Throw e, s') => (Throw e, s')
    end.

Definition throw {S A} (e : string) : M S A := fun s => (Throw e, s).

(** [try { body } catch (error) { handler }] *)
Definition try_catch {S A} (body : M S A) (handler : string -> M S A) : M S A :=
  fun s =>
    match body s with
    | (Normal a, s') => (Normal a, s')
    | (Throw e, s') => handler e s'
    end.

Definition gets {S A} (f : S -> A) : M S A := fun s => (Normal (f s), s).
Definition modify {S} (f : S -> S) : M S unit := fun s => (Normal tt, f s).

(** Runs a computation of a component inside the object that owns it. *)
Definition zoom {S T A} (get : S -> T) (set : T -> S -> S) (c : M T A) : M S A :=
  fun s => let '(r, t) := c (get s) in (r, set t s).

Declare Scope js_scope.
Delimit Scope js_scope with js.
Notation "x <- c ;; k" := (bind c (fun x => k))
  (at level 100, c at next level, right associativity) : js_scope.
Notation "c ;;; k" := (bind c (fun _ => k))
  (at level 100, right associativity) : js_scope.

Definition when_ {S} (b : bool) (c : M S unit) : M S unit :=
  if b then c else ret tt.

(** ** Messages *)

(** [IMessage].  The pass-through fields [headers], [partition], [subject]
    and [channel] are never read by the core and are left out.  [payload]
    is nullish or a record of own properties. *)
Record IMessage : Type := {
  msg_id : string;
  msg_type : string;
  msg_payload : option JSRecord;
  msg_timestamp : Z;
  msg_priority : option string;
  msg_metadata : option JSRecord
}.

(** ** The priority queue and its dead-letter store *)

Module Queue.

(** The private fields [queues] and [dlq] of [UniversalMessageQueue]; the
    field [processing] is never read or written by any method. *)
Record UniversalMessageQueue : Type := {
  queues : gmap string (list IMessage);
  dlq : gmap string (list IMessage)
}.

Definition empty : UniversalMessageQueue := {| queues := ∅; dlq := ∅ |}.

Definition maxQueueSize : Z := 10000.

Definition set_queue (topic : string) (q : list IMessage)
    (s : UniversalMessageQueue) : UniversalMessageQueue :=
  {| queues := <[topic := q]> (queues s); dlq := dlq s |}.

Definition set_dlq (topic : string) (q : list IMessage)
    (s : UniversalMessageQueue) : UniversalMessageQueue :=
  {| queues := queues s; dlq := <[topic := q]> (dlq s) |}.

Definition getPriorityValue (priority : option string) : Z :=
  match priority with
  | Some "critical" => 4
  | Some "high" => 3
  | Some "normal" => 2
  | Some "low" => 1
  | _ => 2
  end.

(** The scan of [enqueue]: the first index [i] whose entry has a priority
    strictly below [priority], or the length of the queue. *)
Fixpoint insertIndex (queue : list IMessage) (priority : Z) (i : nat) : nat :=
  match queue with
  | [] => i
  | m :: rest =>
      if getPriorityValue (msg_priority m) <? priority then i
      else insertIndex rest priority (S i)
  end.

(** [queue.splice(index, 0, message)] *)
Definition splice (queue : list IMessage) (index : nat) (message : IMessage)
    : list IMessage :=
  take index queue ++ message :: drop index queue.

Definition enqueueToDLQ (topic : string) (message : IMessage)
    : M UniversalMessageQueue unit :=
  (has <- gets (fun s => bool_decide (is_Some (dlq s !! topic)));;
   when_ (negb has) (modify (set_dlq topic []));;;
   d <- gets (fun s => default [] (dlq s !! topic));;
   modify (set_dlq topic (d ++ [message])))%js.

Definition enqueue (topic : string) (message : IMessage)
    : M UniversalMessageQueue unit :=
  (has <- gets (fun s => bool_decide (is_Some (queues s !! topic)));;
   when_ (negb has) (modify (set_queue topic []));;;
   queue <- gets (fun s => default [] (queues s !! topic));;
   if Z.of_nat (length queue) >=? maxQueueSize then
     enqueueToDLQ topic message
   else
     let priority := getPriorityValue (msg_priority message) in
     let index := insertIndex queue priority 0 in
     modify (set_queue topic (splice queue index message)))%js.

(** [queue?.shift() || null] *)
Definition dequeue (topic : string)
    : M UniversalMessageQueue (option IMessage) :=
  (queue <- gets (fun s => queues s !! topic);;
   match queue with
   | Some (m :: rest) => modify (set_queue topic rest);;; ret (Some m)
   | Some [] => ret None
   | None => ret None
   end)%js.

Definition getDLQMessages (topic : string) (s : UniversalMessageQueue)
    : list IMessage :=
  default [] (dlq s !! topic).

Definition getQueueSize (topic : string) (s : UniversalMessageQueue) : Z :=
  match queues s !! topic with
  | Some q => Z.of_nat (length q)
  | None => 0
  end.

Definition clear (topic : option string) : M UniversalMessageQueue unit :=
  match topic with
  | Some t =>
      if String.eqb t "" then
        modify (fun _ => empty)
      else
        modify (fun s => {| queues := delete t (queues s);
                            dlq := delete t (dlq s) |})
  | None => modify (fun _ => empty)
  end.

End Queue.

(** ** [Array.prototype.sort] and insertion-ordered [Map]s *)

Section ArraySort.
Context {A : Type} (compareFn : A -> A -> Z).

(** Places [x], which stood before every element of [sorted], in front of
    the first element it does not have to follow. *)
Fixpoint sort_insert (x : A) (sorted : list A) : list A :=
  match sorted with
  | [] => [x]
  | y :: rest =>
      if compareFn x y <=? 0 then x :: y :: rest
      else y :: sort_insert x rest
  end.

(** [arr.sort(compareFn)]: the sort of an array is stable. *)
Definition Array_sort (arr : list A) : list A := foldr sort_insert [] arr.
End ArraySort.

Module JSMap.
Section JSMap.
Context {V : Type}.

Fixpoint get (k : string) (m : list (string * V)) : option V :=
  match m with
  | [] => None
  | (k', v) :: m' => if String.eqb k k' then Some v else get k m'
  end.

Definition has (k : string) (m : list (string * V)) : bool :=
  match get k m with Some _ => true | None => false end.

(** [m.set(k, v)]: an existing key keeps its place. *)
Fixpoint set (k : string) (v : V) (m : list (string * V))
    : list (string * V) :=
  match m with
  | [] => [(k, v)]
  | (k', v') :: m' =>
      if String.eqb k k' then (k, v) :: m' else (k', v') :: set k v m'
  end.

Fixpoint delete (k : string) (m : list (string * V)) : list (string * V) :=
  match m with
  | [] => []
  | (k', v') :: m' =>
      if String.eqb k k' then m' else (k', v') :: delete k m'
  end.

Definition keys (m : list (string * V)) : list string := map fst m.
Definition values (m : list (string * V)) : list V := map snd m.
End JSMap.
End JSMap.

Abbreviation JSMap V := (list (string * V)).

(** ** Patterns of [RegExp]

    The fragment of the pattern syntax that is modelled: literal characters,
    [.] and [.*].  A source text with any other syntax character is outside
    the fragment ([RegExp_new] gives [None]); there the language either
    throws a [SyntaxError] or applies an operator that is not modelled. *)

Inductive RegExpAtom : Type :=
| ReChar (c : ascii)
| ReDot
| ReDotStar.

Definition is_syntax_char (c : ascii) : bool :=
  existsb (Ascii.eqb c)
    ["^"; "$"; "\"; "."; "*"; "+"; "?"; "("; ")"; "["; "]"; "{"; "}"; "|"]%char.

(** [.] matches every character but the line terminators. *)
Definition is_line_terminator (c : ascii) : bool :=
  Ascii.eqb c "010"%char || Ascii.eqb c "013"%char.

Fixpoint RegExp_new (source : string) : option (list RegExpAtom) :=
  match source with
  | EmptyString => Some []
  | String c rest =>
      if Ascii.eqb c "."%char then
        match rest with
        | String c' rest' =>
            if Ascii.eqb c' "*"%char then cons ReDotStar <$> RegExp_new rest'
            else cons ReDot <$> RegExp_new rest
        | EmptyString => Some [ReDot]
        end
      else if is_syntax_char c then None
      else cons (ReChar c) <$> RegExp_new rest
  end.

(** Whether a prefix of [s] matches the whole of [re]. *)
Fixpoint match_here (re : list RegExpAtom) (s : string) : bool :=
  match re with
  | [] => true
  | ReChar c :: re' =>
      match s with
      | String x s' => Ascii.eqb x c && match_here re' s'
      | EmptyString => false
      end
  | ReDot :: re' =>
      match s with
      | String x s' => negb (is_line_terminator x) && match_here re' s'
      | EmptyString => false
      end
  | ReDotStar :: re' =>
      (fix star (s : string) : bool :=
         match_here re' s
         || match s with
            | String x s' => negb (is_line_terminator x) && star s'
            | EmptyString => false
            end) s
  end.

(** [regex.test(s)] for a pattern without flags: a match may start at any
    position. *)
Fixpoint RegExp_test (re : list RegExpAtom) (s : string) : bool :=
  match_here re s
  || match s with
     | String _ s' => RegExp_test re s'
     | EmptyString => false
     end.

(** [value.includes('*')] *)
Fixpoint includes_star (value : string) : bool :=
  match value with
  | EmptyString => false
  | String c rest => Ascii.eqb c "*"%char || includes_star rest
  end.

(** [value.replace(/\*/g, '.*')] *)
Fixpoint replace_stars (value : string) : string :=
  match value with
  | EmptyString => EmptyString
  | String c rest =>
      if Ascii.eqb c "*"%char then String "."%char (String "*"%char (replace_stars rest))
      else String c (replace_stars rest)
  end.

(** ** The subscription manager *)

Module Subscriptions.

(** [Object.entries(filters)], in the order of the entries. *)
Definition MessageFilters : Type := list (string * JSValue).

(** [ISubscription]; the callback is a closure of the manager and is not
    part of the registry's data. *)
Record ISubscription : Type := {
  sub_id : string;
  sub_topic : string;
  sub_filters : option MessageFilters;
  sub_consumerGroup : option string;
  sub_queueGroup : option string
}.

Record UniversalSubscriptionManager : Type := {
  subscriptions : JSMap (JSMap ISubscription);
  topicSubscribers : JSMap (list string)
}.

Definition empty : UniversalSubscriptionManager :=
  {| subscriptions := []; topicSubscribers := [] |}.

(** [set.add(id)] and [set.delete(id)] on a [Set] of strings *)
Definition Set_add (x : string) (s : list string) : list string :=
  if existsb (String.eqb x) s then s else s ++ [x].
Definition Set_delete (x : string) (s : list string) : list string :=
  List.filter (fun y => negb (String.eqb x y)) s.

Definition subscribe (subscription : ISubscription)
    : M UniversalSubscriptionManager string :=
  (let topic := sub_topic subscription in
   let id := sub_id subscription in
   has <- gets (fun s => JSMap.has topic (subscriptions s));;
   when_ (negb has)
     (modify (fun s =>
        {| subscriptions := JSMap.set topic [] (subscriptions s);
           topicSubscribers := JSMap.set topic [] (topicSubscribers s) |}));;;
   subs <- gets (fun s => JSMap.get topic (subscriptions s));;
   match subs with
   | None => throw "TypeError"
   | Some topicSubs =>
       modify (fun s =>
         {| subscriptions :=
              JSMap.set topic (JSMap.set id subscription topicSubs)
                (subscriptions s);
            topicSubscribers := topicSubscribers s |});;;
       ids <- gets (fun s => JSMap.get topic (topicSubscribers s));;
       match ids with
       | None => throw "TypeError"
       | Some ids =>
           modify (fun s =>
             {| subscriptions := subscriptions s;
                topicSubscribers :=
                  JSMap.set topic (Set_add id ids) (topicSubscribers s) |});;;
           ret id
       end
   end)%js.

Definition unsubscribe (topic subscriptionId : string)
    : M UniversalSubscriptionManager bool :=
  (subs <- gets (fun s => JSMap.get topic (subscriptions s));;
   match subs with
   | None => ret false
   | Some topicSubs =>
       let removed := JSMap.has subscriptionId topicSubs in
       let topicSubs' := JSMap.delete subscriptionId topicSubs in
       modify (fun s =>
         {| subscriptions := JSMap.set topic topicSubs' (subscriptions s);
            topicSubscribers :=
              match JSMap.get topic (topicSubscribers s) with
              | Some ids =>
                  JSMap.set topic (Set_delete subscriptionId ids)
                    (topicSubscribers s)
              | None => topicSubscribers s
              end |});;;
       when_ (Nat.eqb (length topicSubs') 0)
         (modify (fun s =>
            {| subscriptions := JSMap.delete topic (subscriptions s);
               topicSubscribers := JSMap.delete topic (topicSubscribers s) |}));;;
       ret removed
   end)%js.

Definition getSubscriptions (topic : string) (s : UniversalSubscriptionManager)
    : list ISubscription :=
  match JSMap.get topic (subscriptions s) with
  | Some subs => JSMap.values subs
  | None => []
  end.

Definition getAllTopics (s : UniversalSubscriptionManager) : list string :=
  JSMap.keys (subscriptions s).

(** [payload?.[key] || metadata?.[key]] *)
Definition msgValue (message : IMessage) (key : string) : JSValue :=
  js_or (opt_index (msg_payload message) key)
        (opt_index (msg_metadata message) key).

(** The callback of [every]: one filter entry against the message.  [None]
    when the pattern of a wildcard filter is outside the modelled
    fragment. *)
Definition matchesEntry (message : IMessage) (key : string) (value : JSValue)
    : option bool :=
  let msgValue := msgValue message key in
  match value with
  | JSString pattern =>
      if includes_star pattern then
        regex ← RegExp_new (replace_stars pattern);
        Some (RegExp_test regex (String_of msgValue))
      else Some (strict_equals msgValue value)
  | _ => Some (strict_equals msgValue value)
  end.

(** [entries.every(callback)]: stops at the first entry that fails. *)
Fixpoint every (message : IMessage) (entries : MessageFilters) : option bool :=
  match entries with
  | [] => Some true
  | (key, value) :: rest =>
      match matchesEntry message key value with
      | Some true => every message rest
      | Some false => Some false
      | None => None
      end
  end.

Definition matchesFilters (message : IMessage) (filters : option MessageFilters)
    : option bool :=
  match filters with
  | None => Some true
  | Some entries => every message entries
  end.

End Subscriptions.

(** ** The handler registry *)

Module Registry.

(** [IMessageHandler]: a handler object is known by its identity [h_ref];
    calling its [handle] is what the registry submits. *)
Record IMessageHandler : Type := {
  h_ref : positive;
  h_priority : option Z;
  canHandle : IMessage -> bool
}.

(** A middleware function, as far as the registry can tell: the number of
    times it awaits [next()] for a message. *)
Abbreviation MiddlewareFunction := (IMessage -> nat).

Record UniversalHandlerRegistry : Type := {
  handlers : gmap string (list IMessageHandler);
  globalHandlers : list IMessageHandler;
  middleware : list MiddlewareFunction
}.

Definition empty : UniversalHandlerRegistry :=
  {| handlers := ∅; globalHandlers := []; middleware := [] |}.

(** [h.priority || 0] *)
Definition priorityOrZero (h : IMessageHandler) : Z := default 0 (h_priority h).

(** [(a, b) => (b.priority || 0) - (a.priority || 0)] *)
Definition byPriorityDesc (a b : IMessageHandler) : Z :=
  priorityOrZero b - priorityOrZero a.

Definition register (messageType : string) (handler : IMessageHandler)
    : M UniversalHandlerRegistry unit :=
  (has <- gets (fun r => bool_decide (is_Some (handlers r !! messageType)));;
   when_ (negb has)
     (modify (fun r =>
        {| handlers := <[messageType := []]> (handlers r);
           globalHandlers := globalHandlers r;
           middleware := middleware r |}));;;
   hs <- gets (fun r => default [] (handlers r !! messageType));;
   modify (fun r =>
     {| handlers :=
          <[messageType := Array_sort byPriorityDesc (hs ++ [handler])]>
            (handlers r);
        globalHandlers := globalHandlers r;
        middleware := middleware r |}))%js.

Definition registerGlobal (handler : IMessageHandler)
    : M UniversalHandlerRegistry unit :=
  modify (fun r =>
    {| handlers := handlers r;
       globalHandlers :=
         Array_sort byPriorityDesc (globalHandlers r ++ [handler]);
       middleware := middleware r |}).

Definition addMiddleware (mw : MiddlewareFunction)
    : M UniversalHandlerRegistry unit :=
  modify (fun r =>
    {| handlers := handlers r;
       globalHandlers := globalHandlers r;
       middleware := middleware r ++ [mw] |}).

(** [handlers.indexOf(handler)] followed by [handlers.splice(index, 1)] *)
Fixpoint remove_first (handler : IMessageHandler) (hs : list IMessageHandler)
    : option (list IMessageHandler) :=
  match hs with
  | [] => None
  | h :: rest =>
      if Pos.eqb (h_ref h) (h_ref handler) then Some rest
      else cons h <$> remove_first handler rest
  end.

Definition unregister (messageType : string) (handler : IMessageHandler)
    : M UniversalHandlerRegistry bool :=
  (hs <- gets (fun r => handlers r !! messageType);;
   match hs with
   | None => ret false
   | Some hs =>
       match remove_first handler hs with
       | None => ret false
       | Some hs' =>
           modify (fun r =>
             {| handlers := <[messageType := hs']> (handlers r);
                globalHandlers := globalHandlers r;
                middleware := middleware r |});;;
           ret true
       end
   end)%js.

(** The last step of the chain: the handlers whose [handle] is called, in
    the order of the calls. *)
Definition dispatch (r : UniversalHandlerRegistry) (message : IMessage)
    : list IMessageHandler :=
  let handlers := default [] (handlers r !! msg_type message) in
  let allHandlers := globalHandlers r ++ handlers in
  List.filter (fun h => canHandle h message) allHandlers.

(** A middleware body that awaits [next()] [calls] times in a row; the
    variable [index] is shared by all the calls. *)
Fixpoint call_next (next : nat -> list IMessageHandler * nat)
    (calls : nat) (index : nat) : list IMessageHandler * nat :=
  match calls with
  | O => ([], index)
  | S calls' =>
      let '(submitted, index') := next index in
      let '(submitted', index'') := call_next next calls' index' in
      (submitted ++ submitted', index'')
  end.

(** The closure [next] of [handle], from the value [index] of the shared
    variable to the handlers submitted and its value afterwards.  [fuel]
    bounds the middleware still to run: [length middleware - index]. *)
Fixpoint next (r : UniversalHandlerRegistry) (message : IMessage)
    (fuel : nat) (index : nat) : list IMessageHandler * nat :=
  match fuel with
  | O => (dispatch r message, index)
  | S fuel' =>
      match middleware r !! index with
      | Some mw => call_next (next r message fuel') (mw message) (S index)
      | None => (dispatch r message, index)
      end
  end.

(** [handle(message)]: the handlers submitted, in order. *)
Definition handle (r : UniversalHandlerRegistry) (message : IMessage)
    : list IMessageHandler :=
  fst (next r message (length (middleware r)) 0).

(** The calls by which a registry is set up. *)
Inductive Call : Type :=
| CallRegister (messageType : string) (handler : IMessageHandler)
| CallRegisterGlobal (handler : IMessageHandler)
| CallAddMiddleware (mw : MiddlewareFunction)
| CallUnregister (messageType : string) (handler : IMessageHandler).

Definition perform (r : UniversalHandlerRegistry) (c : Call)
    : UniversalHandlerRegistry :=
  match c with
  | CallRegister t h => snd (register t h r)
  | CallRegisterGlobal h => snd (registerGlobal h r)
  | CallAddMiddleware mw => snd (addMiddleware mw r)
  | CallUnregister t h => snd (unregister t h r)
  end.

Definition setup (calls : list Call) : UniversalHandlerRegistry :=
  fold_left perform calls empty.

End Registry.

(** ** The performance monitor *)

Module Monitor.

Record UniversalPerformanceMonitor : Type := {
  metrics : gmap string (list Z);
  brokerMetrics : gmap string JSRecord
}.

Definition empty : UniversalPerformanceMonitor :=
  {| metrics := ∅; brokerMetrics := ∅ |}.

Definition maxSamples : Z := 1000.

(** [broker ? `${broker}.${operation}` : operation] *)
Definition metricKey (operation : string) (broker : option string) : string :=
  match broker with
  | Some b => if String.eqb b "" then operation else b +:+ "." +:+ operation
  | None => operation
  end.

Definition recordLatency (operation : string) (latency : Z)
    (broker : option string) : M UniversalPerformanceMonitor unit :=
  (let key := metricKey operation broker in
   samples <- gets (fun s => default [] (metrics s !! key));;
   let samples := samples ++ [latency] in
   let samples :=
     if Z.of_nat (length samples) >? maxSamples then drop 1 samples
     else samples in
   modify (fun s =>
     {| metrics := <[key := samples]> (metrics s);
        brokerMetrics := brokerMetrics s |}))%js.

(** [{ ...metrics, timestamp: Date.now() }] *)
Definition recordBrokerMetrics (broker : string) (data : JSRecord) (now : Z)
    : M UniversalPerformanceMonitor unit :=
  modify (fun s =>
    {| metrics := metrics s;
       brokerMetrics :=
         <[broker := <["timestamp" := JSNumber now]> data]> (brokerMetrics s) |}).

(** [Math.ceil(a / b)] for a positive [b] *)
Definition ceil_div (a b : Z) : Z := - ((- a) / b).

(** [arr[index] || 0] on an array of numbers *)
Definition at_or_zero (arr : list Z) (index : Z) : Z :=
  if index <? 0 then 0 else default 0 (arr !! Z.to_nat index).

Definition getPercentile (arr : list Z) (percentile : Z) : Z :=
  let sorted := Array_sort (fun a b => a - b) arr in
  let index := ceil_div (Z.of_nat (length sorted) * percentile) 100 - 1 in
  at_or_zero sorted index.

Definition sum (samples : list Z) : Z := fold_left Z.add samples 0.

Record LatencyStats : Type := {
  avg : Q;
  min : Z;
  max : Z;
  count : Z;
  p95 : Z;
  p99 : Z
}.

(** The entry of [result.latency] for a window; nothing for an empty
    one. *)
Definition latencyStats (samples : list Z) : option LatencyStats :=
  match samples with
  | [] => None
  | x :: rest =>
      Some {| avg := Qmake (sum samples) (Pos.of_nat (length samples));
              min := fold_left Z.min rest x;
              max := fold_left Z.max rest x;
              count := Z.of_nat (length samples);
              p95 := getPercentile samples 95;
              p99 := getPercentile samples 99 |}
  end.

Record Metrics : Type := {
  latency : gmap string LatencyStats;
  brokers : gmap string JSRecord
}.

Definition getMetrics (s : UniversalPerformanceMonitor) : Metrics :=
  {| latency := omap latencyStats (metrics s);
     brokers := brokerMetrics s |}.

Definition getAverageLatency (operation : string) (broker : option string)
    (s : UniversalPerformanceMonitor) : Q :=
  match metrics s !! metricKey operation broker with
  | Some (x :: rest) =>
      Qmake (sum (x :: rest)) (Pos.of_nat (length (x :: rest)))
  | _ => Qmake 0 1
  end.

End Monitor.

(** [try { body } finally { finalizer }] *)
Definition try_finally {S A} (body : M S A) (finalizer : M S unit) : M S A :=
  fun s =>
    let '(r, s') := body s in
    match finalizer s' with
    | (Normal _, s'') => (r, s'')
    | (Throw e, s'') => (Throw e, s'')
    end.

(** [for (const x of xs) { body }] *)
Fixpoint for_of {S X} (xs : list X) (body : X -> M S unit) : M S unit :=
  match xs with
  | [] => ret tt
  | x :: rest => (body x;;; for_of rest body)%js
  end.

(** ** The message manager

    The manager composes the queue, the subscription manager, the handler
    registry and the performance monitor around one adapter.  The timers of
    [connect] and [startProcessing] are the environment that calls [tick];
    the delivery of inbound messages to the callbacks is outside this
    model. *)

Module Manager.

(** The adapter contract [IBrokerAdapter], over the state [W] of the
    outside world (the broker, the clock and the random source).  The
    callback handed to [subscribe] is a closure of the manager and is not
    an argument here. *)
Class IBrokerAdapter (W : Type) : Type := {
  adapter_connect : M W unit;
  adapter_disconnect : M W unit;
  adapter_publish : string -> IMessage -> M W unit;
  adapter_subscribe : string -> option string -> option string -> M W string;
  adapter_unsubscribe : string -> M W bool;
  adapter_isConnected : W -> bool;
  adapter_getType : string
}.

(** [Date.now()] and [Math.random().toString(36).substr(2, 9)] *)
Class Host (W : Type) : Type := {
  Date_now : W -> Z;
  Math_random_tag : W -> string * W
}.

Inductive ConsoleEntry : Type :=
| ConsoleError (text : string) (error : string).

(** [Partial<IMessage>]: [None] for a key that is absent. *)
Record PartialMessage : Type := {
  o_id : option string;
  o_type : option string;
  o_payload : option (option JSRecord);
  o_timestamp : option Z;
  o_priority : option string;
  o_metadata : option JSRecord
}.

Record SubscribeOptions : Type := {
  filters : option Subscriptions.MessageFilters;
  consumerGroup : option string;
  queueGroup : option string
}.

Section Manager.
Context {W : Type} {adapter : IBrokerAdapter W} {host : Host W}.

(** The fields of [UniversalMessageManager], with the world the adapter
    acts on and the console.  [publishCalls] is the history of the calls
    of [adapter.publish], each with whether it completed normally, kept
    for the statements; no method reads it. *)
Record UniversalMessageManager : Type := {
  subscriptionManager : Subscriptions.UniversalSubscriptionManager;
  messageQueue : Queue.UniversalMessageQueue;
  handlerRegistry : Registry.UniversalHandlerRegistry;
  performanceMonitor : Monitor.UniversalPerformanceMonitor;
  isProcessing : bool;
  world : W;
  console : list ConsoleEntry;
  publishCalls : list (string * IMessage * bool)
}.

Definition create (w : W) : UniversalMessageManager :=
  {| subscriptionManager := Subscriptions.empty;
     messageQueue := Queue.empty;
     handlerRegistry := Registry.empty;
     performanceMonitor := Monitor.empty;
     isProcessing := false;
     world := w;
     console := [];
     publishCalls := [] |}.

Definition set_subscriptionManager (x : Subscriptions.UniversalSubscriptionManager)
    (m : UniversalMessageManager) : UniversalMessageManager :=
  {| subscriptionManager := x; messageQueue := messageQueue m;
     handlerRegistry := handlerRegistry m;
     performanceMonitor := performanceMonitor m;
     isProcessing := isProcessing m; world := world m;
     console := console m; publishCalls := publishCalls m |}.

Definition set_messageQueue (x : Queue.UniversalMessageQueue)
    (m : UniversalMessageManager) : UniversalMessageManager :=
  {| subscriptionManager := subscriptionManager m; messageQueue := x;
     handlerRegistry := handlerRegistry m;
     performanceMonitor := performanceMonitor m;
     isProcessing := isProcessing m; world := world m;
     console := console m; publishCalls := publishCalls m |}.

Definition set_handlerRegistry (x : Registry.UniversalHandlerRegistry)
    (m : UniversalMessageManager) : UniversalMessageManager :=
  {| subscriptionManager := subscriptionManager m;
     messageQueue := messageQueue m; handlerRegistry := x;
     performanceMonitor := performanceMonitor m;
     isProcessing := isProcessing m; world := world m;
     console := console m; publishCalls := publishCalls m |}.

Definition set_performanceMonitor (x : Monitor.UniversalPerformanceMonitor)
    (m : UniversalMessageManager) : UniversalMessageManager :=
  {| subscriptionManager := subscriptionManager m;
     messageQueue := messageQueue m;
     handlerRegistry := handlerRegistry m; performanceMonitor := x;
     isProcessing := isProcessing m; world := world m;
     console := console m; publishCalls := publishCalls m |}.

Definition set_isProcessing (x : bool)
    (m : UniversalMessageManager) : UniversalMessageManager :=
  {| subscriptionManager := subscriptionManager m;
     messageQueue := messageQueue m;
     handlerRegistry := handlerRegistry m;
     performanceMonitor := performanceMonitor m;
     isProcessing := x; world := world m;
     console := console m; publishCalls := publishCalls m |}.

Definition set_world (x : W)
    (m : UniversalMessageManager) : UniversalMessageManager :=
  {| subscriptionManager := subscriptionManager m;
     messageQueue := messageQueue m;
     handlerRegistry := handlerRegistry m;
     performanceMonitor := performanceMonitor m;
     isProcessing := isProcessing m; world := x;
     console := console m; publishCalls := publishCalls m |}.

(** [console.error(text, error)] *)
Definition console_error (text error : string)
    : M UniversalMessageManager unit :=
  modify (fun m =>
    {| subscriptionManager := subscriptionManager m;
       messageQueue := messageQueue m;
       handlerRegistry := handlerRegistry m;
       performanceMonitor := performanceMonitor m;
       isProcessing := isProcessing m; world := world m;
       console := console m ++ [ConsoleError text error];
       publishCalls := publishCalls m |}).

(** [await this.adapter.publish(topic, message)] *)
Definition adapterPublish (topic : string) (message : IMessage)
    : M UniversalMessageManager unit :=
  fun m =>
    let '(r, w) := adapter_publish topic message (world m) in
    (r,
     {| subscriptionManager := subscriptionManager m;
        messageQueue := messageQueue m;
        handlerRegistry := handlerRegistry m;
        performanceMonitor := performanceMonitor m;
        isProcessing := isProcessing m; world := w;
        console := console m;
        publishCalls :=
          publishCalls m ++ [(topic, message, completed r)] |}).

Definition now : M UniversalMessageManager Z :=
  gets (fun m => Date_now (world m)).

(** The body of the loop of [processQueues] for one topic. *)
Definition processTopic (topic : string) : M UniversalMessageManager unit :=
  (message <- zoom messageQueue set_messageQueue (Queue.dequeue topic);;
   match message with
   | Some message =>
       startTime <- now;;
       try_catch
         (adapterPublish topic message;;;
          endTime <- now;;
          zoom performanceMonitor set_performanceMonitor
            (Monitor.recordLatency "publish" (endTime - startTime)
               (Some adapter_getType)))
         (fun error =>
            console_error
              ("Failed to publish message for topic " +:+ topic +:+ ":")
              error;;;
            zoom messageQueue set_messageQueue (Queue.enqueue topic message))
   | None => ret tt
   end)%js.

Definition processQueues : M UniversalMessageManager unit :=
  (topics <- gets (fun m => Subscriptions.getAllTopics (subscriptionManager m));;
   for_of topics processTopic)%js.

(** The callback of the interval set up by [startProcessing]. *)
Definition tick : M UniversalMessageManager unit :=
  (busy <- gets isProcessing;;
   if busy then ret tt
   else
     modify (set_isProcessing true);;;
     try_finally processQueues (modify (set_isProcessing false)))%js.

(** [`${prefix}_${Date.now()}_${Math.random()...}`] *)
Definition fresh_id (prefix : string) : M UniversalMessageManager string :=
  (t <- now;;
   tag <- zoom world set_world
            (fun w => let '(tag, w') := Math_random_tag w in (Normal tag, w'));;
   ret (prefix +:+ "_" +:+ pretty t +:+ "_" +:+ tag))%js.

(** [{ id, type: topic, payload, timestamp: Date.now(), ...options }] *)
Definition buildMessage (topic : string) (payload : option JSRecord)
    (options : option PartialMessage) : M UniversalMessageManager IMessage :=
  (id <- fresh_id "msg";;
   t <- now;;
   ret match options with
       | None =>
           {| msg_id := id; msg_type := topic; msg_payload := payload;
              msg_timestamp := t; msg_priority := None;
              msg_metadata := None |}
       | Some o =>
           {| msg_id := default id (o_id o);
              msg_type := default topic (o_type o);
              msg_payload := default payload (o_payload o);
              msg_timestamp := default t (o_timestamp o);
              msg_priority := o_priority o;
              msg_metadata := o_metadata o |}
       end)%js.

Definition publish (topic : string) (payload : option JSRecord)
    (options : option PartialMessage) : M UniversalMessageManager unit :=
  (message <- buildMessage topic payload options;;
   zoom messageQueue set_messageQueue (Queue.enqueue topic message))%js.

Definition publishImmediate (topic : string) (payload : option JSRecord)
    (options : option PartialMessage) : M UniversalMessageManager unit :=
  (message <- buildMessage topic payload options;;
   startTime <- now;;
   adapterPublish topic message;;;
   endTime <- now;;
   zoom performanceMonitor set_performanceMonitor
     (Monitor.recordLatency "publish_immediate" (endTime - startTime)
        (Some adapter_getType)))%js.

Definition subscribe (topic : string) (options : option SubscribeOptions)
    : M UniversalMessageManager string :=
  (subscriptionId <- fresh_id "sub";;
   let subscription :=
     {| Subscriptions.sub_id := subscriptionId;
        Subscriptions.sub_topic := topic;
        Subscriptions.sub_filters := options ≫= filters;
        Subscriptions.sub_consumerGroup := options ≫= consumerGroup;
        Subscriptions.sub_queueGroup := options ≫= queueGroup |} in
   zoom subscriptionManager set_subscriptionManager
     (Subscriptions.subscribe subscription);;;
   zoom world set_world
     (adapter_subscribe topic (options ≫= consumerGroup)
        (options ≫= queueGroup));;;
   ret subscriptionId)%js.

Definition unsubscribe (topic subscriptionId : string)
    : M UniversalMessageManager bool :=
  (removed <- zoom subscriptionManager set_subscriptionManager
                (Subscriptions.unsubscribe topic subscriptionId);;
   when_ removed
     (zoom world set_world (adapter_unsubscribe subscriptionId);;; ret tt);;;
   ret removed)%js.

Definition registerHandler (messageType : string)
    (handler : Registry.IMessageHandler) : M UniversalMessageManager unit :=
  zoom handlerRegistry set_handlerRegistry
    (Registry.register messageType handler).

Definition registerGlobalHandler (handler : Registry.IMessageHandler)
    : M UniversalMessageManager unit :=
  zoom handlerRegistry set_handlerRegistry (Registry.registerGlobal handler).

Definition addMiddleware (mw : Registry.MiddlewareFunction)
    : M UniversalMessageManager unit :=
  zoom handlerRegistry set_handlerRegistry (Registry.addMiddleware mw).

Definition getPerformanceMetrics (m : UniversalMessageManager)
    : Monitor.Metrics :=
  Monitor.getMetrics (performanceMonitor m).

Definition getQueueSizes (m : UniversalMessageManager) : list (string * Z) :=
  map (fun topic => (topic, Queue.getQueueSize topic (messageQueue m)))
    (Subscriptions.getAllTopics (subscriptionManager m)).

Definition getBrokerType : string := adapter_getType.

Definition isConnected (m : UniversalMessageManager) : bool :=
  adapter_isConnected (world m).

Definition getDLQMessages (topic : string) (m : UniversalMessageManager)
    : list IMessage :=
  Queue.getDLQMessages topic (messageQueue m).

(** [n] ticks of the drain loop in a row. *)
Fixpoint ticks (n : nat) : M UniversalMessageManager unit :=
  match n with
  | O => ret tt
  | S n' => (tick;;; ticks n')%js
  end.

End Manager.

Arguments UniversalMessageManager W : clear implicits.

End Manager.

(** ** The retry handler *)

Module Retry.

Inductive ConsoleEntry : Type :=
| ConsoleError (text : string)
| ConsoleWarn (text : string)
| ConsoleLog (text : string).

(** A pending [setTimeout(callback, delay)]; the callback of the handler
    writes one line to the console. *)
Record Timeout : Type := {
  delay : Z;
  callback : ConsoleEntry
}.

(** The fields of [RetryHandler], with the console and the timers of the
    host. *)
Record RetryHandler : Type := {
  maxRetries : Z;
  retryDelay : Z;
  retryCount : gmap string Z;
  console : list ConsoleEntry;
  timeouts : list Timeout
}.

Definition priority : Z := 15.

(** [new RetryHandler(maxRetries = 3, retryDelay = 1000)] *)
Definition create (maxRetries retryDelay : option Z) : RetryHandler :=
  {| maxRetries := default 3 maxRetries;
     retryDelay := default 1000 retryDelay;
     retryCount := ∅; console := []; timeouts := [] |}.

Definition set_retryCount (f : gmap string Z -> gmap string Z)
    (h : RetryHandler) : RetryHandler :=
  {| maxRetries := maxRetries h; retryDelay := retryDelay h;
     retryCount := f (retryCount h);
     console := console h; timeouts := timeouts h |}.

Definition print (entry : ConsoleEntry) : M RetryHandler unit :=
  modify (fun h =>
    {| maxRetries := maxRetries h; retryDelay := retryDelay h;
       retryCount := retryCount h;
       console := console h ++ [entry]; timeouts := timeouts h |}).

Definition setTimeout (callback : ConsoleEntry) (delay : Z)
    : M RetryHandler unit :=
  modify (fun h =>
    {| maxRetries := maxRetries h; retryDelay := retryDelay h;
       retryCount := retryCount h; console := console h;
       timeouts := timeouts h ++ [{| delay := delay; callback := callback |}] |}).

(** [message.metadata?.retry === true] *)
Definition canHandle (message : IMessage) : bool :=
  strict_equals (opt_index (msg_metadata message) "retry") (JSBool true).

(** [processMessage] as shipped: it throws for every message. *)
Definition processMessage (message : IMessage) : M RetryHandler unit :=
  throw "Message processing not implemented[object Object]".

Section Handle.
(** The processing step inside the [try] block. *)
Variable process : IMessage -> M RetryHandler unit.

Definition handle_with (message : IMessage) : M RetryHandler unit :=
  (currentRetries <-
     gets (fun h => default 0 (retryCount h !! msg_id message));;
   max <- gets maxRetries;;
   if currentRetries >=? max then
     print (ConsoleError
              ("Message " +:+ msg_id message +:+ " exceeded max retries ("
               +:+ pretty max +:+ ")"));;;
     modify (set_retryCount (delete (msg_id message)))
   else
     try_catch
       (process message;;;
        modify (set_retryCount (delete (msg_id message))))
       (fun error =>
          print (ConsoleWarn
                   ("Message " +:+ msg_id message
                    +:+ " failed, retrying... (attempt "
                    +:+ pretty (currentRetries + 1) +:+ ")"));;;
          modify (set_retryCount (<[msg_id message := currentRetries + 1]>));;;
          d <- gets retryDelay;;
          setTimeout (ConsoleLog ("Retrying message " +:+ msg_id message))
            (d * 2 ^ currentRetries)))%js.
End Handle.

Definition handle : IMessage -> M RetryHandler unit :=
  handle_with processMessage.

End Retry.

(** ** The circuit breaker *)

Module Breaker.

Inductive CircuitBreakerState : Type := CLOSED | OPEN | HALF_OPEN.

(** [CircuitBreakerConfig] *)
Record CircuitBreakerConfig : Type := {
  failureThreshold : Z;
  recoveryTimeout : Z;
  monitoringPeriod : Z
}.

(** Modelled from the spec: the fields of the class [CircuitBreaker] of
    [utils/circuit.breaker.ts], whose source is not available: the state,
    the count of consecutive failures and the time at which OPEN was
    entered. *)
Record CircuitBreaker : Type := {
  config : CircuitBreakerConfig;
  state : CircuitBreakerState;
  failureCount : Z;
  openedAt : Z
}.

(** Modelled from the spec: the constructor of the missing class; a breaker
    starts CLOSED with no failure recorded. *)
Definition create (c : CircuitBreakerConfig) : CircuitBreaker :=
  {| config := c; state := CLOSED; failureCount := 0; openedAt := 0 |}.


Section Execute.
Context {W A : Type}.




End Execute.

End Breaker.

(** ** Vocabulary of the statements *)

(** The numeric priority of a message. *)
Definition prio (m : IMessage) : Z := Queue.getPriorityValue (msg_priority m).

(** The live queue of a topic, empty when the topic is unknown. *)
Definition live (topic : string) (s : Queue.UniversalMessageQueue)
    : list IMessage :=
  default [] (Queue.queues s !! topic).

(** The queue after the insertion of [enqueue]. *)
Definition inserted (queue : list IMessage) (m : IMessage) : list IMessage :=
  Queue.splice queue (Queue.insertIndex queue (prio m) 0) m.

(** [n] calls of [dequeue(topic)] in a row, with their results. *)
Fixpoint dequeueMany (topic : string) (n : nat)
    : M Queue.UniversalMessageQueue (list (option IMessage)) :=
  match n with
  | O => ret []
  | S n' =>
      (r <- Queue.dequeue topic;;
       rs <- dequeueMany topic n';;
       ret (r :: rs))%js
  end.

(** Non-increasing priority along a queue. *)
Definition by_priority (queue : list IMessage) : Prop :=
  StronglySorted (fun a b => prio b <= prio a) queue.

(** The messages of one priority band, in their order. *)
Definition band (p : Z) (queue : list IMessage) : list IMessage :=
  List.filter (fun m => prio m =? p) queue.

(** ** Sample data *)

Definition message_with (id : string) (priority : option string) : IMessage :=
  {| msg_id := id; msg_type := "orders"; msg_payload := None;
     msg_timestamp := 0; msg_priority := priority; msg_metadata := None |}.

(** A queue object whose topic ["orders"] is at capacity. *)
Definition full_orders : Queue.UniversalMessageQueue :=
  {| Queue.queues :=
       {[ "orders" := replicate (Z.to_nat Queue.maxQueueSize)
                        (message_with "old" None) ]};
     Queue.dlq := ∅ |}.

(** ** The language of a pattern *)








(** A message with the given payload and metadata. *)
Definition message_of (payload metadata : option JSRecord) : IMessage :=
  {| msg_id := "m1"; msg_type := "user.login"; msg_payload := payload;
     msg_timestamp := 0; msg_priority := None; msg_metadata := metadata |}.

(** ** Order of handlers *)

(** Non-increasing priority along a list of handlers. *)
Definition descending (hs : list Registry.IMessageHandler) : Prop :=
  StronglySorted
    (fun a b => Registry.priorityOrZero b <= Registry.priorityOrZero a) hs.




Definition logging_handler (priority : Z) : Registry.IMessageHandler :=
  {| Registry.h_ref := 1; Registry.h_priority := Some priority;
     Registry.canHandle := fun _ => true |}.

Definition validation_handler : Registry.IMessageHandler :=
  {| Registry.h_ref := 2; Registry.h_priority := Some 10;
     Registry.canHandle :=
       fun message => String.eqb (msg_type message) "order.created" |}.


(** The order a comparison function stands for. *)
Definition cmp_le {A : Type} (compareFn : A -> A -> Z) (a b : A) : Prop :=
  compareFn a b <= 0.

(** The lists of a registry are kept in descending priority. *)
Definition registry_sorted (r : Registry.UniversalHandlerRegistry) : Prop :=
  descending (Registry.globalHandlers r) /\
  forall t hs, Registry.handlers r !! t = Some hs -> descending hs.

(** ** Nearest rank *)

(** [i] is [ceil(n * percentile / 100) - 1]. *)
Definition nearest_rank_index (n percentile i : Z) : Prop :=
  100 * i < n * percentile <= 100 * (i + 1).

(** A monitor after the given latencies were recorded for one operation of
    the broker ["redis"]. *)
Definition monitor_after (operation : string) (latencies : list Z)
    : Monitor.UniversalPerformanceMonitor :=
  (for_of latencies
     (fun latency => Monitor.recordLatency operation latency (Some "redis"))
     Monitor.empty).2.

(** ** Invariants and effects of the drain loop *)

(** No live queue is above capacity. *)
Definition queue_bounded (q : Queue.UniversalMessageQueue) : Prop :=
  forall t, Z.of_nat (length (live t q)) <= Queue.maxQueueSize.

(** The calls of [adapter.publish] made for a topic. *)
Definition calls_for (topic : string) (calls : list (string * IMessage * bool))
    : list (string * IMessage * bool) :=
  List.filter (fun call => String.eqb call.1.1 topic) calls.

(** The text of the error line of the drain loop for a topic. *)
Definition publish_failure (topic : string) : string :=
  "Failed to publish message for topic " +:+ topic +:+ ":".

(** What one pass of the drain loop does to the queue [before] of a topic
    it visits: nothing when the queue is empty; otherwise one call of
    [adapter.publish] for the head, which is gone from the queue when the
    call completes and back in the queue, with an error line on the console,
    when the call throws. *)
Definition drained_one (topic : string) (before after : list IMessage)
    (calls : list (string * IMessage * bool))
    (errors : list Manager.ConsoleEntry) : Prop :=
  match before with
  | [] => after = [] /\ calls_for topic calls = []
  | message :: rest =>
      exists ok,
        calls_for topic calls = [(topic, message, ok)] /\
        if ok then after = rest
        else after = inserted rest message /\
             message ∈ after /\
             exists e, Manager.ConsoleError (publish_failure topic) e ∈ errors
  end.

(** The state of a manager between two calls: no tick is running, the
    topics of the subscription manager are distinct and no live queue is
    above capacity. *)
Definition manager_wf {W : Type} (m : Manager.UniversalMessageManager W) : Prop :=
  Manager.isProcessing m = false /\
  NoDup (Subscriptions.getAllTopics (Manager.subscriptionManager m)) /\
  queue_bounded (Manager.messageQueue m).

(** ** A sample broker *)

(** A broker whose world is a clock; every [publish] takes one unit of time
    and fails on the topic ["down"]. *)
#[global] Instance sample_adapter : Manager.IBrokerAdapter Z :=
  {| Manager.adapter_connect := ret tt;
     Manager.adapter_disconnect := ret tt;
     Manager.adapter_publish := fun topic _ w =>
       if String.eqb topic "down" then (Throw "ECONNREFUSED", w + 1)
       else (Normal tt, w + 1);
     Manager.adapter_subscribe := fun topic _ _ w => (Normal topic, w);
     Manager.adapter_unsubscribe := fun _ w => (Normal true, w);
     Manager.adapter_isConnected := fun _ => true;
     Manager.adapter_getType := "redis" |}.

#[global] Instance sample_host : Manager.Host Z :=
  {| Manager.Date_now := fun w => w;
     Manager.Math_random_tag := fun w => ("k3x9q2m1z", w + 1) |}.

(** The state of a computation after it ran. *)
Definition after {S A} (c : M S A) (s : S) : S := (c s).2.

(** A manager with subscribers on ["down"] and ["up"], one message queued
    for each of them and one for ["nobody"], which has no subscriber. *)
Definition sample_manager : Manager.UniversalMessageManager Z :=
  after (Manager.publish "nobody" None None)
    (after (Manager.publish "up" None None)
       (after (Manager.publish "down" None None)
          (after (Manager.subscribe "up" None)
             (after (Manager.subscribe "down" None)
                (Manager.create 0))))).

(** ** Retries *)

(** The retry counter of a message id, zero when there is no entry. *)
Definition retries (id : string) (h : Retry.RetryHandler) : Z :=
  default 0 (Retry.retryCount h !! id).

(** The timer set by a failed attempt. *)
Definition retry_timer (id : string) (delay : Z) : Retry.Timeout :=
  {| Retry.delay := delay;
     Retry.callback := Retry.ConsoleLog ("Retrying message " +:+ id) |}.

(** The delays of the timers of the first [n] failed attempts. *)
Definition backoff (retryDelay : Z) (n : nat) : list Z :=
  map (fun k => retryDelay * 2 ^ Z.of_nat k) (seq 0 n).

(** A message marked for the retry handler. *)
Definition retry_message : IMessage :=
  {| msg_id := "m7"; msg_type := "payment.process"; msg_payload := None;
     msg_timestamp := 0; msg_priority := None;
     msg_metadata := Some {[ "retry" := JSBool true ]} |}.

(** A handler with the default limits after three failed attempts on
    ["m7"]: the counter has reached [maxRetries] = 3. *)
Definition exhausted_handler : Retry.RetryHandler :=
  (for_of (replicate 3 retry_message) Retry.handle (Retry.create None None)).2.

(** ** Protected calls *)





(** ** Runs of calls on a queue object *)

Inductive QueueCall : Type :=
| QEnqueue (topic : string) (message : IMessage)
| QDequeue (topic : string)
| QClear (topic : option string).

(** One call on the queue object, with the message a [dequeue] returns. *)
Definition queue_call (c : QueueCall)
    : M Queue.UniversalMessageQueue (option IMessage) :=
  match c with
  | QEnqueue topic message => (Queue.enqueue topic message;;; ret None)%js
  | QDequeue topic => Queue.dequeue topic
  | QClear topic => (Queue.clear topic;;; ret None)%js
  end.

(** The queue object after a run of calls, and the messages the [dequeue]
    calls of the run returned, each with its topic, in order. *)
Fixpoint queue_calls (calls : list QueueCall) (s : Queue.UniversalMessageQueue)
    : Queue.UniversalMessageQueue * list (string * IMessage) :=
  match calls with
  | [] => (s, [])
  | c :: rest =>
      let '(r, s') := queue_call c s in
      let '(s'', out) := queue_calls rest s' in
      (s'',
       match c, r with
       | QDequeue topic, Normal (Some message) => (topic, message) :: out
       | _, _ => out
       end)
  end.

(** The messages a run hands to [enqueue] for a topic, in order. *)
Fixpoint enqueued_to (topic : string) (calls : list QueueCall) : list IMessage :=
  match calls with
  | [] => []
  | QEnqueue t message :: rest =>
      if String.eqb t topic then message :: enqueued_to topic rest
      else enqueued_to topic rest
  | _ :: rest => enqueued_to topic rest
  end.

(** The messages dequeued from a topic, in order. *)
Definition dequeued_from (topic : string) (out : list (string * IMessage))
    : list IMessage :=
  map snd (List.filter (fun entry => String.eqb entry.1 topic) out).

Definition is_clear (c : QueueCall) : bool :=
  match c with QClear _ => true | _ => false end.

(** ** Runs of calls on a subscription manager *)

Inductive SubscriptionCall : Type :=
| SSubscribe (subscription : Subscriptions.ISubscription)
| SUnsubscribe (topic subscriptionId : string).

Definition subscription_call (c : SubscriptionCall)
    : M Subscriptions.UniversalSubscriptionManager unit :=
  match c with
  | SSubscribe subscription =>
      (Subscriptions.subscribe subscription;;; ret tt)%js
  | SUnsubscribe topic subscriptionId =>
      (Subscriptions.unsubscribe topic subscriptionId;;; ret tt)%js
  end.

(** The subscription registered under a topic and an id. *)
Definition find_subscription (topic id : string)
    (s : Subscriptions.UniversalSubscriptionManager)
    : option Subscriptions.ISubscription :=
  JSMap.get topic (Subscriptions.subscriptions s) ≫= JSMap.get id.

(** The two maps of a subscription manager agree: the same topics in the
    same order, none twice; every topic has at least one subscription, no
    id twice, and its set of ids lists the ids of its subscriptions. *)
Definition subscriptions_consistent
    (s : Subscriptions.UniversalSubscriptionManager) : Prop :=
  NoDup (JSMap.keys (Subscriptions.subscriptions s)) /\
  JSMap.keys (Subscriptions.topicSubscribers s)
  = JSMap.keys (Subscriptions.subscriptions s) /\
  forall topic subs,
    JSMap.get topic (Subscriptions.subscriptions s) = Some subs ->
    subs <> [] /\
    NoDup (JSMap.keys subs) /\
    JSMap.get topic (Subscriptions.topicSubscribers s)
    = Some (JSMap.keys subs).

(** A subscription with the given topic and id and no options. *)
Definition subscription_of (topic id : string) : Subscriptions.ISubscription :=
  {| Subscriptions.sub_id := id; Subscriptions.sub_topic := topic;
     Subscriptions.sub_filters := None;
     Subscriptions.sub_consumerGroup := None;
     Subscriptions.sub_queueGroup := None |}.

(** The subscription manager a run of calls on a new one leaves. *)
Definition subscriptions_after (calls : list SubscriptionCall)
    : Subscriptions.UniversalSubscriptionManager :=
  (for_of calls subscription_call Subscriptions.empty).2.

(** ** Positions in a handler list *)

(** The handlers of a list that a new handler is placed behind: those whose
    priority is not below its own. *)
Definition ahead_of (handler : Registry.IMessageHandler)
    (hs : list Registry.IMessageHandler) : list Registry.IMessageHandler :=
  List.filter
    (fun x => Registry.priorityOrZero handler <=? Registry.priorityOrZero x) hs.

(** The handlers of a list whose priority is below the new handler's. *)
Definition behind (handler : Registry.IMessageHandler)
    (hs : list Registry.IMessageHandler) : list Registry.IMessageHandler :=
  List.filter
    (fun x => Registry.priorityOrZero x <? Registry.priorityOrZero handler) hs.

(** The type-scoped handlers registered for a message type. *)
Definition typed (messageType : string) (r : Registry.UniversalHandlerRegistry)
    : list Registry.IMessageHandler :=
  default [] (Registry.handlers r !! messageType).

(** The handler objects of a list, by identity. *)
Definition refs (hs : list Registry.IMessageHandler) : list positive :=
  map Registry.h_ref hs.

(** How often a handler object occurs in a list. *)
Definition occurrences (handler : Registry.IMessageHandler)
    (hs : list Registry.IMessageHandler) : nat :=
  length (List.filter (Pos.eqb (Registry.h_ref handler)) (refs hs)).

(** ** Runs of [recordLatency] *)

(** A call [recordLatency(operation, latency, broker)]. *)
Record LatencyCall : Type := {
  lc_operation : string;
  lc_latency : Z;
  lc_broker : option string
}.

Definition record_all (calls : list LatencyCall)
    : M Monitor.UniversalPerformanceMonitor unit :=
  for_of calls
    (fun c => Monitor.recordLatency (lc_operation c) (lc_latency c) (lc_broker c)).

(** The latencies a run records under a key, in order. *)
Definition recorded_for (key : string) (calls : list LatencyCall) : list Z :=
  map lc_latency
    (List.filter
       (fun c => String.eqb (Monitor.metricKey (lc_operation c) (lc_broker c)) key)
       calls).

(** The last [n] entries of a list. *)
Definition last_n {A} (n : nat) (l : list A) : list A := drop (length l - n) l.

(** The samples held for a key. *)
Definition window (key : string) (s : Monitor.UniversalPerformanceMonitor)
    : list Z :=
  default [] (Monitor.metrics s !! key).

(** ** Messages and samples of the manager *)

(** The message [publish] and [publishImmediate] build:
    [{ id, type: topic, payload, timestamp: Date.now(), ...options }]. *)
Definition built_message {W : Type} {host : Manager.Host W} (w : W)
    (topic : string) (payload : option JSRecord)
    (options : option Manager.PartialMessage) : IMessage :=
  {| msg_id :=
       default
         ("msg_" +:+ pretty (Manager.Date_now w) +:+ "_"
          +:+ (Manager.Math_random_tag w).1)
         (options ≫= Manager.o_id);
     msg_type := default topic (options ≫= Manager.o_type);
     msg_payload := default payload (options ≫= Manager.o_payload);
     msg_timestamp :=
       default (Manager.Date_now (Manager.Math_random_tag w).2)
         (options ≫= Manager.o_timestamp);
     msg_priority := options ≫= Manager.o_priority;
     msg_metadata := options ≫= Manager.o_metadata |}.

(** The id [subscribe] makes up in a world. *)
Definition subscription_id {W : Type} {host : Manager.Host W} (w : W) : string :=
  "sub_" +:+ pretty (Manager.Date_now w) +:+ "_"
  +:+ (Manager.Math_random_tag w).1.

(** The outcome of a call whose adapter call ended in [r]. *)
Definition outcome {A B} (r : Completion A) (value : B) : Completion B :=
  match r with
  | Normal _ => Normal value
  | Throw e => Throw e
  end.

(** A manager of the sample broker with one subscriber on ["orders"]. *)
Definition subscribed_manager : Manager.UniversalMessageManager Z :=
  after (Manager.subscribe "orders" None) (Manager.create 0).

(** ** Rounds of the retry handler *)



(** ** The validation handler ([handlers/validation.handler.ts]) *)

Module Validation.

(** [Schema]: [required?: string[]] *)
Record Schema : Type := {
  required : option (list string)
}.

Record ValidationHandler : Type := {
  schemas : gmap string Schema
}.

Definition priority : Z := 10.

(** [new ValidationHandler(schemas = new Map())] *)
Definition create (schemas : option (gmap string Schema)) : ValidationHandler :=
  {| schemas := default ∅ schemas |}.

Definition addSchema (messageType : string) (schema : Schema)
    (h : ValidationHandler) : ValidationHandler :=
  {| schemas := <[messageType := schema]> (schemas h) |}.

Definition canHandle (h : ValidationHandler) (message : IMessage) : bool :=
  bool_decide (is_Some (schemas h !! msg_type message)).

(** The properties every plain object inherits from [Object.prototype]. *)
Definition Object_prototype : list string :=
  ["constructor"; "__defineGetter__"; "__defineSetter__"; "hasOwnProperty";
   "__lookupGetter__"; "__lookupSetter__"; "isPrototypeOf";
   "propertyIsEnumerable"; "toString"; "valueOf"; "__proto__";
   "toLocaleString"].

(** [field in payload] for a plain object: own and inherited properties *)
Definition js_in (field : string) (payload : JSRecord) : bool :=
  bool_decide (is_Some (payload !! field))
  || existsb (String.eqb field) Object_prototype.

(** [!message.payload || !(field in message.payload)] *)
Definition missing (message : IMessage) (field : string) : bool :=
  match msg_payload message with
  | None => true
  | Some payload => negb (js_in field payload)
  end.

Definition requiredError (field : string) (message : IMessage) : string :=
  "Required field '" +:+ field +:+ "' missing in message " +:+ msg_id message.

(** [handle]: the handler has no state of its own; [S] is the state of
    whoever calls it. *)
Definition handle {S : Type} (h : ValidationHandler) (message : IMessage)
    : M S unit :=
  match schemas h !! msg_type message with
  | None => ret tt
  | Some schema =>
      match required schema with
      | Some fields =>
          if (0 <? length fields)%nat then
            for_of fields
              (fun field =>
                 if missing message field
                 then throw (requiredError field message)
                 else ret tt)
          else ret tt
      | None => ret tt
      end
  end.

End Validation.

(** The fields a schema requires. *)
Definition required_fields (schema : Validation.Schema) : list string :=
  default [] (Validation.required schema).

(** ** The health checker ([utils/health.checker.ts]) *)

Module Health.



Section Health.
Context {W : Type} {host : Manager.Host W}.

(** The map [checks]; a check is an asynchronous function acting on the
    outside world. *)
Record HealthChecker : Type := {
  checks : JSMap (M W bool)
}.

Definition empty : HealthChecker := {| checks := [] |}.





End Health.
End Health.




(** ** The common middleware ([helper/Integration.helper.ts])

    The closures [setupCommonMiddleware] adds, each with the variable it
    captures as its state and with the rest of the chain, [next], acting on
    a state [X] of its own. *)

Module Integration.

(** [{ count, resetTime }] *)
Record UserData : Type := {
  count : Z;
  resetTime : Z
}.

Definition window : Z := 60000.
Definition limit : Z := 100.

(** [String(message.metadata?.userId || 'anonymous')] *)
Definition rateLimitKey (message : IMessage) : string :=
  String_of (js_or (opt_index (msg_metadata message) "userId")
               (JSString "anonymous")).

Section Middleware.
Context {X : Type}.

(** [await next()] from a closure with a state of its own *)
Definition await_next {S : Type} (next : M X unit) : M (S * X) unit :=
  zoom snd (fun x s => (s.1, x)) next.

(** The rate limiter; [now] is what [Date.now()] returns. *)
Definition rateLimit (now : Z) (next : M X unit) (message : IMessage)
    : M (gmap string UserData * X) unit :=
  (let key := rateLimitKey message in
   userData <- gets (fun s =>
     default {| count := 0; resetTime := now + window |} (s.1 !! key));;
   let userData :=
     if now >? resetTime userData
     then {| count := 0; resetTime := now + window |}
     else userData in
   if count userData >=? limit then
     throw ("Rate limit exceeded for " +:+ key)
   else
     modify (fun s =>
       (<[key := {| count := count userData + 1;
                    resetTime := resetTime userData |}]> s.1, s.2));;;
     await_next next)%js.

(** [oldIds.forEach(id => messageIds.delete(id))] *)
Definition deleteAll (oldIds : list string) (messageIds : list string)
    : list string :=
  fold_left (fun ids old => Subscriptions.Set_delete old ids) oldIds messageIds.

(** The deduplication by message id. *)
Definition dedup (next : M X unit) (message : IMessage)
    : M (list string * X) unit :=
  (seen <- gets (fun s => existsb (String.eqb (msg_id message)) s.1);;
   if seen then ret tt
   else
     modify (fun s => (Subscriptions.Set_add (msg_id message) s.1, s.2));;;
     size <- gets (fun s => length s.1);;
     when_ (Z.of_nat size >? 10000)
       (modify (fun s => (deleteAll (take 1000 s.1) s.1, s.2)));;;
     await_next next)%js.

End Middleware.

(** The rate limiter followed by the deduplication, in the order
    [setupCommonMiddleware] adds them; the middleware it adds first only
    writes a line to the console and awaits [next()]. *)
Definition limitThenDedup {X : Type} (now : Z) (next : M X unit)
    (message : IMessage)
    : M (gmap string UserData * (list string * X)) unit :=
  rateLimit now (dedup next message) message.

End Integration.

(** The calls of the rate limiter at the given times, for one message and
    with nothing after it in the chain: whether each of them completed, and
    the map of the limiter afterwards. *)
Fixpoint limited (times : list Z) (message : IMessage)
    (limiter : gmap string Integration.UserData)
    : list bool * gmap string Integration.UserData :=
  match times with
  | [] => ([], limiter)
  | now :: rest =>
      let '(r, s) := Integration.rateLimit now (ret tt) message (limiter, tt) in
      let '(outcomes, final) := limited rest message s.1 in
      (completed r :: outcomes, final)
  end.

(** The entry of the limiter at a time: the stored one, or a new one when
    there is none or its window is over. *)
Definition current_entry (now : Z) (key : string)
    (limiter : gmap string Integration.UserData) : Integration.UserData :=
  let userData :=
    default {| Integration.count := 0;
               Integration.resetTime := now + Integration.window |}
      (limiter !! key) in
  if now >? Integration.resetTime userData
  then {| Integration.count := 0;
          Integration.resetTime := now + Integration.window |}
  else userData.

(** An entry with one more call counted. *)
Definition counted (userData : Integration.UserData) : Integration.UserData :=
  {| Integration.count := Integration.count userData + 1;
     Integration.resetTime := Integration.resetTime userData |}.

(** A message of a user. *)
Definition message_of_user (id : string) (userId : JSValue) : IMessage :=
  {| msg_id := id; msg_type := "order.created"; msg_payload := None;
     msg_timestamp := 0; msg_priority := None;
     msg_metadata := Some {[ "userId" := userId ]} |}.

(** ** Connecting and the timers of the manager

    [connect], [disconnect], [startProcessing] and [stopProcessing] of
    [UniversalMessageManager], with the intervals of the host. *)

Module Lifecycle.

(** [BrokerFeatures], as far as the manager reads it *)
Record BrokerFeatures : Type := {
  persistence : option bool
}.

(** [IBrokerConfig], as far as the manager reads it *)
Record IBrokerConfig : Type := {
  type : string;
  features : option BrokerFeatures
}.

(** What the callback of an interval does. *)
Inductive TimerKind : Type := Processing | MetricsPoll.

(** A running [setInterval(callback, delay)]. *)
Record Interval : Type := {
  handle : nat;
  delay : Z;
  kind : TimerKind
}.

Section Lifecycle.
Context {W : Type} {adapter : Manager.IBrokerAdapter W} {host : Manager.Host W}.

(** [adapter.getMetrics], which an adapter need not have *)
Variable getMetrics : option (M W JSRecord).
Variable config : IBrokerConfig.

(** The manager with its field [processingInterval] and the intervals of
    the host. *)
Record Connection : Type := {
  manager : Manager.UniversalMessageManager W;
  processingInterval : option nat;
  intervals : list Interval;
  nextHandle : nat
}.

Definition create (w : W) : Connection :=
  {| manager := Manager.create w; processingInterval := None;
     intervals := []; nextHandle := 1 |}.

Definition set_manager (x : Manager.UniversalMessageManager W)
    (c : Connection) : Connection :=
  {| manager := x; processingInterval := processingInterval c;
     intervals := intervals c; nextHandle := nextHandle c |}.

Definition set_processingInterval (x : option nat) (c : Connection)
    : Connection :=
  {| manager := manager c; processingInterval := x;
     intervals := intervals c; nextHandle := nextHandle c |}.

Definition setInterval (kind : TimerKind) (delay : Z) : M Connection nat :=
  fun c =>
    (Normal (nextHandle c),
     {| manager := manager c; processingInterval := processingInterval c;
        intervals :=
          intervals c
          ++ [{| handle := nextHandle c; delay := delay; kind := kind |}];
        nextHandle := S (nextHandle c) |}).

Definition clearInterval (h : nat) : M Connection unit :=
  modify (fun c =>
    {| manager := manager c; processingInterval := processingInterval c;
       intervals := List.filter (fun i => negb (Nat.eqb (handle i) h)) (intervals c);
       nextHandle := nextHandle c |}).

(** [this.config.features?.persistence ? 10 : 1] *)
Definition processingDelay : Z :=
  match features config ≫= persistence with
  | Some true => 10
  | _ => 1
  end.

Definition startProcessing : M Connection unit :=
  (running <- gets processingInterval;;
   match running with
   | Some _ => ret tt
   | None =>
       h <- setInterval Processing processingDelay;;
       modify (set_processingInterval (Some h))
   end)%js.

Definition stopProcessing : M Connection unit :=
  (running <- gets processingInterval;;
   match running with
   | Some h =>
       clearInterval h;;;
       modify (set_processingInterval None)
   | None => ret tt
   end)%js.

(** A call of the adapter from the manager *)
Definition adapterCall {A : Type} (call : M W A) : M Connection A :=
  zoom manager set_manager (zoom Manager.world Manager.set_world call).

Definition connect : M Connection unit :=
  (adapterCall Manager.adapter_connect;;;
   startProcessing;;;
   match getMetrics with
   | Some _ => (setInterval MetricsPoll 30000;;; ret tt)
   | None => ret tt
   end)%js.

Definition disconnect : M Connection unit :=
  (stopProcessing;;;
   adapterCall Manager.adapter_disconnect)%js.

(** The callback of the interval [connect] sets up for the metrics. *)
Definition poll (get : M W JSRecord)
    : M (Manager.UniversalMessageManager W) unit :=
  try_catch
    (metrics <- zoom Manager.world Manager.set_world get;;
     now <- Manager.now;;
     zoom Manager.performanceMonitor Manager.set_performanceMonitor
       (Monitor.recordBrokerMetrics Manager.adapter_getType metrics now))%js
    (fun error =>
       Manager.console_error "Failed to collect broker metrics:" error).

(** An interval fires. *)
Definition fire (i : Interval) : M Connection unit :=
  match kind i with
  | Processing => zoom manager set_manager Manager.tick
  | MetricsPoll =>
      match getMetrics with
      | Some get => zoom manager set_manager (poll get)
      | None => ret tt
      end
  end.

Inductive Call : Type := Connect | Disconnect.

Definition perform (call : Call) : M Connection unit :=
  match call with
  | Connect => connect
  | Disconnect => disconnect
  end.

(** A run of calls, whatever each of them ends in, with whether each
    completed. *)
Fixpoint run (calls : list Call) (c : Connection) : Connection * list bool :=
  match calls with
  | [] => (c, [])
  | call :: rest =>
      let '(r, c') := perform call c in
      let '(final, results) := run rest c' in
      (final, completed r :: results)
  end.

End Lifecycle.

Arguments Connection W : clear implicits.

End Lifecycle.

(** The running intervals of a kind. *)
Definition timers_of {W : Type} (kind : Lifecycle.TimerKind)
    (c : Lifecycle.Connection W) : list Lifecycle.Interval :=
  List.filter
    (fun i =>
       match Lifecycle.kind i, kind with
       | Lifecycle.Processing, Lifecycle.Processing => true
       | Lifecycle.MetricsPoll, Lifecycle.MetricsPoll => true
       | _, _ => false
       end)
    (Lifecycle.intervals c).

(** The calls of [connect] in a run that completed. *)
Fixpoint connected (calls : list Lifecycle.Call) (results : list bool) : nat :=
  match calls, results with
  | Lifecycle.Connect :: calls', true :: results' => S (connected calls' results')
  | _ :: calls', _ :: results' => connected calls' results'
  | _, _ => 0
  end.

(** The intervals of a connection are in order: the processing interval
    is the one the manager holds, no handle is used twice, and the metrics
    are polled every 30 s. *)
Definition timers_consistent {W : Type} (config : Lifecycle.IBrokerConfig)
    (c : Lifecycle.Connection W) : Prop :=
  timers_of Lifecycle.Processing c
  = match Lifecycle.processingInterval c with
    | Some h =>
        [{| Lifecycle.handle := h;
            Lifecycle.delay := Lifecycle.processingDelay config;
            Lifecycle.kind := Lifecycle.Processing |}]
    | None => []
    end /\
  Forall (fun i => (Lifecycle.handle i < Lifecycle.nextHandle c)%nat)
    (Lifecycle.intervals c) /\
  NoDup (map Lifecycle.handle (Lifecycle.intervals c)) /\
  Forall (fun i => Lifecycle.delay i = 30000)
    (timers_of Lifecycle.MetricsPoll c).

(** ** The Redis adapter ([adapter/redis], in [unnamed/part_004])

    The adapter over the two [ioredis] clients it creates.  A message of
    the model has no [channel], so [publish] uses the topic. *)

Module Redis.

(** The [ioredis] clients of an adapter: their state [C] and the calls the
    adapter makes. *)
Class Client (C : Type) : Type := {
  client_new : M C unit;
  client_quit : M C unit;
  client_publish : string -> IMessage -> M C unit;
  subscriber_subscribe : string -> M C unit;
  subscriber_unsubscribe : string -> M C unit;
  client_ready : C -> bool
}.

(** The map [subscriptions], the topics of the listeners added with
    [subscriber.on('message', ...)], and the clients. *)
Record RedisAdapter (C : Type) : Type := {
  subscriptions : JSMap string;
  listeners : list string;
  clients : C
}.
Arguments subscriptions {C} _.
Arguments listeners {C} _.
Arguments clients {C} _.

Section Redis.
Context {C : Type} {client : Client C} {host : Manager.Host C}.

Definition create (c : C) : RedisAdapter C :=
  {| subscriptions := []; listeners := []; clients := c |}.

Definition set_clients (c : C) (a : RedisAdapter C) : RedisAdapter C :=
  {| subscriptions := subscriptions a; listeners := listeners a; clients := c |}.

(** A call on the clients *)
Definition onClients {A : Type} (call : M C A) : M (RedisAdapter C) A :=
  zoom clients set_clients call.

Definition connect : M (RedisAdapter C) unit := onClients client_new.

Definition disconnect : M (RedisAdapter C) unit := onClients client_quit.

Definition publish (topic : string) (message : IMessage)
    : M (RedisAdapter C) unit :=
  onClients (client_publish topic message).

(** [`redis_sub_${Date.now()}_${Math.random()...}`] *)
Definition fresh_id : M (RedisAdapter C) string :=
  (t <- gets (fun a => Manager.Date_now (clients a));;
   tag <- onClients
            (fun c => let '(tag, c') := Manager.Math_random_tag c in
                      (Normal tag, c'));;
   ret ("redis_sub_" +:+ pretty t +:+ "_" +:+ tag))%js.

Definition subscribe (topic : string) : M (RedisAdapter C) string :=
  (subscriptionId <- fresh_id;;
   onClients (subscriber_subscribe topic);;;
   modify (fun a =>
     {| subscriptions := subscriptions a;
        listeners := listeners a ++ [topic];
        clients := clients a |});;;
   modify (fun a =>
     {| subscriptions := JSMap.set subscriptionId topic (subscriptions a);
        listeners := listeners a;
        clients := clients a |});;;
   ret subscriptionId)%js.

Definition unsubscribe (subscriptionId : string) : M (RedisAdapter C) bool :=
  (topic <- gets (fun a => JSMap.get subscriptionId (subscriptions a));;
   match topic with
   | None => ret false
   | Some topic =>
       if String.eqb topic "" then ret false
       else
         onClients (subscriber_unsubscribe topic);;;
         modify (fun a =>
           {| subscriptions := JSMap.delete subscriptionId (subscriptions a);
              listeners := listeners a;
              clients := clients a |});;;
         ret true
   end)%js.

Definition isConnected (a : RedisAdapter C) : bool := client_ready (clients a).

(** The adapter as an [IBrokerAdapter]: the options of [subscribe] are not
    read. *)
Definition adapter : Manager.IBrokerAdapter (RedisAdapter C) :=
  {| Manager.adapter_connect := connect;
     Manager.adapter_disconnect := disconnect;
     Manager.adapter_publish := publish;
     Manager.adapter_subscribe := fun topic _ _ => subscribe topic;
     Manager.adapter_unsubscribe := unsubscribe;
     Manager.adapter_isConnected := isConnected;
     Manager.adapter_getType := "redis" |}.

(** The clock and the random source, seen from the adapter *)
Definition adapter_host : Manager.Host (RedisAdapter C) :=
  {| Manager.Date_now := fun a => Manager.Date_now (clients a);
     Manager.Math_random_tag := fun a =>
       let '(tag, c) := Manager.Math_random_tag (clients a) in
       (tag, set_clients c a) |}.

End Redis.
End Redis.

(** Whether a text starts with a prefix. *)
Fixpoint starts_with (prefix s : string) : bool :=
  match prefix with
  | EmptyString => true
  | String a prefix' =>
      match s with
      | EmptyString => false
      | String b s' => Ascii.eqb a b && starts_with prefix' s'
      end
  end.

(** Every subscription id the adapter holds is one it made. *)
Definition redis_ids {C : Type} (a : Redis.RedisAdapter C) : Prop :=
  Forall (fun id => starts_with "redis_sub_" id = true)
    (JSMap.keys (Redis.subscriptions a)).

(** Clients that answer every call at once. *)
#[global] Instance sample_client : Redis.Client Z :=
  {| Redis.client_new := ret tt;
     Redis.client_quit := ret tt;
     Redis.client_publish := fun _ _ => ret tt;
     Redis.subscriber_subscribe := fun _ => ret tt;
     Redis.subscriber_unsubscribe := fun _ => ret tt;
     Redis.client_ready := fun _ => true |}.

(** A new manager over a new Redis adapter. *)
Definition redis_manager : Manager.UniversalMessageManager (Redis.RedisAdapter Z) :=
  Manager.create (Redis.create 0).

(** ** The callback the manager hands to the adapter

    The wrapper [subscribe] builds around the callback of its caller.  What
    the handler registry and the handlers do with a message, and what the
    callback does, are [pipeline] and [callback]: they may change the
    manager and the world, and may throw.  The callback is called and not
    awaited: what it throws while it runs is what the wrapper catches. *)

Module Delivery.
Section Delivery.
Context {W : Type} {adapter : Manager.IBrokerAdapter W} {host : Manager.Host W}.

Variable subscriptionId : string.
Variable filters : option Subscriptions.MessageFilters.
Variable pipeline : IMessage -> M (Manager.UniversalMessageManager W) unit.
Variable callback : IMessage -> M (Manager.UniversalMessageManager W) unit.



End Delivery.
End Delivery.


(** ** The message builder ([MessageBuilder], in [unnamed/part_005]) *)

Module Builder.

(** The object [this.message], a [Partial<IMessage>]: [None] for a key
    that is absent. *)
Record PartialIMessage : Type := {
  id : option string;
  type : option string;
  payload : option JSRecord;
  timestamp : option Z;
  priority : option string;
  metadata : option JSRecord;
  headers : option (gmap string string);
  partition : option string;
  subject : option string;
  channel : option string
}.

(** [MessageBuilder.create()] *)
Definition create : PartialIMessage :=
  {| id := None; type := None; payload := None; timestamp := None;
     priority := None; metadata := None; headers := None; partition := None;
     subject := None; channel := None |}.

Definition set_id (x : option string) (b : PartialIMessage) : PartialIMessage :=
  {| id := x; type := type b; payload := payload b; timestamp := timestamp b;
     priority := priority b; metadata := metadata b; headers := headers b;
     partition := partition b; subject := subject b; channel := channel b |}.

Definition set_type (x : option string) (b : PartialIMessage)
    : PartialIMessage :=
  {| id := id b; type := x; payload := payload b; timestamp := timestamp b;
     priority := priority b; metadata := metadata b; headers := headers b;
     partition := partition b; subject := subject b; channel := channel b |}.

Definition set_payload (x : option JSRecord) (b : PartialIMessage)
    : PartialIMessage :=
  {| id := id b; type := type b; payload := x; timestamp := timestamp b;
     priority := priority b; metadata := metadata b; headers := headers b;
     partition := partition b; subject := subject b; channel := channel b |}.

Definition set_timestamp (x : option Z) (b : PartialIMessage)
    : PartialIMessage :=
  {| id := id b; type := type b; payload := payload b; timestamp := x;
     priority := priority b; metadata := metadata b; headers := headers b;
     partition := partition b; subject := subject b; channel := channel b |}.

Definition set_priority (x : option string) (b : PartialIMessage)
    : PartialIMessage :=
  {| id := id b; type := type b; payload := payload b; timestamp := timestamp b;
     priority := x; metadata := metadata b; headers := headers b;
     partition := partition b; subject := subject b; channel := channel b |}.

Definition set_metadata (x : option JSRecord) (b : PartialIMessage)
    : PartialIMessage :=
  {| id := id b; type := type b; payload := payload b; timestamp := timestamp b;
     priority := priority b; metadata := x; headers := headers b;
     partition := partition b; subject := subject b; channel := channel b |}.

(** The methods of the builder; each returns the builder itself. *)
Definition withId (x : string) : PartialIMessage -> PartialIMessage :=
  set_id (Some x).
Definition withType (x : string) : PartialIMessage -> PartialIMessage :=
  set_type (Some x).
Definition withPayload (x : JSRecord) : PartialIMessage -> PartialIMessage :=
  set_payload (Some x).
Definition withPriority (x : string) : PartialIMessage -> PartialIMessage :=
  set_priority (Some x).

(** [metadata(key, value)]: the record is created when it is missing. *)
Definition withMetadata (key : string) (value : JSValue) (b : PartialIMessage)
    : PartialIMessage :=
  set_metadata (Some (<[key := value]> (default ∅ (metadata b)))) b.

(** [header(key, value)], likewise *)
Definition withHeader (key value : string) (b : PartialIMessage)
    : PartialIMessage :=
  {| id := id b; type := type b; payload := payload b; timestamp := timestamp b;
     priority := priority b; metadata := metadata b;
     headers := Some (<[key := value]> (default ∅ (headers b)));
     partition := partition b; subject := subject b; channel := channel b |}.

Definition withPartition (x : string) (b : PartialIMessage) : PartialIMessage :=
  {| id := id b; type := type b; payload := payload b; timestamp := timestamp b;
     priority := priority b; metadata := metadata b; headers := headers b;
     partition := Some x; subject := subject b; channel := channel b |}.

Definition withSubject (x : string) (b : PartialIMessage) : PartialIMessage :=
  {| id := id b; type := type b; payload := payload b; timestamp := timestamp b;
     priority := priority b; metadata := metadata b; headers := headers b;
     partition := partition b; subject := Some x; channel := channel b |}.

Definition withChannel (x : string) (b : PartialIMessage) : PartialIMessage :=
  {| id := id b; type := type b; payload := payload b; timestamp := timestamp b;
     priority := priority b; metadata := metadata b; headers := headers b;
     partition := partition b; subject := subject b; channel := Some x |}.

Section Build.
Context {W : Type} {host : Manager.Host W}.

(** [build()]: the state is the message object of the builder and the
    world; what is returned is that object. *)
Definition build : M (PartialIMessage * W) PartialIMessage :=
  (hasId <- gets (fun s =>
     match id s.1 with
     | Some x => negb (String.eqb x "")
     | None => false
     end);;
   when_ (negb hasId)
     (t <- gets (fun s => Manager.Date_now s.2);;
      tag <- zoom snd (fun w s => (s.1, w))
               (fun w => let '(tag, w') := Manager.Math_random_tag w in
                         (Normal tag, w'));;
      modify (fun s =>
        (set_id (Some ("msg_" +:+ pretty t +:+ "_" +:+ tag)) s.1, s.2)));;;
   hasTimestamp <- gets (fun s =>
     match timestamp s.1 with
     | Some t => negb (t =? 0)
     | None => false
     end);;
   when_ (negb hasTimestamp)
     (t <- gets (fun s => Manager.Date_now s.2);;
      modify (fun s => (set_timestamp (Some t) s.1, s.2)));;;
   gets fst)%js.

End Build.
End Builder.

(** ** Moving subscriptions to another manager
    ([IntegrationHelper.migrateSubscriptions]) *)

Module Migration.


Section Migration.
Context {W1 W2 : Type} {adapter : Manager.IBrokerAdapter W2}
  {host : Manager.Host W2}.





End Migration.
End Migration.


(** * Verification *)

(** ** The monad *)

Lemma for_of_app {S X} (xs ys : list X) (body : X -> M S unit) (s : S) :
  for_of (xs ++ ys) body s =
  match for_of xs body s with
  | (Normal _, s') => for_of ys body s'
  | (Throw e, s') => (Throw e, s')
  end.
Proof.
  revert s. induction xs as [|x xs IH]; intros s; simpl.
  - reflexivity.
  - unfold bind. destruct (body x s) as [[[]|e] s1]; [apply IH | reflexivity].
Qed.

(** ** The priority queue *)

Section QueueFacts.
Import Queue.

Lemma getPriorityValue_range p : 1 <= getPriorityValue p <= 4.
Proof.
  unfold getPriorityValue.
  repeat (match goal with
          | |- context [match ?x with _ => _ end] => destruct x
          end; try lia).
Qed.

Lemma insertIndex_shift queue p i :
  insertIndex queue p i = (i + insertIndex queue p 0)%nat.
Proof.
  revert i. induction queue as [|x queue IH]; intros i; simpl.
  - lia.
  - destruct (getPriorityValue (msg_priority x) <? p); [lia|].
    rewrite (IH (S i)), (IH 1%nat). lia.
Qed.

Lemma inserted_nil m : inserted [] m = [m].
Proof. reflexivity. Qed.

Lemma inserted_cons x queue m :
  inserted (x :: queue) m =
  if prio x <? prio m then m :: x :: queue else x :: inserted queue m.
Proof.
  unfold inserted, splice, prio. simpl.
  destruct (getPriorityValue (msg_priority x) <? _); [reflexivity|].
  rewrite insertIndex_shift. reflexivity.
Qed.

Lemma inserted_length queue m : length (inserted queue m) = S (length queue).
Proof.
  induction queue as [|x queue IH]; [reflexivity|].
  rewrite inserted_cons. destruct (prio x <? prio m); simpl; lia.
Qed.

Lemma inserted_perm queue m : inserted queue m ≡ₚ queue ++ [m].
Proof.
  induction queue as [|x queue IH]; [reflexivity|].
  rewrite inserted_cons. destruct (prio x <? prio m); simpl.
  - change (m :: x :: queue) with ([m] ++ (x :: queue)).
    change (x :: queue ++ [m]) with ((x :: queue) ++ [m]).
    apply Permutation_app_comm.
  - by rewrite IH.
Qed.

(** [enqueue] in a queue that has room. *)
Lemma enqueue_room topic m s :
  Z.of_nat (length (live topic s)) < maxQueueSize ->
  enqueue topic m s = (Normal tt, set_queue topic (inserted (live topic s) m) s).
Proof.
  intros Hlt. unfold enqueue, bind, gets, when_, modify, ret, live in *.
  destruct (queues s !! topic) as [q|] eqn:Hq; simpl in *; rewrite ?Hq; simpl.
  - destruct (Z.geb_spec (Z.of_nat (length q)) maxQueueSize); [lia|reflexivity].
  - rewrite lookup_insert_eq. simpl.
    unfold set_queue; simpl. by rewrite insert_insert_eq.
Qed.

Lemma enqueueToDLQ_run topic m s :
  enqueueToDLQ topic m s
  = (Normal tt, set_dlq topic (getDLQMessages topic s ++ [m]) s).
Proof.
  unfold enqueueToDLQ, bind, gets, when_, modify, ret, getDLQMessages.
  destruct (dlq s !! topic) as [d|] eqn:Hd; simpl; rewrite ?Hd; simpl.
  - reflexivity.
  - rewrite lookup_insert_eq. simpl.
    unfold set_dlq; simpl. by rewrite insert_insert_eq.
Qed.

(** [enqueue] in a queue that is full. *)
Lemma enqueue_full topic m s q :
  queues s !! topic = Some q ->
  maxQueueSize <= Z.of_nat (length q) ->
  enqueue topic m s
  = (Normal tt, set_dlq topic (getDLQMessages topic s ++ [m]) s).
Proof.
  intros Hq Hge. unfold enqueue, bind, gets, when_, modify, ret.
  rewrite Hq. simpl. rewrite ?Hq. simpl.
  destruct (Z.geb_spec (Z.of_nat (length q)) maxQueueSize); [|lia].
  apply enqueueToDLQ_run.
Qed.

Lemma dequeue_run topic s :
  dequeue topic s =
  match queues s !! topic with
  | Some (m :: rest) => (Normal (Some m), set_queue topic rest s)
  | _ => (Normal None, s)
  end.
Proof.
  unfold dequeue, bind, gets, modify, ret.
  destruct (queues s !! topic) as [[|m rest]|]; reflexivity.
Qed.

End QueueFacts.

Section QueueOrder.
Import Queue.

Lemma inserted_below x queue m :
  by_priority (x :: queue) -> prio x < prio m -> band (prio m) (x :: queue) = [].
Proof.
  intros Hs Hlt. apply StronglySorted_inv in Hs as [_ Hall].
  unfold band. simpl. destruct (Z.eqb_spec (prio x) (prio m)); [lia|].
  induction Hall as [|y l Hy _ IH]; [reflexivity|]. simpl.
  destruct (Z.eqb_spec (prio y) (prio m)); [lia|apply IH].
Qed.

Lemma inserted_sorted queue m : by_priority queue -> by_priority (inserted queue m).
Proof.
  unfold by_priority.
  induction queue as [|x queue IH]; intros Hs.
  - rewrite inserted_nil. repeat constructor.
  - rewrite inserted_cons. destruct (Z.ltb_spec (prio x) (prio m)) as [Hlt|Hge].
    + constructor; [exact Hs|].
      apply StronglySorted_inv in Hs as [_ Hall].
      constructor; [lia|].
      eapply Forall_impl; [exact Hall|]. simpl. intros; lia.
    + apply StronglySorted_inv in Hs as [Hs Hall].
      constructor; [by apply IH|].
      rewrite inserted_perm. apply Forall_app. split; [exact Hall|].
      by repeat constructor.
Qed.

Lemma band_cons p m queue : band p (m :: queue) = band p [m] ++ band p queue.
Proof. unfold band. simpl. by destruct (prio m =? p). Qed.

Lemma inserted_band queue m p :
  by_priority queue ->
  band p (inserted queue m) = band p queue ++ band p [m].
Proof.
  induction queue as [|x queue IH]; intros Hs.
  - reflexivity.
  - rewrite inserted_cons. destruct (Z.ltb_spec (prio x) (prio m)) as [Hlt|Hge].
    + rewrite band_cons. destruct (Z.eq_dec (prio m) p) as [<-|Hne].
      * rewrite (inserted_below x queue m Hs Hlt). by rewrite app_nil_r.
      * assert (band p [m] = []) as ->.
        { unfold band. simpl. by destruct (Z.eqb_spec (prio m) p). }
        by rewrite app_nil_r.
    + apply StronglySorted_inv in Hs as [Hs _].
      rewrite band_cons, (IH Hs), app_assoc, <- band_cons. reflexivity.
Qed.

(** The queue built by inserting the messages one after the other. *)
Lemma inserted_all_length ms q0 :
  length (fold_left inserted ms q0) = (length q0 + length ms)%nat.
Proof.
  induction ms as [|m ms IH] using rev_ind; [simpl; lia|].
  rewrite fold_left_app. simpl. rewrite inserted_length, length_app, IH.
  simpl. lia.
Qed.

Lemma inserted_all_sorted ms q0 :
  by_priority q0 -> by_priority (fold_left inserted ms q0).
Proof.
  intros Hs. induction ms as [|m ms IH] using rev_ind; [exact Hs|].
  rewrite fold_left_app. simpl. by apply inserted_sorted.
Qed.

Lemma inserted_all_band ms q0 p :
  by_priority q0 ->
  band p (fold_left inserted ms q0) = band p q0 ++ band p ms.
Proof.
  intros Hs. induction ms as [|m ms IH] using rev_ind.
  - simpl. by rewrite app_nil_r.
  - rewrite fold_left_app. simpl.
    rewrite inserted_band by (by apply inserted_all_sorted).
    rewrite IH. unfold band. by rewrite List.filter_app, app_assoc.
Qed.

Lemma inserted_all_perm ms q0 : fold_left inserted ms q0 ≡ₚ q0 ++ ms.
Proof.
  induction ms as [|m ms IH] using rev_ind; [by rewrite app_nil_r|].
  rewrite fold_left_app. simpl. by rewrite inserted_perm, IH, app_assoc.
Qed.

Lemma maxQueueSize_pos : 0 < maxQueueSize.
Proof. reflexivity. Qed.

Lemma enqueue_total topic m s : exists s', enqueue topic m s = (Normal tt, s').
Proof.
  destruct (Z.lt_ge_cases (Z.of_nat (length (live topic s))) maxQueueSize)
    as [Hlt|Hge].
  - eexists. by apply enqueue_room.
  - pose proof maxQueueSize_pos. unfold live in Hge.
    destruct (queues s !! topic) as [q|] eqn:Hq; simpl in Hge; [|lia].
    eexists. by eapply enqueue_full.
Qed.

(** The live queue after a run of [enqueue] calls: the messages admitted
    are the first ones, as many as the queue had room for. *)
Lemma enqueue_all_run topic ms s0 :
  Z.of_nat (length (live topic s0)) <= maxQueueSize ->
  exists s,
    for_of ms (enqueue topic) s0 = (Normal tt, s) /\
    live topic s
    = fold_left inserted
        (take (Z.to_nat maxQueueSize - length (live topic s0)) ms)
        (live topic s0).
Proof.
  intros Hb. pose proof maxQueueSize_pos as Hpos.
  set (room := (Z.to_nat maxQueueSize - length (live topic s0))%nat).
  induction ms as [|m ms IH] using rev_ind.
  - exists s0. split; [reflexivity|]. by rewrite take_nil.
  - destruct IH as (s & Hrun & Hlive).
    rewrite for_of_app, Hrun. simpl. unfold bind, ret.
    destruct (Nat.lt_ge_cases (length ms) room) as [Hlt|Hge].
    + rewrite take_ge in Hlive by lia.
      rewrite enqueue_room
        by (rewrite Hlive, inserted_all_length; unfold room in Hlt; lia).
      eexists. split; [reflexivity|].
      unfold live at 1, set_queue. simpl. rewrite lookup_insert_eq. simpl.
      rewrite take_ge by (rewrite length_app; simpl; lia).
      by rewrite fold_left_app, Hlive.
    + assert (Hlen : length (live topic s) = Z.to_nat maxQueueSize).
      { rewrite Hlive, inserted_all_length, length_take. unfold room in *. lia. }
      unfold live at 1 in Hlen. unfold live at 1 in Hlive.
      destruct (queues s !! topic) as [q|] eqn:Hq; simpl in Hlen, Hlive;
        [|lia].
      rewrite (enqueue_full topic m s q Hq) by lia.
      eexists. split; [reflexivity|].
      unfold live at 1, set_dlq. simpl. rewrite Hq. simpl.
      rewrite take_app_le by lia. exact Hlive.
Qed.

Lemma dequeueMany_run topic n s :
  exists s',
    dequeueMany topic n s
    = (Normal (map Some (take n (live topic s))
               ++ replicate (n - length (live topic s)) None), s').
Proof.
  revert s. induction n as [|n IH]; intros s.
  - exists s. reflexivity.
  - simpl. unfold bind at 1. rewrite dequeue_run. unfold live at 1 2.
    destruct (queues s !! topic) as [[|m rest]|] eqn:Hq; simpl.
    + destruct (IH s) as (s' & Hrun). exists s'. unfold bind, ret.
      rewrite Hrun. unfold live. rewrite Hq. simpl.
      rewrite take_nil. simpl. by rewrite Nat.sub_0_r.
    + destruct (IH (set_queue topic rest s)) as (s' & Hrun). exists s'.
      unfold bind, ret. rewrite Hrun. unfold live, set_queue. simpl.
      by rewrite lookup_insert_eq.
    + destruct (IH s) as (s' & Hrun). exists s'. unfold bind, ret.
      rewrite Hrun. unfold live. rewrite Hq. simpl.
      rewrite take_nil. simpl. by rewrite Nat.sub_0_r.
Qed.

End QueueOrder.

(** ** Order and overflow of the priority queue *)

(** C1.  For every sequence of [enqueue] calls on one topic, made on a
    queue object whose queue for the topic is in priority order and within
    capacity (a fresh object, or one left by earlier calls), repeated
    [dequeue] calls return the queued messages in non-increasing priority
    (critical 4, high 3, normal 2, low 1, no priority counting as normal),
    the messages of one priority in the order of their [enqueue] calls, and
    then [null]; and [dequeue] on a topic with nothing queued returns [null]
    and does not throw.  The messages admitted to the queue are the first
    ones of the sequence, as many as the queue has room for. *)
Theorem dequeue_priority_then_fifo
    (topic : string) (ms : list IMessage) (s0 : Queue.UniversalMessageQueue) :
  by_priority (live topic s0) ->
  Z.of_nat (length (live topic s0)) <= Queue.maxQueueSize ->
  exists s q admitted,
    for_of ms (Queue.enqueue topic) s0 = (Normal tt, s) /\
    (forall n, exists s',
        dequeueMany topic n s
        = (Normal (map Some (take n q) ++ replicate (n - length q) None), s')) /\
    admitted
    = take (Z.to_nat Queue.maxQueueSize - length (live topic s0)) ms /\
    by_priority q /\
    (forall p, band p q = band p (live topic s0) ++ band p admitted) /\
    q ≡ₚ live topic s0 ++ admitted /\
    (Queue.getPriorityValue (Some "critical") = 4 /\
     Queue.getPriorityValue (Some "high") = 3 /\
     Queue.getPriorityValue (Some "normal") = 2 /\
     Queue.getPriorityValue (Some "low") = 1 /\
     Queue.getPriorityValue None = 2) /\
    (forall s1 t, live t s1 = [] -> Queue.dequeue t s1 = (Normal None, s1)).
Proof.
  intros Hsorted Hbound.
  destruct (enqueue_all_run topic ms s0 Hbound) as (s & Hrun & Hlive).
  exists s, (live topic s),
    (take (Z.to_nat Queue.maxQueueSize - length (live topic s0)) ms).
  split; [exact Hrun|].
  split; [intros n; apply dequeueMany_run|].
  split; [reflexivity|].
  rewrite Hlive.
  split; [by apply inserted_all_sorted|].
  split; [intros p; by apply inserted_all_band|].
  split; [apply inserted_all_perm|].
  split; [by repeat split|].
  intros s1 t Hempty. rewrite dequeue_run. unfold live in Hempty.
  destruct (Queue.queues s1 !! t) as [[|m rest]|]; simpl in Hempty;
    [reflexivity|discriminate|reflexivity].
Qed.

Lemma dequeue_priority_then_fifo_witness :
  by_priority (live "orders" Queue.empty) /\
  Z.of_nat (length (live "orders" Queue.empty)) <= Queue.maxQueueSize /\
  exists s q,
    for_of [message_with "a" (Some "low"); message_with "b" (Some "high")]
      (Queue.enqueue "orders") Queue.empty = (Normal tt, s) /\
    by_priority q /\
    q ≡ₚ [message_with "a" (Some "low"); message_with "b" (Some "high")] /\
    Queue.dequeue "returns" s = (Normal None, s).
Proof.
  assert (Hsorted : by_priority (live "orders" Queue.empty)) by constructor.
  assert (Hbound :
    Z.of_nat (length (live "orders" Queue.empty)) <= Queue.maxQueueSize)
    by (vm_compute; discriminate).
  split; [exact Hsorted|]. split; [exact Hbound|].
  destruct (dequeue_priority_then_fifo "orders"
              [message_with "a" (Some "low"); message_with "b" (Some "high")]
              Queue.empty Hsorted Hbound)
    as (s & q & admitted & Hrun & _ & Hadm & Hq & _ & Hperm & _ & Hnull).
  exists s, q. split; [exact Hrun|]. split; [exact Hq|]. split.
  - rewrite Hperm, Hadm. reflexivity.
  - apply Hnull.
    assert (Hs : s = (for_of [message_with "a" (Some "low");
                              message_with "b" (Some "high")]
                        (Queue.enqueue "orders") Queue.empty).2)
      by (by rewrite Hrun).
    rewrite Hs. vm_compute. reflexivity.
Defined.

(** C2.  [enqueue] never throws.  When the live queue of the topic holds
    [maxQueueSize] = 10000 entries, the call leaves every live queue as it
    is and appends the message, as one entry, at the tail of the dead-letter
    store of the topic; when the live queue is below capacity, the
    dead-letter stores are unchanged and the message is inserted into the
    live queue of the topic. *)
Theorem enqueue_overflow_to_dlq (topic : string) (m : IMessage)
    (s : Queue.UniversalMessageQueue) :
  Queue.maxQueueSize = 10000 /\
  exists s',
    Queue.enqueue topic m s = (Normal tt, s') /\
    (Queue.getQueueSize topic s = Queue.maxQueueSize ->
       Queue.queues s' = Queue.queues s /\
       Queue.getQueueSize topic s' = Queue.maxQueueSize /\
       Queue.getDLQMessages topic s' = Queue.getDLQMessages topic s ++ [m] /\
       (forall t, t <> topic -> Queue.dlq s' !! t = Queue.dlq s !! t)) /\
    (Queue.getQueueSize topic s < Queue.maxQueueSize ->
       Queue.dlq s' = Queue.dlq s /\
       (exists before after,
           live topic s = before ++ after /\
           live topic s' = before ++ m :: after) /\
       Queue.getQueueSize topic s' = Queue.getQueueSize topic s + 1 /\
       (forall t, t <> topic -> Queue.queues s' !! t = Queue.queues s !! t)).
Proof.
  split; [reflexivity|].
  destruct (enqueue_total topic m s) as (s' & Hrun). exists s'.
  split; [exact Hrun|]. unfold Queue.getQueueSize. split.
  - intros Hfull. pose proof maxQueueSize_pos.
    destruct (Queue.queues s !! topic) as [q|] eqn:Hq; [|lia].
    rewrite (enqueue_full topic m s q Hq) in Hrun by lia.
    injection Hrun as <-. simpl. rewrite Hq.
    split; [reflexivity|]. split; [exact Hfull|].
    unfold Queue.getDLQMessages at 1. simpl. rewrite lookup_insert_eq.
    split; [reflexivity|]. intros t Hne. by rewrite lookup_insert_ne.
  - intros Hroom.
    assert (Hlt : Z.of_nat (length (live topic s)) < Queue.maxQueueSize).
    { unfold live. pose proof maxQueueSize_pos.
      destruct (Queue.queues s !! topic); simpl; lia. }
    rewrite (enqueue_room topic m s Hlt) in Hrun. injection Hrun as <-.
    simpl. split; [reflexivity|]. split.
    { exists (take (Queue.insertIndex (live topic s) (prio m) 0) (live topic s)),
             (drop (Queue.insertIndex (live topic s) (prio m) 0) (live topic s)).
      split; [by rewrite take_drop|].
      unfold live at 1. simpl. by rewrite lookup_insert_eq. }
    rewrite lookup_insert_eq, inserted_length. split.
    { unfold live. destruct (Queue.queues s !! topic); simpl; lia. }
    intros t Hne. by rewrite lookup_insert_ne.
Qed.

Lemma enqueue_overflow_to_dlq_witness :
  Queue.getQueueSize "orders" full_orders = Queue.maxQueueSize /\
  Queue.getQueueSize "returns" full_orders < Queue.maxQueueSize /\
  (exists s',
      Queue.enqueue "orders" (message_with "new" (Some "critical")) full_orders
      = (Normal tt, s') /\
      Queue.getDLQMessages "orders" s' = [message_with "new" (Some "critical")] /\
      Queue.getQueueSize "orders" s' = Queue.maxQueueSize) /\
  (exists s',
      Queue.enqueue "returns" (message_with "new" None) full_orders
      = (Normal tt, s') /\
      Queue.dlq s' = ∅ /\
      Queue.getQueueSize "returns" s' = 1).
Proof.
  assert (H1 : Queue.getQueueSize "orders" full_orders = Queue.maxQueueSize)
    by (vm_compute; reflexivity).
  assert (H2 : Queue.getQueueSize "returns" full_orders < Queue.maxQueueSize)
    by (vm_compute; reflexivity).
  split; [exact H1|]. split; [exact H2|]. split.
  - destruct (enqueue_overflow_to_dlq "orders"
                (message_with "new" (Some "critical")) full_orders)
      as (_ & s' & Hrun & Hfull & _).
    exists s'. split; [exact Hrun|].
    destruct (Hfull H1) as (_ & Hsize & Hdlq & _).
    split; [exact Hdlq|exact Hsize].
  - destruct (enqueue_overflow_to_dlq "returns"
                (message_with "new" None) full_orders)
      as (_ & s' & Hrun & _ & Hroom).
    exists s'. split; [exact Hrun|].
    destruct (Hroom H2) as (Hdlq & _ & Hsize & _).
    split; [exact Hdlq|exact Hsize].
Defined.

(** ** Patterns *)

Section PatternFacts.








End PatternFacts.

(** ** The filters of a subscription *)

Section FilterFacts.
Import Subscriptions.





End FilterFacts.



(** C10.  When the payload maps a filter key to a falsy value (0, false,
    the empty string or null), the candidate that [matchesFilters] compares
    is the metadata's value for the key, [undefined] when the metadata has
    none; so for a message whose payload has [k] equal to 0 and whose
    metadata lacks [k], [matchesFilters(message, {k: 0})] is [false]. *)
Theorem matchesFilters_falsy_payload :
  (forall message payload key value,
      msg_payload message = Some payload ->
      payload !! key = Some value ->
      value ∈ [JSNumber 0; JSBool false; JSString ""; JSNull] ->
      Subscriptions.msgValue message key
      = opt_index (msg_metadata message) key) /\
  (forall message key,
      opt_index (msg_metadata message) key
      = match msg_metadata message with
        | Some metadata =>
            match metadata !! key with
            | Some value => value
            | None => JSUndefined
            end
        | None => JSUndefined
        end) /\
  (forall message payload key,
      msg_payload message = Some payload ->
      payload !! key = Some (JSNumber 0) ->
      opt_index (msg_metadata message) key = JSUndefined ->
      Subscriptions.matchesFilters message (Some [(key, JSNumber 0)])
      = Some false).
Proof.
  assert (Hfalsy : forall message payload key value,
    msg_payload message = Some payload ->
    payload !! key = Some value ->
    truthy value = false ->
    Subscriptions.msgValue message key = opt_index (msg_metadata message) key).
  { intros message payload key value Hp Hk Hv.
    unfold Subscriptions.msgValue, js_or, opt_index at 1 2.
    by rewrite Hp, Hk; simpl; rewrite Hv. }
  split.
  - intros message payload key value Hp Hk Hin.
    apply (Hfalsy message payload key value Hp Hk).
    repeat (apply elem_of_cons in Hin as [->|Hin]; [reflexivity|]).
    by apply elem_of_nil in Hin.
  - split.
    + intros message key. unfold opt_index.
      destruct (msg_metadata message) as [metadata|]; [|reflexivity].
      by destruct (metadata !! key).
    + intros message payload key Hp Hk Hmeta. simpl.
      unfold Subscriptions.matchesEntry.
      rewrite (Hfalsy message payload key (JSNumber 0) Hp Hk eq_refl), Hmeta.
      reflexivity.
Qed.

Lemma matchesFilters_falsy_payload_witness :
  Subscriptions.msgValue
    (message_of (Some {[ "count" := JSNumber 0 ]}) None) "count" = JSUndefined /\
  Subscriptions.matchesFilters
    (message_of (Some {[ "count" := JSNumber 0 ]}) None)
    (Some [("count", JSNumber 0)]) = Some false.
Proof.
  destruct matchesFilters_falsy_payload as (Hcand & _ & Hzero).
  split.
  - rewrite (Hcand (message_of (Some {[ "count" := JSNumber 0 ]}) None)
               {[ "count" := JSNumber 0 ]} "count" (JSNumber 0));
      [reflexivity|reflexivity|reflexivity|].
    apply elem_of_cons. by left.
  - apply (Hzero _ {[ "count" := JSNumber 0 ]} "count");
      [reflexivity|reflexivity|reflexivity].
Defined.

(** ** Sorting *)

Lemma StronglySorted_impl {A} (R R' : A -> A -> Prop) l :
  (forall a b, R a b -> R' a b) -> StronglySorted R l -> StronglySorted R' l.
Proof.
  intros Himpl. induction 1 as [|x l _ IH Hall]; constructor; [exact IH|].
  eapply Forall_impl; [exact Hall|]. intros; by apply Himpl.
Qed.

Section SortFacts.
Context {A : Type} (compareFn : A -> A -> Z).

Hypothesis cmp_total :
  forall a b, cmp_le compareFn a b \/ cmp_le compareFn b a.
Hypothesis cmp_trans :
  forall a b c, cmp_le compareFn a b -> cmp_le compareFn b c -> cmp_le compareFn a c.

Lemma sort_insert_perm x l : sort_insert compareFn x l ≡ₚ x :: l.
Proof.
  induction l as [|y l IH]; simpl; [reflexivity|].
  destruct (compareFn x y <=? 0); [reflexivity|].
  rewrite IH. apply perm_swap.
Qed.

Lemma Array_sort_perm l : Array_sort compareFn l ≡ₚ l.
Proof.
  induction l as [|x l IH]; simpl; [reflexivity|].
  by rewrite sort_insert_perm, IH.
Qed.

Lemma sort_insert_sorted x l :
  StronglySorted (cmp_le compareFn) l ->
  StronglySorted (cmp_le compareFn) (sort_insert compareFn x l).
Proof.
  induction l as [|y l IH]; simpl; intros Hs.
  - repeat constructor.
  - apply StronglySorted_inv in Hs as [Hs Hall].
    destruct (Z.leb_spec (compareFn x y) 0) as [Hle|Hgt].
    + constructor; [by constructor|].
      constructor; [exact Hle|].
      eapply Forall_impl; [exact Hall|]. intros z Hz. by eapply cmp_trans.
    + constructor; [by apply IH|].
      rewrite sort_insert_perm. constructor; [|exact Hall].
      destruct (cmp_total x y) as [Hxy|Hyx]; [unfold cmp_le in Hxy; lia|done].
Qed.

Lemma Array_sort_sorted l :
  StronglySorted (cmp_le compareFn) (Array_sort compareFn l).
Proof.
  induction l as [|x l IH]; simpl; [constructor|by apply sort_insert_sorted].
Qed.

End SortFacts.

(** ** The handler registry *)

Section RegistryFacts.
Import Registry.

Lemma sorted_descending hs : descending (Array_sort byPriorityDesc hs).
Proof.
  eapply StronglySorted_impl;
    [|apply (Array_sort_sorted byPriorityDesc); unfold cmp_le, byPriorityDesc;
      intros; lia].
  unfold cmp_le, byPriorityDesc. intros; lia.
Qed.

Lemma remove_first_descending handler hs hs' :
  remove_first handler hs = Some hs' -> descending hs -> descending hs'.
Proof.
  unfold descending. revert hs'.
  induction hs as [|h hs IH]; simpl; intros hs' Hr Hs; [discriminate|].
  apply StronglySorted_inv in Hs as [Hs Hall].
  destruct (Pos.eqb (h_ref h) (h_ref handler)); [by injection Hr as <-|].
  destruct (remove_first handler hs) as [rest|] eqn:Hrest; [|discriminate].
  injection Hr as <-. constructor; [by apply IH|].
  clear IH Hs. revert rest Hrest.
  induction hs as [|x hs IHh]; simpl; intros rest Hrest; [discriminate|].
  apply Forall_cons in Hall as [Hx Hall].
  destruct (Pos.eqb (h_ref x) (h_ref handler)); [by injection Hrest as <-|].
  destruct (remove_first handler hs) as [rest'|]; [|discriminate].
  injection Hrest as <-. constructor; [exact Hx|by apply IHh].
Qed.

Lemma perform_sorted r c : registry_sorted r -> registry_sorted (perform r c).
Proof.
  unfold registry_sorted. intros [Hg Ht].
  destruct c as [t h|h|mw|t h]; simpl.
  - unfold register, bind, gets, when_, modify, ret.
    destruct (handlers r !! t) as [hs|] eqn:Hhs; simpl; rewrite ?Hhs; simpl.
    + split; [exact Hg|]. intros t' hs'. rewrite lookup_insert.
      case_decide; [intros [= <-]; apply sorted_descending|apply Ht].
    + rewrite lookup_insert_eq. simpl.
      split; [exact Hg|]. intros t' hs'. rewrite lookup_insert.
      case_decide; [intros [= <-]; repeat constructor|].
      rewrite lookup_insert_ne by done. apply Ht.
  - split; [apply sorted_descending|exact Ht].
  - split; [exact Hg|exact Ht].
  - unfold unregister, bind, gets, modify, ret.
    destruct (handlers r !! t) as [hs|] eqn:Hhs; simpl; [|by split].
    destruct (remove_first h hs) as [hs'|] eqn:Hr; simpl; [|by split].
    split; [exact Hg|]. intros t' hs''. rewrite lookup_insert.
    case_decide; [|apply Ht].
    intros [= <-]. eapply remove_first_descending; eauto.
Qed.

Lemma setup_sorted calls : registry_sorted (setup calls).
Proof.
  unfold setup.
  assert (Hgen : forall r, registry_sorted r ->
                           registry_sorted (fold_left perform calls r)).
  { induction calls as [|c calls IH]; intros r Hr; simpl; [exact Hr|].
    apply IH. by apply perform_sorted. }
  apply Hgen. split; [constructor|]. intros t hs. simpl. by rewrite lookup_empty.
Qed.


Lemma call_next_index next calls index :
  (forall i, (i <= (next i).2)%nat) ->
  (index <= (call_next next calls index).2)%nat.
Proof.
  intros Hnext. revert index. induction calls as [|calls IH]; intros index;
    simpl; [lia|].
  pose proof (Hnext index). destruct (next index) as [t1 i1]. simpl in *.
  pose proof (IH i1). destruct (call_next next calls i1) as [t2 i2].
  simpl in *. lia.
Qed.

Lemma next_index r message fuel : forall index,
  (index <= (next r message fuel index).2)%nat.
Proof.
  induction fuel as [|fuel IH]; intros index; cbn [next]; [simpl; lia|].
  destruct (middleware r !! index) as [mw|]; [|simpl; lia].
  pose proof (call_next_index (next r message fuel) (mw message) (S index) IH).
  lia.
Qed.

Lemma call_next_ext f g calls : forall index,
  (forall j, (index <= j)%nat -> f j = g j) ->
  (forall j, (j <= (f j).2)%nat) ->
  call_next f calls index = call_next g calls index.
Proof.
  induction calls as [|calls IH]; intros index Hext Hmono; simpl;
    [reflexivity|].
  rewrite <- (Hext index) by lia. pose proof (Hmono index).
  destruct (f index) as [t1 i1]. simpl in *.
  rewrite (IH i1); [reflexivity| |exact Hmono].
  intros j Hj. apply Hext. lia.
Qed.

(** Fuel beyond the middleware still to run changes nothing. *)
Lemma next_fuel r message fuel : forall fuel' index,
  (length (middleware r) - index <= fuel)%nat ->
  (length (middleware r) - index <= fuel')%nat ->
  next r message fuel index = next r message fuel' index.
Proof.
  induction fuel as [|fuel IH]; intros fuel' index Hf Hf'.
  - assert (Hnone : middleware r !! index = None)
      by (apply lookup_ge_None; lia).
    destruct fuel' as [|fuel']; [reflexivity|].
    cbn [next]. by rewrite Hnone.
  - destruct (middleware r !! index) as [mw|] eqn:Hmw.
    + pose proof (lookup_lt_Some _ _ _ Hmw) as Hlt.
      destruct fuel' as [|fuel']; [lia|].
      cbn [next]. rewrite Hmw.
      apply call_next_ext; [|apply next_index].
      intros j Hj. apply IH; lia.
    + destruct fuel' as [|fuel']; cbn [next]; by rewrite Hmw.
Qed.

(** [handle] does not depend on the fuel it starts [next] with. *)
Lemma handle_fuel r message extra :
  handle r message
  = (next r message (length (middleware r) + extra) 0).1.
Proof. unfold handle. f_equal. apply next_fuel; lia. Qed.




End RegistryFacts.





(** ** The performance monitor *)

Section MonitorFacts.
Import Monitor.

Lemma ceil_div_100 a : 100 * (ceil_div a 100 - 1) < a <= 100 * ceil_div a 100.
Proof.
  unfold ceil_div.
  pose proof (Z_div_mod_eq_full (- a) 100).
  pose proof (Z.mod_pos_bound (- a) 100 ltac:(lia)). lia.
Qed.

Lemma ascending_sorted arr :
  StronglySorted Z.le (Array_sort (fun a b => a - b) arr).
Proof.
  eapply StronglySorted_impl;
    [|apply (Array_sort_sorted (fun a b => a - b)); unfold cmp_le; intros; lia].
  unfold cmp_le. intros; lia.
Qed.

(** The percentile of a non-empty window is the entry of the sorted window
    at the nearest-rank index. *)
Lemma getPercentile_rank arr percentile :
  arr <> [] -> 0 < percentile <= 100 ->
  exists i,
    nearest_rank_index (Z.of_nat (length arr)) percentile i /\
    0 <= i < Z.of_nat (length arr) /\
    Array_sort (fun a b => a - b) arr !! Z.to_nat i
    = Some (getPercentile arr percentile).
Proof.
  intros Hne Hp. unfold getPercentile, nearest_rank_index.
  set (sorted := Array_sort (fun a b => a - b) arr).
  assert (Hlen : length sorted = length arr)
    by (unfold sorted; by rewrite Array_sort_perm).
  rewrite Hlen.
  set (n := Z.of_nat (length arr)).
  assert (Hn : 0 < n) by (destruct arr; [done|unfold n; simpl; lia]).
  pose proof (ceil_div_100 (n * percentile)) as Hc.
  set (c := ceil_div (n * percentile) 100) in *.
  exists (c - 1). replace (c - 1 + 1) with c by lia.
  split; [exact Hc|].
  assert (Hrange : 0 <= c - 1 < n) by nia.
  split; [exact Hrange|].
  unfold at_or_zero. destruct (Z.ltb_spec (c - 1) 0); [lia|].
  destruct (sorted !! Z.to_nat (c - 1)) as [x|] eqn:Hx; [reflexivity|].
  apply lookup_ge_None in Hx. lia.
Qed.

End MonitorFacts.

(** C8.  For every latency key whose window is not empty, [getMetrics]
    reports as p95 and as p99 the entry at index
    [ceil(n * percentile / 100) - 1] of the window of [n] samples sorted in
    ascending order; for the window [10, 20, 30, 40, 50] the index of p95
    is 4 and p95 is 50. *)
Theorem percentile_nearest_rank
    (s : Monitor.UniversalPerformanceMonitor) (key : string) (samples : list Z) :
  Monitor.metrics s !! key = Some samples ->
  samples <> [] ->
  exists stats sorted i95 i99,
    Monitor.latency (Monitor.getMetrics s) !! key = Some stats /\
    sorted ≡ₚ samples /\
    StronglySorted Z.le sorted /\
    nearest_rank_index (Z.of_nat (length samples)) 95 i95 /\
    nearest_rank_index (Z.of_nat (length samples)) 99 i99 /\
    0 <= i95 < Z.of_nat (length samples) /\
    0 <= i99 < Z.of_nat (length samples) /\
    sorted !! Z.to_nat i95 = Some (Monitor.p95 stats) /\
    sorted !! Z.to_nat i99 = Some (Monitor.p99 stats) /\
    nearest_rank_index 5 95 4 /\
    Monitor.getPercentile [10; 20; 30; 40; 50] 95 = 50.
Proof.
  intros Hkey Hne.
  destruct (getPercentile_rank samples 95 Hne ltac:(lia)) as (i95 & H95 & R95 & L95).
  destruct (getPercentile_rank samples 99 Hne ltac:(lia)) as (i99 & H99 & R99 & L99).
  destruct samples as [|x rest] eqn:Hs; [done|]. rewrite <- Hs in *.
  eexists _, (Array_sort (fun a b => a - b) samples), i95, i99.
  split.
  { unfold Monitor.getMetrics. simpl. rewrite lookup_omap, Hkey. simpl.
    rewrite Hs at 1. simpl. rewrite <- Hs. reflexivity. }
  simpl.
  split; [apply Array_sort_perm|].
  split; [apply ascending_sorted|].
  repeat (split; [assumption|]).
  split; [unfold nearest_rank_index; lia|reflexivity].
Qed.

Lemma percentile_nearest_rank_witness :
  Monitor.metrics (monitor_after "publish" [30; 10; 50; 20; 40]) !! "redis.publish"
  = Some [30; 10; 50; 20; 40] /\
  exists stats,
    Monitor.latency
      (Monitor.getMetrics (monitor_after "publish" [30; 10; 50; 20; 40]))
      !! "redis.publish" = Some stats /\
    Monitor.p95 stats = 50 /\ Monitor.p99 stats = 50.
Proof.
  assert (Hkey :
    Monitor.metrics (monitor_after "publish" [30; 10; 50; 20; 40])
      !! "redis.publish" = Some [30; 10; 50; 20; 40])
    by (vm_compute; reflexivity).
  split; [exact Hkey|].
  destruct (percentile_nearest_rank _ _ _ Hkey ltac:(discriminate))
    as (stats & sorted & i95 & i99 & Hstats & _).
  exists stats. split; [exact Hstats|].
  assert (Hrun :
    Monitor.latency
      (Monitor.getMetrics (monitor_after "publish" [30; 10; 50; 20; 40]))
      !! "redis.publish"
    = Some {| Monitor.avg := Qmake 150 5; Monitor.min := 10; Monitor.max := 50;
              Monitor.count := 5; Monitor.p95 := 50; Monitor.p99 := 50 |})
    by (vm_compute; reflexivity).
  rewrite Hrun in Hstats. injection Hstats as <-. split; reflexivity.
Defined.

(** ** The drain loop *)

Section ManagerFacts.
Import Manager.
Context {W : Type} {adapter : IBrokerAdapter W} {host : Host W}.

Lemma recordLatency_run operation latency broker s :
  exists s', Monitor.recordLatency operation latency broker s = (Normal tt, s').
Proof. unfold Monitor.recordLatency, bind, gets, modify. eauto. Qed.

Lemma calls_for_app topic calls calls' :
  calls_for topic (calls ++ calls')
  = calls_for topic calls ++ calls_for topic calls'.
Proof. apply List.filter_app. Qed.

Lemma calls_for_other topic calls :
  Forall (fun call => call.1.1 <> topic) calls -> calls_for topic calls = [].
Proof.
  induction 1 as [|call calls Hne _ IH]; [reflexivity|].
  unfold calls_for. simpl.
  destruct (String.eqb_spec call.1.1 topic); [done|exact IH].
Qed.

Lemma live_set_queue t topic q s :
  live t (Queue.set_queue topic q s) = if decide (topic = t) then q else live t s.
Proof. unfold live, Queue.set_queue. simpl. rewrite lookup_insert. by case_decide. Qed.

Lemma live_set_dlq t topic d s : live t (Queue.set_dlq topic d s) = live t s.
Proof. reflexivity. Qed.

Lemma calls_for_self topic msg ok :
  calls_for topic [(topic, msg, ok)] = [(topic, msg, ok)].
Proof. unfold calls_for. simpl. by rewrite String.eqb_refl. Qed.

Lemma processTopic_run topic (m : UniversalMessageManager W) :
  exists m' calls errors,
    processTopic topic m = (Normal tt, m') /\
    subscriptionManager m' = subscriptionManager m /\
    isProcessing m' = isProcessing m /\
    publishCalls m' = publishCalls m ++ calls /\
    console m' = console m ++ errors /\
    Forall (fun call => call.1.1 = topic) calls /\
    (forall t, t <> topic ->
       Queue.queues (messageQueue m') !! t = Queue.queues (messageQueue m) !! t /\
       Queue.dlq (messageQueue m') !! t = Queue.dlq (messageQueue m) !! t) /\
    (queue_bounded (messageQueue m) ->
       queue_bounded (messageQueue m') /\
       Queue.dlq (messageQueue m') = Queue.dlq (messageQueue m) /\
       drained_one topic (live topic (messageQueue m))
         (live topic (messageQueue m')) calls errors).
Proof.
  unfold processTopic, bind at 1. unfold zoom at 1. rewrite dequeue_run.
  destruct (Queue.queues (messageQueue m) !! topic) as [[|msg rest]|] eqn:Hq.
  - exists (set_messageQueue (messageQueue m) m), [], []. simpl.
    rewrite !app_nil_r. repeat (split; [done|]).
    unfold live. by rewrite Hq.
  - simpl. unfold bind at 1. unfold now at 1, gets at 1. simpl.
    unfold try_catch, bind at 1, adapterPublish. simpl.
    destruct (adapter_publish topic msg (world m)) as [[[]|e] w] eqn:Hpub.
    + unfold bind, now, gets, zoom. simpl.
      eexists _, [(topic, msg, true)], []. split; [reflexivity|]. simpl.
      rewrite app_nil_r. repeat (split; [done|]).
      split; [by repeat constructor|].
      split; [intros t Hne; by rewrite lookup_insert_ne|].
      intros Hb. split.
      { intros t. rewrite live_set_queue. specialize (Hb t).
        case_decide; [|exact Hb]. subst t. unfold live in Hb.
        rewrite Hq in Hb. simpl in Hb. lia. }
      split; [reflexivity|].
      unfold live at 1. rewrite Hq. simpl. exists true.
      split; [apply calls_for_self|].
      rewrite live_set_queue. by case_decide.
    + unfold bind, console_error, modify, zoom. simpl.
      destruct (Z.lt_ge_cases (Z.of_nat (length rest)) Queue.maxQueueSize)
        as [Hlt|Hge].
      * rewrite enqueue_room
          by (rewrite live_set_queue; case_decide; [exact Hlt|done]).
        rewrite live_set_queue. case_decide; [|done].
        eexists _, [(topic, msg, false)], [_]. split; [reflexivity|]. simpl.
        repeat (split; [done|]).
        split; [by repeat constructor|].
        split; [intros t Hne; by rewrite !lookup_insert_ne|].
        intros Hb. split.
        { intros t. rewrite !live_set_queue. specialize (Hb t).
          case_decide; [|exact Hb]. subst t. unfold live in Hb.
          rewrite Hq in Hb. simpl in Hb. rewrite inserted_length. lia. }
        split; [reflexivity|].
        unfold live at 1. rewrite Hq. simpl. exists false.
        split; [apply calls_for_self|].
        rewrite !live_set_queue. case_decide; [|done].
        split; [reflexivity|]. split.
        { rewrite inserted_perm. apply elem_of_app. right. by apply list_elem_of_singleton. }
        exists e. by apply list_elem_of_singleton.
      * pose proof maxQueueSize_pos.
        rewrite (enqueue_full topic msg _ rest)
          by first [by simpl; rewrite lookup_insert_eq | lia].
        eexists _, [(topic, msg, false)], [_]. split; [reflexivity|]. simpl.
        repeat (split; [done|]).
        split; [by repeat constructor|].
        split; [intros t Hne; by rewrite !lookup_insert_ne|].
        intros Hb. specialize (Hb topic). unfold live in Hb.
        rewrite Hq in Hb. simpl in Hb. lia.
  - exists (set_messageQueue (messageQueue m) m), [], []. simpl.
    rewrite !app_nil_r. repeat (split; [done|]).
    unfold live. by rewrite Hq.
Qed.

Lemma drained_one_more topic before after calls errors calls' errors' :
  drained_one topic before after calls errors ->
  calls_for topic calls' = [] ->
  drained_one topic before after (calls ++ calls') (errors ++ errors').
Proof.
  unfold drained_one. intros Hd Hnone. rewrite calls_for_app, Hnone, app_nil_r.
  destruct before as [|msg rest]; [exact Hd|].
  destruct Hd as (ok & Hcalls & Hok). exists ok. split; [exact Hcalls|].
  destruct ok; [exact Hok|]. destruct Hok as (Hafter & Hin & e & He).
  repeat (split; [done|]). exists e. apply elem_of_app. by left.
Qed.

Lemma drained_one_later topic before after calls errors calls' errors' :
  drained_one topic before after calls errors ->
  calls_for topic calls' = [] ->
  drained_one topic before after (calls' ++ calls) (errors' ++ errors).
Proof.
  unfold drained_one. intros Hd Hnone. rewrite calls_for_app, Hnone. simpl.
  destruct before as [|msg rest]; [exact Hd|].
  destruct Hd as (ok & Hcalls & Hok). exists ok. split; [exact Hcalls|].
  destruct ok; [exact Hok|]. destruct Hok as (Hafter & Hin & e & He).
  repeat (split; [done|]). exists e. apply elem_of_app. by right.
Qed.

Lemma live_same t q q' :
  Queue.queues q' !! t = Queue.queues q !! t -> live t q' = live t q.
Proof. unfold live. by intros ->. Qed.

(** The loop of [processQueues] over a list of topics. *)
Lemma drain_loop topics : forall m : UniversalMessageManager W,
  exists m' calls errors,
    for_of topics processTopic m = (Normal tt, m') /\
    subscriptionManager m' = subscriptionManager m /\
    isProcessing m' = isProcessing m /\
    publishCalls m' = publishCalls m ++ calls /\
    console m' = console m ++ errors /\
    Forall (fun call => call.1.1 ∈ topics) calls /\
    (forall t, t ∉ topics ->
       Queue.queues (messageQueue m') !! t = Queue.queues (messageQueue m) !! t /\
       Queue.dlq (messageQueue m') !! t = Queue.dlq (messageQueue m) !! t) /\
    (NoDup topics -> queue_bounded (messageQueue m) ->
       queue_bounded (messageQueue m') /\
       Queue.dlq (messageQueue m') = Queue.dlq (messageQueue m) /\
       forall t, t ∈ topics ->
         drained_one t (live t (messageQueue m)) (live t (messageQueue m'))
           calls errors).
Proof.
  induction topics as [|t0 topics IH]; intros m.
  - exists m, [], []. simpl. rewrite !app_nil_r. repeat (split; [done|]).
    intros t Ht. by apply elem_of_nil in Ht.
  - simpl. unfold bind.
    destruct (processTopic_run t0 m)
      as (m1 & c1 & e1 & Hrun1 & Hsm1 & Hip1 & Hpc1 & Hco1 & Hc1 & Hfr1 & Hwf1).
    rewrite Hrun1.
    destruct (IH m1)
      as (m' & c2 & e2 & Hrun2 & Hsm2 & Hip2 & Hpc2 & Hco2 & Hc2 & Hfr2 & Hwf2).
    exists m', (c1 ++ c2), (e1 ++ e2). split; [exact Hrun2|].
    split; [congruence|]. split; [congruence|].
    split; [by rewrite Hpc2, Hpc1, app_assoc|].
    split; [by rewrite Hco2, Hco1, app_assoc|].
    split.
    { apply Forall_app. split.
      - eapply Forall_impl; [exact Hc1|]. intros call ->. apply elem_of_cons. by left.
      - eapply Forall_impl; [exact Hc2|]. intros call Hin. apply elem_of_cons. by right. }
    split.
    { intros t Hnot. apply not_elem_of_cons in Hnot as [Hne Hnot].
      destruct (Hfr1 t Hne) as [<- <-]. by apply Hfr2. }
    intros Hnd Hb. apply NoDup_cons in Hnd as [Hfresh Hnd].
    destruct (Hwf1 Hb) as (Hb1 & Hdlq1 & Hd1).
    destruct (Hwf2 Hnd Hb1) as (Hb2 & Hdlq2 & Hd2).
    split; [exact Hb2|]. split; [congruence|].
    intros t Ht. apply elem_of_cons in Ht as [->|Ht].
    + rewrite (live_same t0 (messageQueue m1) (messageQueue m'))
        by (by apply Hfr2).
      apply drained_one_more; [exact Hd1|].
      apply calls_for_other. eapply Forall_impl; [exact Hc2|].
      intros call Hin Heq. simpl in Hin. rewrite Heq in Hin. contradiction.
    + assert (Hne : t <> t0) by (intros ->; contradiction).
      rewrite <- (live_same t (messageQueue m) (messageQueue m1))
        by (by apply Hfr1).
      apply drained_one_later; [by apply Hd2|].
      apply calls_for_other. eapply Forall_impl; [exact Hc1|].
      intros call Heq Heq'. simpl in Heq. rewrite Heq in Heq'. by apply Hne.
Qed.

(** One tick of the drain loop, started when no tick is running. *)
Lemma tick_run (m : UniversalMessageManager W) :
  isProcessing m = false ->
  let topics := Subscriptions.getAllTopics (subscriptionManager m) in
  exists m' calls errors,
    tick m = (Normal tt, m') /\
    subscriptionManager m' = subscriptionManager m /\
    isProcessing m' = false /\
    publishCalls m' = publishCalls m ++ calls /\
    console m' = console m ++ errors /\
    Forall (fun call => call.1.1 ∈ topics) calls /\
    (forall t, t ∉ topics ->
       Queue.queues (messageQueue m') !! t = Queue.queues (messageQueue m) !! t /\
       Queue.dlq (messageQueue m') !! t = Queue.dlq (messageQueue m) !! t) /\
    (NoDup topics -> queue_bounded (messageQueue m) ->
       queue_bounded (messageQueue m') /\
       Queue.dlq (messageQueue m') = Queue.dlq (messageQueue m) /\
       forall t, t ∈ topics ->
         drained_one t (live t (messageQueue m)) (live t (messageQueue m'))
           calls errors).
Proof.
  intros Hidle topics. unfold tick, bind at 1, gets at 1. rewrite Hidle.
  unfold bind at 1, modify at 1, try_finally, processQueues, bind at 1, gets at 1.
  destruct (drain_loop topics (set_isProcessing true m))
    as (m' & calls & errors & Hrun & Hsm & Hip & Hpc & Hco & Hc & Hfr & Hwf).
  simpl in *. fold topics. rewrite Hrun. simpl.
  exists (set_isProcessing false m'), calls, errors. simpl. done.
Qed.

Lemma ticks_run n : forall m : UniversalMessageManager W,
  isProcessing m = false ->
  let topics := Subscriptions.getAllTopics (subscriptionManager m) in
  exists m' calls,
    ticks n m = (Normal tt, m') /\
    subscriptionManager m' = subscriptionManager m /\
    isProcessing m' = false /\
    publishCalls m' = publishCalls m ++ calls /\
    Forall (fun call => call.1.1 ∈ topics) calls /\
    (forall t, t ∉ topics ->
       Queue.queues (messageQueue m') !! t = Queue.queues (messageQueue m) !! t /\
       Queue.dlq (messageQueue m') !! t = Queue.dlq (messageQueue m) !! t).
Proof.
  induction n as [|n IH]; intros m Hidle topics.
  - exists m, []. simpl. rewrite app_nil_r. done.
  - simpl. unfold bind.
    destruct (tick_run m Hidle)
      as (m1 & c1 & e1 & Hrun1 & Hsm1 & Hip1 & Hpc1 & _ & Hc1 & Hfr1 & _).
    rewrite Hrun1.
    destruct (IH m1 Hip1) as (m' & c2 & Hrun2 & Hsm2 & Hip2 & Hpc2 & Hc2 & Hfr2).
    rewrite Hsm1 in Hc2, Hfr2. fold topics in Hc1, Hfr1, Hc2, Hfr2.
    exists m', (c1 ++ c2). split; [exact Hrun2|].
    split; [congruence|]. split; [exact Hip2|].
    split; [by rewrite Hpc2, Hpc1, app_assoc|].
    split; [by apply Forall_app|].
    intros t Hnot. destruct (Hfr2 t Hnot) as [-> ->]. by apply Hfr1.
Qed.

Lemma publish_run topic payload options (m : UniversalMessageManager W) :
  exists m' message,
    publish topic payload options m = (Normal tt, m') /\
    Queue.enqueue topic message (messageQueue m) = (Normal tt, messageQueue m') /\
    msg_payload message
    = match options with
      | Some o => default payload (o_payload o)
      | None => payload
      end /\
    subscriptionManager m' = subscriptionManager m /\
    isProcessing m' = isProcessing m /\
    publishCalls m' = publishCalls m.
Proof.
  unfold publish, buildMessage, fresh_id, bind, now, gets, zoom, ret. simpl.
  destruct (Math_random_tag (world m)) as [tag w]. simpl.
  match goal with
  | |- context [Queue.enqueue topic ?msg (messageQueue m)] =>
      destruct (enqueue_total topic msg (messageQueue m)) as [q Hq];
      rewrite Hq; eexists _, msg
  end.
  split; [reflexivity|]. simpl. split; [exact Hq|].
  split; [by destruct options|done].
Qed.

End ManagerFacts.

(** ** Invariants of the manager *)

Section MapFacts.
Context {V : Type}.

Lemma keys_set k (v : V) m :
  JSMap.keys (JSMap.set k v m)
  = if JSMap.has k m then JSMap.keys m else JSMap.keys m ++ [k].
Proof.
  unfold JSMap.has. induction m as [|[k' v'] m IH]; simpl; [reflexivity|].
  destruct (String.eqb_spec k k') as [->|Hne]; simpl; [reflexivity|].
  rewrite IH. by destruct (JSMap.get k m).
Qed.

Lemma has_keys k (m : list (string * V)) :
  JSMap.has k m = false -> k ∉ JSMap.keys m.
Proof.
  unfold JSMap.has. induction m as [|[k' v'] m IH]; simpl.
  - intros _. apply not_elem_of_nil.
  - destruct (String.eqb_spec k k') as [->|Hne]; [discriminate|].
    intros Hm. apply not_elem_of_cons. split; [exact Hne|by apply IH].
Qed.

Lemma keys_set_NoDup k (v : V) m :
  NoDup (JSMap.keys m) -> NoDup (JSMap.keys (JSMap.set k v m)).
Proof.
  intros Hnd. rewrite keys_set. destruct (JSMap.has k m) eqn:Hhas; [exact Hnd|].
  apply NoDup_app. split; [exact Hnd|]. split; [|apply NoDup_singleton].
  intros x Hx Hk. apply list_elem_of_singleton in Hk as ->.
  by apply (has_keys _ _ Hhas).
Qed.

Lemma keys_delete_sub k (m : list (string * V)) :
  JSMap.keys (JSMap.delete k m) `sublist_of` JSMap.keys m.
Proof.
  induction m as [|[k' v'] m IH]; simpl; [constructor|].
  destruct (String.eqb k k'); simpl; [by constructor|by constructor].
Qed.

Lemma keys_delete_NoDup k (m : list (string * V)) :
  NoDup (JSMap.keys m) -> NoDup (JSMap.keys (JSMap.delete k m)).
Proof. intros Hnd. eapply sublist_NoDup; [exact Hnd|apply keys_delete_sub]. Qed.

End MapFacts.

Section InvariantFacts.
Import Manager.
Context {W : Type} {adapter : IBrokerAdapter W} {host : Host W}.


Lemma unsubscribe_topics topic id s r s' :
  Subscriptions.unsubscribe topic id s = (r, s') ->
  NoDup (Subscriptions.getAllTopics s) -> NoDup (Subscriptions.getAllTopics s').
Proof.
  unfold Subscriptions.unsubscribe, Subscriptions.getAllTopics,
    bind, gets, when_, modify, ret.
  intros Hrun Hnd.
  destruct (JSMap.get topic (Subscriptions.subscriptions s)) as [subs|];
    simpl in Hrun; [|by injection Hrun as _ <-].
  destruct (length (JSMap.delete id subs) =? 0)%nat; simpl in Hrun;
    injection Hrun as _ <-; simpl;
    auto using keys_set_NoDup, keys_delete_NoDup.
Qed.





Lemma unsubscribe_wf topic id (m : UniversalMessageManager W) r m' :
  Manager.unsubscribe topic id m = (r, m') -> manager_wf m -> manager_wf m'.
Proof.
  intros Hrun (Hidle & Hnd & Hb). revert Hrun.
  unfold Manager.unsubscribe, bind, gets, zoom, ret, when_. simpl.
  destruct (Subscriptions.unsubscribe topic id (subscriptionManager m))
    as [r1 s1] eqn:Hsub.
  apply unsubscribe_topics in Hsub; [|exact Hnd].
  destruct r1 as [[|]|e]; simpl.
  - destruct (adapter_unsubscribe id (world m)) as [[x|e] w1]; simpl;
      intros [= _ <-]; by repeat split.
  - intros [= _ <-]. by repeat split.
  - intros [= _ <-]. by repeat split.
Qed.

Lemma tick_wf (m : UniversalMessageManager W) r m' :
  tick m = (r, m') -> manager_wf m -> manager_wf m'.
Proof.
  intros Hrun (Hidle & Hnd & Hb).
  destruct (tick_run m Hidle)
    as (m1 & calls & errors & Hrun1 & Hsm & Hip & _ & _ & _ & _ & Hwf).
  rewrite Hrun1 in Hrun. injection Hrun as _ <-.
  destruct (Hwf Hnd Hb) as (Hb1 & _).
  split; [exact Hip|]. split; [by rewrite Hsm|exact Hb1].
Qed.

End InvariantFacts.

(** ** Ticks of the drain loop *)


Section DrainTicks.
Import Manager.
Context {W : Type} {adapter : IBrokerAdapter W} {host : Host W}.


(** C9.  The ticks of the drain loop visit only the topics of the
    subscription manager: for a topic without subscription they leave the
    live queue and the dead-letter store as they are and make no call of
    [adapter.publish], although [publish] does enqueue to such a topic; so
    a message published to it stays in its queue through any number of
    ticks. *)
Theorem drain_skips_unsubscribed_topics
    (m : UniversalMessageManager W) (topic : string) :
  isProcessing m = false ->
  topic ∉ Subscriptions.getAllTopics (subscriptionManager m) ->
  (forall n, exists m' calls,
      ticks n m = (Normal tt, m') /\
      publishCalls m' = publishCalls m ++ calls /\
      calls_for topic calls = [] /\
      Queue.queues (messageQueue m') !! topic
      = Queue.queues (messageQueue m) !! topic /\
      Queue.dlq (messageQueue m') !! topic
      = Queue.dlq (messageQueue m) !! topic) /\
  (forall payload options, exists m1 message,
      publish topic payload options m = (Normal tt, m1) /\
      Queue.enqueue topic message (messageQueue m) = (Normal tt, messageQueue m1) /\
      (Queue.getQueueSize topic (messageQueue m) < Queue.maxQueueSize ->
       message ∈ live topic (messageQueue m1)) /\
      forall n, exists m2 calls,
        ticks n m1 = (Normal tt, m2) /\
        publishCalls m2 = publishCalls m ++ calls /\
        calls_for topic calls = [] /\
        live topic (messageQueue m2) = live topic (messageQueue m1) /\
        Queue.dlq (messageQueue m2) !! topic
        = Queue.dlq (messageQueue m1) !! topic).
Proof.
  intros Hidle Hnot.
  assert (Hticks : forall (m0 : UniversalMessageManager W) n,
    isProcessing m0 = false ->
    subscriptionManager m0 = subscriptionManager m ->
    exists m' calls,
      ticks n m0 = (Normal tt, m') /\
      publishCalls m' = publishCalls m0 ++ calls /\
      calls_for topic calls = [] /\
      Queue.queues (messageQueue m') !! topic
      = Queue.queues (messageQueue m0) !! topic /\
      Queue.dlq (messageQueue m') !! topic
      = Queue.dlq (messageQueue m0) !! topic).
  { intros m0 n Hidle0 Hsm0.
    destruct (ticks_run n m0 Hidle0)
      as (m' & calls & Hrun & _ & _ & Hpc & Hc & Hfr).
    rewrite Hsm0 in Hc, Hfr. exists m', calls.
    split; [exact Hrun|]. split; [exact Hpc|]. split; [|by apply Hfr].
    apply calls_for_other. eapply Forall_impl; [exact Hc|].
    intros call Hin Heq. simpl in Hin. rewrite Heq in Hin. contradiction. }
  split; [intros n; by apply Hticks|].
  intros payload options.
  destruct (publish_run topic payload options m)
    as (m1 & message & Hrun & Henq & _ & Hsm & Hip & Hpc).
  exists m1, message. split; [exact Hrun|]. split; [exact Henq|]. split.
  - intros Hroom.
    assert (Hlt : Z.of_nat (length (live topic (messageQueue m)))
                  < Queue.maxQueueSize).
    { unfold Queue.getQueueSize in Hroom. unfold live.
      pose proof maxQueueSize_pos.
      destruct (Queue.queues (messageQueue m) !! topic); simpl; lia. }
    rewrite enqueue_room in Henq by exact Hlt. injection Henq as <-.
    rewrite live_set_queue. case_decide; [|done].
    rewrite inserted_perm. apply elem_of_app. right.
    by apply list_elem_of_singleton.
  - intros n.
    destruct (Hticks m1 n ltac:(congruence) Hsm)
      as (m2 & calls & Hrun2 & Hpc2 & Hc2 & Hq2 & Hd2).
    exists m2, calls. split; [exact Hrun2|]. split; [congruence|].
    split; [exact Hc2|]. split; [by apply live_same|exact Hd2].
Qed.

End DrainTicks.



Lemma drain_skips_unsubscribed_topics_witness :
  Manager.isProcessing sample_manager = false /\
  ("nobody" ∉ Subscriptions.getAllTopics
                (Manager.subscriptionManager sample_manager)) /\
  length (live "nobody" (Manager.messageQueue sample_manager)) = 1%nat /\
  exists m',
    Manager.ticks 3 sample_manager = (Normal tt, m') /\
    Queue.queues (Manager.messageQueue m') !! "nobody"
    = Queue.queues (Manager.messageQueue sample_manager) !! "nobody".
Proof.
  assert (Hidle : Manager.isProcessing sample_manager = false)
    by (vm_compute; reflexivity).
  assert (Hnot :
    "nobody" ∉ Subscriptions.getAllTopics
                 (Manager.subscriptionManager sample_manager)).
  { assert (Htopics :
      Subscriptions.getAllTopics (Manager.subscriptionManager sample_manager)
      = ["down"; "up"]) by (vm_compute; reflexivity).
    rewrite Htopics. intros Hin.
    repeat (apply elem_of_cons in Hin as [Heq|Hin]; [discriminate Heq|]).
    by apply elem_of_nil in Hin. }
  split; [exact Hidle|]. split; [exact Hnot|].
  split; [vm_compute; reflexivity|].
  destruct (drain_skips_unsubscribed_topics sample_manager "nobody" Hidle Hnot)
    as (Hticks & _).
  destruct (Hticks 3%nat) as (m' & calls & Hrun & _ & _ & Hq & _).
  exists m'. split; [exact Hrun|exact Hq].
Defined.

(** ** The retry handler *)

Section RetryFacts.
Import Retry.

(** A failed attempt below the limit: the counter goes up by one and a timer
    is set. *)
Lemma handle_with_failure process message h e h1 :
  retries (msg_id message) h < maxRetries h ->
  process message h = (Throw e, h1) ->
  exists h',
    handle_with process message h = (Normal tt, h') /\
    retryCount h'
    = <[msg_id message := retries (msg_id message) h + 1]> (retryCount h1) /\
    timeouts h'
    = timeouts h1
      ++ [retry_timer (msg_id message)
            (retryDelay h1 * 2 ^ retries (msg_id message) h)] /\
    maxRetries h' = maxRetries h1 /\
    retryDelay h' = retryDelay h1.
Proof.
  intros Hlt Hfail. unfold handle_with, retries in *.
  unfold bind at 1, gets at 1. unfold bind at 1, gets at 1.
  destruct (Z.geb_spec (default 0 (retryCount h !! msg_id message)) (maxRetries h));
    [lia|].
  unfold try_catch, bind at 1. rewrite Hfail.
  eexists. split; [reflexivity|]. simpl. done.
Qed.

(** A call at the limit: the entry is removed, an error line is written and
    the call returns; the message is not processed and no timer is set. *)
Lemma handle_with_exhausted process message h :
  maxRetries h <= retries (msg_id message) h ->
  exists line,
    handle_with process message h
    = (Normal tt,
       {| maxRetries := maxRetries h; retryDelay := retryDelay h;
          retryCount := delete (msg_id message) (retryCount h);
          console := console h ++ [ConsoleError line];
          timeouts := timeouts h |}).
Proof.
  intros Hge. unfold handle_with, retries in *.
  unfold bind at 1, gets at 1. unfold bind at 1, gets at 1.
  destruct (Z.geb_spec (default 0 (retryCount h !! msg_id message)) (maxRetries h));
    [|lia].
  eexists. reflexivity.
Qed.

(** The handler as shipped fails every attempt. *)
Lemma handle_below message h :
  retries (msg_id message) h < maxRetries h ->
  exists h',
    handle message h = (Normal tt, h') /\
    retryCount h'
    = <[msg_id message := retries (msg_id message) h + 1]> (retryCount h) /\
    timeouts h'
    = timeouts h
      ++ [retry_timer (msg_id message)
            (retryDelay h * 2 ^ retries (msg_id message) h)] /\
    maxRetries h' = maxRetries h /\
    retryDelay h' = retryDelay h.
Proof.
  intros Hlt.
  by apply (handle_with_failure processMessage message h
              "Message processing not implemented[object Object]" h).
Qed.

Lemma backoff_succ d n :
  backoff d (S n) = backoff d n ++ [d * 2 ^ Z.of_nat n].
Proof. unfold backoff. by rewrite seq_S, map_app. Qed.

(** The first [n] attempts on a fresh handler, [n] within the limit. *)
Lemma handle_attempts message max delay (n : nat) :
  Z.of_nat n <= default 3 max ->
  exists h,
    for_of (replicate n message) handle (create max delay) = (Normal tt, h) /\
    retries (msg_id message) h = Z.of_nat n /\
    retryCount h
    = (if n is O then ∅ else {[ msg_id message := Z.of_nat n ]}) /\
    map Retry.delay (timeouts h) = backoff (default 1000 delay) n /\
    maxRetries h = default 3 max /\
    retryDelay h = default 1000 delay.
Proof.
  induction n as [|n IH]; intros Hn.
  - exists (create max delay). by repeat split.
  - destruct IH as (h & Hrun & Hr & Hcount & Htimers & Hmax & Hdelay); [lia|].
    rewrite <- Nat.add_1_r, replicate_add, for_of_app, Hrun. simpl.
    unfold bind.
    destruct (handle_below message h) as (h' & Hrun' & Hc' & Ht' & Hm' & Hd');
      [lia|].
    rewrite Hrun'. exists h'. split; [reflexivity|].
    assert (Hcount' : retryCount h' = {[ msg_id message := Z.of_nat (n + 1) ]}).
    { rewrite Hc', Hr, Hcount. replace (Z.of_nat n + 1) with (Z.of_nat (n + 1)) by lia.
      destruct n; [reflexivity|]. apply insert_singleton_eq. }
    split; [unfold retries; rewrite Hcount', lookup_singleton_eq; reflexivity|].
    split; [by rewrite Nat.add_1_r in *|].
    split.
    { rewrite Ht', map_app, Htimers, Nat.add_1_r, backoff_succ. simpl.
      by rewrite Hr, Hdelay. }
    split; congruence.
Qed.

End RetryFacts.

(** C4.  On a handling failure while the retry counter of the message id is
    strictly below [maxRetries], the counter goes up by one and a timer is
    set with the delay [retryDelay * 2^attempt], the attempts counted from
    zero.  The call made once the counter has reached [maxRetries] removes
    the counter entry, writes an error line to the console and returns
    normally: the message is not processed, no timer is set and nothing is
    thrown to the caller. *)
Theorem retry_backoff_then_drop :
  (forall process message h e h1,
      retries (msg_id message) h < Retry.maxRetries h ->
      process message h = (Throw e, h1) ->
      exists h',
        Retry.handle_with process message h = (Normal tt, h') /\
        retries (msg_id message) h' = retries (msg_id message) h + 1 /\
        Retry.timeouts h'
        = Retry.timeouts h1
          ++ [retry_timer (msg_id message)
                (Retry.retryDelay h1 * 2 ^ retries (msg_id message) h)]) /\
  (forall process message h,
      Retry.maxRetries h <= retries (msg_id message) h ->
      exists h' line,
        Retry.handle_with process message h = (Normal tt, h') /\
        Retry.retryCount h' !! msg_id message = None /\
        Retry.timeouts h' = Retry.timeouts h /\
        Retry.console h' = Retry.console h ++ [Retry.ConsoleError line]) /\
  (forall message max delay (n : nat),
      Z.of_nat n <= default 3 max ->
      exists h,
        for_of (replicate n message) Retry.handle (Retry.create max delay)
        = (Normal tt, h) /\
        retries (msg_id message) h = Z.of_nat n /\
        map Retry.delay (Retry.timeouts h) = backoff (default 1000 delay) n) /\
  (forall message h, exists h', Retry.handle message h = (Normal tt, h')).
Proof.
  split.
  { intros process message h e h1 Hlt Hfail.
    destruct (handle_with_failure process message h e h1 Hlt Hfail)
      as (h' & Hrun & Hcount & Htimers & _).
    exists h'. split; [exact Hrun|]. split; [|exact Htimers].
    unfold retries at 1. by rewrite Hcount, lookup_insert_eq. }
  split.
  { intros process message h Hge.
    destruct (handle_with_exhausted process message h Hge) as (line & Hrun).
    eexists _, line. split; [exact Hrun|]. simpl.
    split; [apply lookup_delete_eq|done]. }
  split.
  { intros message max delay n Hn.
    destruct (handle_attempts message max delay n Hn)
      as (h & Hrun & Hr & _ & Htimers & _).
    by exists h. }
  intros message h.
  destruct (Z.lt_ge_cases (retries (msg_id message) h) (Retry.maxRetries h))
    as [Hlt|Hge].
  - destruct (handle_below message h Hlt) as (h' & Hrun & _). by exists h'.
  - destruct (handle_with_exhausted Retry.processMessage message h Hge)
      as (line & Hrun).
    eexists. exact Hrun.
Qed.

Lemma retry_backoff_then_drop_witness :
  Retry.maxRetries exhausted_handler <= retries "m7" exhausted_handler /\
  (2 <= default 3 (Some 2)) /\
  (exists h' line,
      Retry.handle retry_message exhausted_handler = (Normal tt, h') /\
      Retry.retryCount h' !! "m7" = None /\
      Retry.timeouts h' = Retry.timeouts exhausted_handler /\
      Retry.console h'
      = Retry.console exhausted_handler ++ [Retry.ConsoleError line]) /\
  (exists h,
      for_of (replicate 2 retry_message) Retry.handle
        (Retry.create (Some 2) (Some 500)) = (Normal tt, h) /\
      retries "m7" h = 2 /\
      map Retry.delay (Retry.timeouts h) = [500; 1000]).
Proof.
  assert (Hge : Retry.maxRetries exhausted_handler
                <= retries (msg_id retry_message) exhausted_handler)
    by (vm_compute; discriminate).
  assert (Hn : Z.of_nat 2 <= default 3 (Some 2)) by (vm_compute; discriminate).
  destruct retry_backoff_then_drop as (_ & Hdrop & Hrun & _).
  split; [exact Hge|]. split; [exact Hn|]. split.
  - exact (Hdrop Retry.processMessage retry_message exhausted_handler Hge).
  - exact (Hrun retry_message (Some 2) (Some 500) 2%nat Hn).
Defined.

(** C4, counterexample: after three failed attempts with the default
    [maxRetries] = 3 the counter has reached the limit, and the next call
    completes normally, with the counter entry removed; no error reaches
    the caller. *)
Lemma retry_exhaustion_is_not_thrown :
  retries "m7" exhausted_handler = Retry.maxRetries exhausted_handler /\
  (Retry.handle retry_message exhausted_handler).1 = Normal tt /\
  Retry.retryCount (Retry.handle retry_message exhausted_handler).2 = ∅ /\
  ~ (exists e h',
        Retry.handle retry_message exhausted_handler = (Throw e, h')).
Proof.
  assert (Hrun : (Retry.handle retry_message exhausted_handler).1 = Normal tt)
    by (vm_compute; reflexivity).
  split; [vm_compute; reflexivity|]. split; [exact Hrun|].
  split; [vm_compute; reflexivity|].
  intros (e & h' & Hthrown). rewrite Hthrown in Hrun. discriminate.
Qed.

(** ** The circuit breaker *)

Section BreakerFacts.
Import Breaker.
Context {W A : Type}.





End BreakerFacts.


(** ** Runs on sample data *)

Example dequeue_sample_order :
  exists s s',
    for_of
      [message_with "a" (Some "low"); message_with "b" (Some "critical");
       message_with "c" None; message_with "d" (Some "high");
       message_with "e" (Some "normal"); message_with "f" (Some "critical")]
      (Queue.enqueue "orders") Queue.empty = (Normal tt, s) /\
    dequeueMany "orders" 7 s
    = (Normal
         [Some (message_with "b" (Some "critical"));
          Some (message_with "f" (Some "critical"));
          Some (message_with "d" (Some "high"));
          Some (message_with "c" None);
          Some (message_with "e" (Some "normal"));
          Some (message_with "a" (Some "low"));
          None], s').
Proof. eexists _, _. split; vm_compute; reflexivity. Qed.

Example tick_sample_run :
  exists m',
    Manager.tick sample_manager = (Normal tt, m') /\
    map (fun call => (call.1.1, call.2)) (Manager.publishCalls m')
    = [("down", false); ("up", true)] /\
    length (live "down" (Manager.messageQueue m')) = 1%nat /\
    live "up" (Manager.messageQueue m') = [] /\
    length (live "nobody" (Manager.messageQueue m')) = 1%nat /\
    Manager.console m'
    = [Manager.ConsoleError "Failed to publish message for topic down:"
         "ECONNREFUSED"].
Proof. eexists. split; [vm_compute; reflexivity|]. by vm_compute. Qed.

Example wildcard_sample_runs :
  Subscriptions.matchesFilters
    (message_of (Some {[ "region" := JSString "eu-west" ]})
                (Some {[ "region" := JSString "us-east" ]}))
    (Some [("region", JSString "us-*")]) = Some false /\
  Subscriptions.matchesFilters
    (message_of None (Some {[ "source" := JSString "my-mobile-app" ]}))
    (Some [("source", JSString "mobile-*")]) = Some true /\
  Subscriptions.matchesFilters
    (message_of (Some {[ "userId" := JSNumber 123 ]}) None)
    (Some [("userId", JSString "12*")]) = Some true /\
  Subscriptions.matchesFilters
    (message_of (Some {[ "userId" := JSNumber 123 ]}) None)
    (Some [("userId", JSString "(*")]) = None.
Proof. repeat split; vm_compute; reflexivity. Qed.

Example percentile_sample_runs :
  Monitor.getPercentile [50; 10; 40; 20; 30] 99 = 50 /\
  Monitor.getPercentile [7] 95 = 7 /\
  Monitor.getPercentile [] 95 = 0 /\
  Monitor.getPercentile (map Z.of_nat (seq 1 100)) 95 = 95.
Proof. repeat split; vm_compute; reflexivity. Qed.

(** * Further properties *)

(** ** The queue under any run of calls *)

Section QueueRuns.
Import Queue.

Lemma enqueue_effect topic m s :
  (Z.of_nat (length (live topic s)) < maxQueueSize /\
   enqueue topic m s
   = (Normal tt, set_queue topic (inserted (live topic s) m) s))
  \/ (maxQueueSize <= Z.of_nat (length (live topic s)) /\
      enqueue topic m s
      = (Normal tt, set_dlq topic (getDLQMessages topic s ++ [m]) s)).
Proof.
  destruct (Z.lt_ge_cases (Z.of_nat (length (live topic s))) maxQueueSize)
    as [Hlt|Hge].
  - left. split; [exact Hlt|]. by apply enqueue_room.
  - right. split; [exact Hge|]. pose proof maxQueueSize_pos. unfold live in Hge.
    destruct (queues s !! topic) as [q|] eqn:Hq; simpl in Hge; [|lia].
    by eapply enqueue_full.
Qed.

Lemma clear_run topic s :
  clear topic s
  = (Normal tt,
     match topic with
     | Some t =>
         if String.eqb t "" then empty
         else {| queues := delete t (queues s); dlq := delete t (dlq s) |}
     | None => empty
     end).
Proof. destruct topic as [t|]; [|reflexivity]. simpl. by destruct (String.eqb t ""). Qed.

Lemma live_empty t : live t empty = [].
Proof. unfold live. simpl. by rewrite lookup_empty. Qed.

Lemma live_delete t t' s :
  live t {| queues := delete t' (queues s); dlq := delete t' (dlq s) |}
  = if decide (t' = t) then [] else live t s.
Proof. unfold live. simpl. rewrite lookup_delete. by case_decide. Qed.

(** Every live queue is in priority order and within capacity. *)
Lemma queue_call_ordered c s :
  (forall t, by_priority (live t s) /\
             Z.of_nat (length (live t s)) <= maxQueueSize) ->
  forall t, by_priority (live t (queue_call c s).2) /\
            Z.of_nat (length (live t (queue_call c s).2)) <= maxQueueSize.
Proof.
  intros Hinv t. pose proof maxQueueSize_pos as Hpos.
  destruct c as [topic m|topic|topic]; simpl.
  - unfold bind.
    destruct (enqueue_effect topic m s) as [[Hlt ->]|[Hge ->]]; simpl.
    + rewrite live_set_queue. case_decide; [|apply Hinv].
      split; [apply inserted_sorted, Hinv|]. rewrite inserted_length. lia.
    + rewrite live_set_dlq. apply Hinv.
  - rewrite dequeue_run.
    destruct (queues s !! topic) as [[|m rest]|] eqn:Hq; simpl; try apply Hinv.
    rewrite live_set_queue. case_decide; [|apply Hinv]. subst t.
    destruct (Hinv topic) as [Hs Hb]. unfold live in Hs, Hb.
    rewrite Hq in Hs, Hb. simpl in Hs, Hb.
    apply StronglySorted_inv in Hs as [Hs _]. split; [exact Hs|lia].
  - unfold bind. rewrite clear_run. simpl.
    destruct topic as [t'|]; [destruct (String.eqb t' "")|];
      rewrite ?live_empty, ?live_delete; try (split; [constructor|simpl; lia]).
    case_decide; [split; [constructor|simpl; lia]|apply Hinv].
Qed.

Lemma queue_calls_step c calls s :
  (queue_calls (c :: calls) s).1 = (queue_calls calls (queue_call c s).2).1.
Proof.
  simpl. destruct (queue_call c s) as [r s']. simpl.
  by destruct (queue_calls calls s') as [s'' out].
Qed.

Lemma queue_calls_ordered calls : forall s,
  (forall t, by_priority (live t s) /\
             Z.of_nat (length (live t s)) <= maxQueueSize) ->
  forall t, by_priority (live t (queue_calls calls s).1) /\
            Z.of_nat (length (live t (queue_calls calls s).1)) <= maxQueueSize.
Proof.
  induction calls as [|c calls IH]; intros s Hinv; [exact Hinv|].
  intros t. rewrite queue_calls_step. apply IH. by apply queue_call_ordered.
Qed.

End QueueRuns.

(** X1.  Whatever calls of [enqueue], [dequeue] and [clear] were made on a
    queue object, on any topics and in any order, every live queue is in
    non-increasing priority and within [maxQueueSize]; so [dequeue] returns
    a message whose priority no queued message of the topic exceeds, or
    [null] when the topic has nothing queued. *)
Theorem dequeue_returns_highest_priority
    (calls : list QueueCall) (topic : string) :
  by_priority (live topic (queue_calls calls Queue.empty).1) /\
  Z.of_nat (length (live topic (queue_calls calls Queue.empty).1))
  <= Queue.maxQueueSize /\
  match live topic (queue_calls calls Queue.empty).1 with
  | [] =>
      Queue.dequeue topic (queue_calls calls Queue.empty).1
      = (Normal None, (queue_calls calls Queue.empty).1)
  | m :: rest =>
      Queue.dequeue topic (queue_calls calls Queue.empty).1
      = (Normal (Some m),
         Queue.set_queue topic rest (queue_calls calls Queue.empty).1) /\
      Forall (fun x => prio x <= prio m) rest
  end.
Proof.
  set (s := (queue_calls calls Queue.empty).1).
  assert (Hinv : by_priority (live topic s) /\
                 Z.of_nat (length (live topic s)) <= Queue.maxQueueSize).
  { apply queue_calls_ordered. intros t. rewrite live_empty.
    split; [constructor|]. pose proof maxQueueSize_pos. simpl. lia. }
  destruct Hinv as [Hs Hb]. split; [exact Hs|]. split; [exact Hb|].
  rewrite dequeue_run. unfold live in *.
  destruct (Queue.queues s !! topic) as [[|m rest]|]; simpl in *;
    [reflexivity| |reflexivity].
  split; [reflexivity|]. by apply StronglySorted_inv in Hs as [_ Hall].
Qed.

Section QueueConservation.
Import Queue.

Lemma dlq_set_queue t topic q s :
  getDLQMessages t (set_queue topic q s) = getDLQMessages t s.
Proof. reflexivity. Qed.

Lemma dlq_set_dlq t topic d s :
  getDLQMessages t (set_dlq topic d s)
  = if decide (topic = t) then d else getDLQMessages t s.
Proof.
  unfold getDLQMessages, set_dlq. simpl. rewrite lookup_insert. by case_decide.
Qed.

Lemma queue_calls_cons c calls s :
  queue_calls (c :: calls) s
  = ((queue_calls calls (queue_call c s).2).1,
     match c, (queue_call c s).1 with
     | QDequeue topic, Normal (Some message) => [(topic, message)]
     | _, _ => []
     end ++ (queue_calls calls (queue_call c s).2).2).
Proof.
  destruct c as [t m|t|t]; cbn [queue_calls];
    match goal with
    | |- context [queue_call ?c s] => destruct (queue_call c s) as [r s']
    end; cbn [fst snd];
    destruct (queue_calls calls s') as [s'' out]; cbn [fst snd];
    try reflexivity.
  by destruct r as [[m|]|].
Qed.

Lemma dequeued_from_app topic out out' :
  dequeued_from topic (out ++ out')
  = dequeued_from topic out ++ dequeued_from topic out'.
Proof. unfold dequeued_from. by rewrite List.filter_app, map_app. Qed.

(** One call other than [clear] moves a message between the places of a
    topic, or adds one. *)
Lemma queue_call_conserves c s topic :
  is_clear c = false ->
  live topic (queue_call c s).2
  ++ getDLQMessages topic (queue_call c s).2
  ++ dequeued_from topic
       match c, (queue_call c s).1 with
       | QDequeue t, Normal (Some message) => [(t, message)]
       | _, _ => []
       end
  ≡ₚ live topic s ++ getDLQMessages topic s ++ enqueued_to topic [c] /\
  exists extra,
    getDLQMessages topic (queue_call c s).2 = getDLQMessages topic s ++ extra.
Proof.
  intros Hc. destruct c as [t m|t|t]; [| |discriminate]; simpl.
  - unfold bind.
    destruct (enqueue_effect t m s) as [[Hlt ->]|[Hge ->]]; simpl.
    + rewrite live_set_queue, dlq_set_queue. unfold dequeued_from. simpl.
      destruct (String.eqb_spec t topic) as [->|Hne].
      * rewrite decide_True by done. rewrite inserted_perm.
        split; [solve_Permutation|]. exists []. by rewrite app_nil_r.
      * rewrite decide_False by done.
        split; [reflexivity|]. exists []. by rewrite app_nil_r.
    + rewrite live_set_dlq, dlq_set_dlq. unfold dequeued_from. simpl.
      destruct (String.eqb_spec t topic) as [->|Hne].
      * rewrite decide_True by done.
        split; [solve_Permutation|]. by exists [m].
      * rewrite decide_False by done.
        split; [reflexivity|]. exists []. by rewrite app_nil_r.
  - rewrite dequeue_run.
    destruct (queues s !! t) as [[|m rest]|] eqn:Hq; simpl;
      try (split; [unfold dequeued_from; simpl; reflexivity
                  |exists []; by rewrite app_nil_r]).
    rewrite live_set_queue, dlq_set_queue. unfold dequeued_from. simpl.
    destruct (String.eqb_spec t topic) as [->|Hne].
    + rewrite decide_True by done. unfold live. rewrite Hq. simpl.
      split; [solve_Permutation|]. exists []. by rewrite app_nil_r.
    + rewrite decide_False by done. simpl.
      split; [reflexivity|]. exists []. by rewrite app_nil_r.
Qed.

Lemma enqueued_to_cons topic c calls :
  enqueued_to topic (c :: calls)
  = enqueued_to topic [c] ++ enqueued_to topic calls.
Proof.
  destruct c as [t m| |]; simpl; try reflexivity.
  by destruct (String.eqb t topic).
Qed.

End QueueConservation.

(** X2.  In a run of [enqueue] and [dequeue] calls no message is lost or
    duplicated: for every topic, the messages in the live queue, in the
    dead-letter store and returned by [dequeue] are together exactly the
    messages that were there before and the ones handed to [enqueue]; and
    the dead-letter store only grows at its tail - nothing in it is ever
    returned by [dequeue] or moved back to the live queue. *)
Theorem queue_conserves_messages
    (calls : list QueueCall) (s : Queue.UniversalMessageQueue) (topic : string) :
  forallb (fun c => negb (is_clear c)) calls = true ->
  live topic (queue_calls calls s).1
  ++ Queue.getDLQMessages topic (queue_calls calls s).1
  ++ dequeued_from topic (queue_calls calls s).2
  ≡ₚ live topic s ++ Queue.getDLQMessages topic s ++ enqueued_to topic calls /\
  exists extra,
    Queue.getDLQMessages topic (queue_calls calls s).1
    = Queue.getDLQMessages topic s ++ extra.
Proof.
  revert s. induction calls as [|c calls IH]; intros s Hnc.
  - simpl. unfold dequeued_from. simpl. rewrite !app_nil_r.
    split; [reflexivity|]. exists []. by rewrite app_nil_r.
  - simpl in Hnc. apply andb_prop in Hnc as [Hc Hnc].
    apply negb_true_iff in Hc.
    destruct (IH (queue_call c s).2 Hnc) as (Hperm & extra & Hdlq).
    destruct (queue_call_conserves c s topic Hc) as (Hperm1 & extra1 & Hdlq1).
    rewrite queue_calls_cons. cbn [fst snd].
    rewrite dequeued_from_app, enqueued_to_cons. split.
    + match goal with
      | |- ?l' ++ ?d' ++ ?qc ++ ?qr ≡ₚ _ =>
          trans (qc ++ (l' ++ d' ++ qr)); [solve_Permutation|]
      end.
      rewrite Hperm.
      match goal with
      | |- ?qc ++ ?l1 ++ ?d1 ++ ?er ≡ₚ _ =>
          trans ((l1 ++ d1 ++ qc) ++ er); [solve_Permutation|]
      end.
      rewrite Hperm1. solve_Permutation.
    + exists (extra1 ++ extra). by rewrite Hdlq, Hdlq1, app_assoc.
Qed.

Lemma queue_conserves_messages_witness :
  forallb (fun c => negb (is_clear c))
    [QEnqueue "orders" (message_with "a" None); QDequeue "orders";
     QEnqueue "orders" (message_with "b" (Some "high"))] = true /\
  live "orders"
    (queue_calls
       [QEnqueue "orders" (message_with "a" None); QDequeue "orders";
        QEnqueue "orders" (message_with "b" (Some "high"))] Queue.empty).1
  ++ Queue.getDLQMessages "orders"
       (queue_calls
          [QEnqueue "orders" (message_with "a" None); QDequeue "orders";
           QEnqueue "orders" (message_with "b" (Some "high"))] Queue.empty).1
  ++ dequeued_from "orders"
       (queue_calls
          [QEnqueue "orders" (message_with "a" None); QDequeue "orders";
           QEnqueue "orders" (message_with "b" (Some "high"))] Queue.empty).2
  ≡ₚ [message_with "a" None; message_with "b" (Some "high")].
Proof.
  split; [reflexivity|].
  apply (queue_conserves_messages
           [QEnqueue "orders" (message_with "a" None); QDequeue "orders";
            QEnqueue "orders" (message_with "b" (Some "high"))]
           Queue.empty "orders" eq_refl).
Defined.

(** X3.  [clear(topic)] drops the live queue and the dead-letter store of
    that topic and of no other; [clear()] and also [clear("")], whose
    argument is falsy, drop those of every topic.  After either, the topic
    has size 0, [dequeue] returns [null], and [enqueue] queues again. *)
Theorem clear_drops_queue_and_dlq
    (s : Queue.UniversalMessageQueue) (topic : string) (m : IMessage) :
  topic <> "" ->
  (Queue.clear None s).2 = Queue.empty /\
  (Queue.clear (Some "") s).2 = Queue.empty /\
  (forall t,
      Queue.queues (Queue.clear (Some topic) s).2 !! t
      = (if decide (topic = t) then None else Queue.queues s !! t) /\
      Queue.dlq (Queue.clear (Some topic) s).2 !! t
      = (if decide (topic = t) then None else Queue.dlq s !! t)) /\
  Queue.getQueueSize topic (Queue.clear (Some topic) s).2 = 0 /\
  Queue.getDLQMessages topic (Queue.clear (Some topic) s).2 = [] /\
  (Queue.dequeue topic (Queue.clear (Some topic) s).2).1 = Normal None /\
  live topic (Queue.enqueue topic m (Queue.clear (Some topic) s).2).2 = [m].
Proof.
  intros Hne. rewrite !clear_run. cbn [snd].
  split; [reflexivity|]. split; [reflexivity|].
  destruct (String.eqb_spec topic "") as [->|_]; [done|].
  split; [intros t; simpl; by rewrite !lookup_delete|].
  unfold Queue.getQueueSize, Queue.getDLQMessages. simpl.
  rewrite !lookup_delete_eq. split; [reflexivity|]. split; [reflexivity|].
  split; [rewrite dequeue_run; simpl; by rewrite lookup_delete_eq|].
  rewrite enqueue_room.
  - simpl. rewrite live_set_queue, decide_True by done.
    unfold live. simpl. by rewrite lookup_delete_eq.
  - unfold live. simpl. rewrite lookup_delete_eq. simpl.
    pose proof maxQueueSize_pos. lia.
Qed.

Lemma clear_drops_queue_and_dlq_witness :
  "orders" <> "" /\
  Queue.getQueueSize "orders" (Queue.clear (Some "orders") full_orders).2 = 0 /\
  live "orders"
    (Queue.enqueue "orders" (message_with "n" None)
       (Queue.clear (Some "orders") full_orders).2).2
  = [message_with "n" None].
Proof.
  assert (Hne : "orders" <> "") by discriminate.
  split; [exact Hne|].
  destruct (clear_drops_queue_and_dlq full_orders "orders"
              (message_with "n" None) Hne)
    as (_ & _ & _ & Hsize & _ & _ & Hlive).
  split; [exact Hsize|exact Hlive].
Defined.

(** ** Insertion-ordered maps *)

Lemma has_true {V} k (m : list (string * V)) : JSMap.has k m = true <-> k ∈ JSMap.keys m.
Proof.
  unfold JSMap.has. induction m as [|[k' v'] m IH]; simpl.
  - split; [discriminate|]. intros Hin. by apply elem_of_nil in Hin.
  - destruct (String.eqb_spec k k') as [->|Hne].
    + split; [intros _; apply elem_of_cons; by left|done].
    + rewrite IH, elem_of_cons. split; [by right|]. by intros [Heq|Hin].
Qed.

Lemma has_false {V} k (m : list (string * V)) : JSMap.has k m = false <-> k ∉ JSMap.keys m.
Proof. rewrite <- has_true. by destruct (JSMap.has k m). Qed.

Lemma has_get {V} k (m : list (string * V)) : JSMap.has k m = false <-> JSMap.get k m = None.
Proof. unfold JSMap.has. by destruct (JSMap.get k m). Qed.

Lemma has_by_keys {V V'} k (m : list (string * V)) (m' : list (string * V')) :
  JSMap.keys m = JSMap.keys m' -> JSMap.has k m = JSMap.has k m'.
Proof.
  intros Hk. destruct (JSMap.has k m') eqn:H'.
  - apply (proj2 (has_true k m)). rewrite Hk. by apply (proj1 (has_true k m')).
  - apply (proj2 (has_false k m)). rewrite Hk.
    by apply (proj1 (has_false k m')).
Qed.

Lemma get_set {V} k (v : V) (m : list (string * V)) k' :
  JSMap.get k' (JSMap.set k v m)
  = if String.eqb k' k then Some v else JSMap.get k' m.
Proof.
  induction m as [|[k0 v0] m IH]; simpl.
  - by destruct (String.eqb k' k).
  - destruct (String.eqb_spec k k0) as [->|Hne]; simpl.
    + by destruct (String.eqb k' k0).
    + destruct (String.eqb_spec k' k0) as [Heq|Hne'].
      * subst k'. destruct (String.eqb_spec k0 k); [congruence|reflexivity].
      * exact IH.
Qed.

Lemma set_absent {V} k (v : V) (m : list (string * V)) :
  JSMap.has k m = false -> JSMap.set k v m = m ++ [(k, v)].
Proof.
  unfold JSMap.has. induction m as [|[k0 v0] m IH]; simpl; [reflexivity|].
  destruct (String.eqb k k0); [discriminate|]. intros Hm. by rewrite IH.
Qed.

Lemma set_same {V} k (v : V) (m : list (string * V)) : JSMap.get k m = Some v -> JSMap.set k v m = m.
Proof.
  induction m as [|[k0 v0] m IH]; simpl; [discriminate|].
  destruct (String.eqb_spec k k0) as [->|Hne].
  - by intros [= ->].
  - intros Hm. by rewrite IH.
Qed.

Lemma set_set {V} k (v v' : V) (m : list (string * V)) :
  JSMap.set k v (JSMap.set k v' m) = JSMap.set k v m.
Proof.
  induction m as [|[k0 v0] m IH]; simpl.
  - by rewrite String.eqb_refl.
  - destruct (String.eqb_spec k k0) as [->|Hne]; simpl.
    + by rewrite String.eqb_refl.
    + destruct (String.eqb_spec k k0); [done|]. by rewrite IH.
Qed.

Lemma delete_absent {V} k (m : list (string * V)) : JSMap.has k m = false -> JSMap.delete k m = m.
Proof.
  unfold JSMap.has. induction m as [|[k0 v0] m IH]; simpl; [reflexivity|].
  destruct (String.eqb k k0); [discriminate|]. intros Hm. by rewrite IH.
Qed.

Lemma delete_last {V} k (v : V) (m : list (string * V)) :
  JSMap.has k m = false -> JSMap.delete k (m ++ [(k, v)]) = m.
Proof.
  unfold JSMap.has. induction m as [|[k0 v0] m IH]; simpl.
  - by rewrite String.eqb_refl.
  - destruct (String.eqb k k0); [discriminate|]. intros Hm. by rewrite IH.
Qed.

Lemma get_delete {V} k (m : list (string * V)) k' :
  NoDup (JSMap.keys m) ->
  JSMap.get k' (JSMap.delete k m)
  = if String.eqb k' k then None else JSMap.get k' m.
Proof.
  induction m as [|[k0 v0] m IH]; simpl; intros Hnd.
  - by destruct (String.eqb k' k).
  - apply NoDup_cons in Hnd as [Hfresh Hnd].
    destruct (String.eqb_spec k k0) as [->|Hne]; simpl.
    + destruct (String.eqb_spec k' k0) as [Heq|Hne']; [|reflexivity].
      subst k'. by apply (proj1 (has_get k0 m)), (proj2 (has_false k0 m)).
    + destruct (String.eqb_spec k' k0) as [Heq|Hne'].
      * subst k'. destruct (String.eqb_spec k0 k); [congruence|reflexivity].
      * by apply IH.
Qed.

Lemma keys_set_by_keys {V V'} k (v : V) (v' : V')
    (m : list (string * V)) (m' : list (string * V')) :
  JSMap.keys m = JSMap.keys m' ->
  JSMap.keys (JSMap.set k v m) = JSMap.keys (JSMap.set k v' m').
Proof.
  intros Hk. rewrite !keys_set, (has_by_keys k m m' Hk), Hk. reflexivity.
Qed.

Lemma keys_delete_by_keys {V V'} k
    (m : list (string * V)) (m' : list (string * V')) :
  JSMap.keys m = JSMap.keys m' ->
  JSMap.keys (JSMap.delete k m) = JSMap.keys (JSMap.delete k m').
Proof.
  revert m'. induction m as [|[k0 v0] m IH]; intros [|[k1 v1] m'] Hk;
    simpl in *; try discriminate; [reflexivity|].
  injection Hk as -> Hk. destruct (String.eqb k k1); simpl; [exact Hk|].
  f_equal. by apply IH.
Qed.

Lemma delete_nonempty {V} k (m : list (string * V)) :
  NoDup (JSMap.keys m) -> JSMap.delete k m <> [] ->
  JSMap.delete k m <> [] /\ NoDup (JSMap.keys (JSMap.delete k m)).
Proof. intros Hnd Hne. split; [exact Hne|by apply keys_delete_NoDup]. Qed.


Lemma Set_add_keys {V} id (v : V) (m : list (string * V)) :
  Subscriptions.Set_add id (JSMap.keys m) = JSMap.keys (JSMap.set id v m).
Proof.
  unfold Subscriptions.Set_add. rewrite keys_set.
  assert (Hex : existsb (String.eqb id) (JSMap.keys m) = JSMap.has id m).
  { unfold JSMap.has. induction m as [|[k0 v0] m IH]; simpl; [reflexivity|].
    destruct (String.eqb id k0); [reflexivity|exact IH]. }
  rewrite Hex. reflexivity.
Qed.

Lemma Set_delete_keys {V} id (m : list (string * V)) :
  NoDup (JSMap.keys m) ->
  Subscriptions.Set_delete id (JSMap.keys m) = JSMap.keys (JSMap.delete id m).
Proof.
  unfold Subscriptions.Set_delete.
  induction m as [|[k0 v0] m IH]; simpl; intros Hnd; [reflexivity|].
  apply NoDup_cons in Hnd as [Hfresh Hnd].
  destruct (String.eqb_spec id k0) as [->|Hne]; simpl.
  - clear IH. induction m as [|[k1 v1] m IH]; simpl; [reflexivity|].
    apply not_elem_of_cons in Hfresh as [Hne Hfresh].
    apply NoDup_cons in Hnd as [_ Hnd]. simpl in *.
    destruct (String.eqb_spec k0 k1); [congruence|]. simpl. f_equal.
    by apply IH.
  - f_equal. by apply IH.
Qed.

(** ** The subscription manager under any run of calls *)

Section SubscriptionRuns.
Import Subscriptions.

Lemma delete_set {V} k (v : V) (m : list (string * V)) :
  JSMap.delete k (JSMap.set k v m) = JSMap.delete k m.
Proof.
  induction m as [|[k0 v0] m IH]; simpl.
  - by rewrite String.eqb_refl.
  - destruct (String.eqb_spec k k0) as [->|Hne]; simpl.
    + by rewrite String.eqb_refl.
    + destruct (String.eqb_spec k k0); [done|]. by rewrite IH.
Qed.

Lemma set_nonempty {V} k (v : V) (m : list (string * V)) : JSMap.set k v m <> [].
Proof. destruct m as [|[k0 v0] m]; simpl; [done|]. by destruct (String.eqb k k0). Qed.

Lemma keys_get {V} k (m : list (string * V)) :
  k ∈ JSMap.keys m <-> exists v, JSMap.get k m = Some v.
Proof.
  rewrite <- has_true. unfold JSMap.has.
  destruct (JSMap.get k m) as [v|]; split; try done; eauto.
  by intros [? ?].
Qed.

Lemma consistent_ids s topic :
  subscriptions_consistent s ->
  default [] (JSMap.get topic (topicSubscribers s))
  = JSMap.keys (default [] (JSMap.get topic (subscriptions s))).
Proof.
  intros (Hnd & Hkeys & Hall).
  destruct (JSMap.get topic (subscriptions s)) as [subs|] eqn:Hsubs.
  - destruct (Hall topic subs Hsubs) as (_ & _ & ->). reflexivity.
  - apply has_get in Hsubs. rewrite (has_by_keys topic _ (topicSubscribers s)) in Hsubs
      by done.
    apply has_get in Hsubs. by rewrite Hsubs.
Qed.

(** [subscribe] on a consistent manager. *)
Lemma subscribe_run subscription s :
  subscriptions_consistent s ->
  subscribe subscription s
  = (Normal (sub_id subscription),
     {| subscriptions :=
          JSMap.set (sub_topic subscription)
            (JSMap.set (sub_id subscription) subscription
               (default [] (JSMap.get (sub_topic subscription) (subscriptions s))))
            (subscriptions s);
        topicSubscribers :=
          JSMap.set (sub_topic subscription)
            (JSMap.keys
               (JSMap.set (sub_id subscription) subscription
                  (default []
                     (JSMap.get (sub_topic subscription) (subscriptions s)))))
            (topicSubscribers s) |}).
Proof.
  intros Hc. pose proof (consistent_ids s (sub_topic subscription) Hc) as Hids.
  destruct Hc as (Hnd & Hkeys & Hall).
  unfold subscribe, bind, gets, when_, modify, ret, throw.
  destruct (JSMap.has (sub_topic subscription) (subscriptions s)) eqn:Hhas; simpl.
  - unfold JSMap.has in Hhas.
    destruct (JSMap.get (sub_topic subscription) (subscriptions s))
      as [subs|] eqn:Hsubs; [|discriminate].
    destruct (Hall _ subs Hsubs) as (_ & _ & Hget). rewrite Hget. simpl.
    by rewrite Set_add_keys with (v := subscription).
  - pose proof Hhas as Hnone. apply has_get in Hnone. rewrite Hnone in *.
    repeat (rewrite get_set, String.eqb_refl; simpl).
    rewrite !set_set. reflexivity.
Qed.

(** [unsubscribe] on a consistent manager. *)
Lemma unsubscribe_run topic id s :
  subscriptions_consistent s ->
  unsubscribe topic id s
  = match JSMap.get topic (subscriptions s) with
    | None => (Normal false, s)
    | Some subs =>
        (Normal (JSMap.has id subs),
         if Nat.eqb (length (JSMap.delete id subs)) 0 then
           {| subscriptions := JSMap.delete topic (subscriptions s);
              topicSubscribers := JSMap.delete topic (topicSubscribers s) |}
         else
           {| subscriptions :=
                JSMap.set topic (JSMap.delete id subs) (subscriptions s);
              topicSubscribers :=
                JSMap.set topic (JSMap.keys (JSMap.delete id subs))
                  (topicSubscribers s) |})
    end.
Proof.
  intros (Hnd & Hkeys & Hall).
  unfold unsubscribe, bind, gets, when_, modify, ret.
  destruct (JSMap.get topic (subscriptions s)) as [subs|] eqn:Hsubs;
    [|reflexivity].
  destruct (Hall topic subs Hsubs) as (_ & Hnds & Hget). simpl.
  rewrite Hget, (Set_delete_keys id subs Hnds).
  destruct (Nat.eqb (length (JSMap.delete id subs)) 0); simpl; [|reflexivity].
  by rewrite !delete_set.
Qed.

Lemma subscribe_consistent subscription s :
  subscriptions_consistent s ->
  subscriptions_consistent (subscribe subscription s).2.
Proof.
  intros Hc. rewrite (subscribe_run subscription s Hc). cbn [snd].
  destruct Hc as (Hnd & Hkeys & Hall).
  split; [by apply keys_set_NoDup|].
  split; [by apply keys_set_by_keys|].
  cbn [subscriptions topicSubscribers]. intros topic subs.
  rewrite !get_set.
  destruct (String.eqb topic (sub_topic subscription)); [|apply Hall].
  intros [= <-]. split; [apply set_nonempty|]. split; [|reflexivity].
  apply keys_set_NoDup.
  destruct (JSMap.get (sub_topic subscription) (subscriptions s))
    as [subs|] eqn:Hsubs; simpl; [|constructor].
  by destruct (Hall _ subs Hsubs) as (_ & Hnds & _).
Qed.

Lemma unsubscribe_consistent topic id s :
  subscriptions_consistent s ->
  subscriptions_consistent (unsubscribe topic id s).2.
Proof.
  intros Hc. rewrite (unsubscribe_run topic id s Hc).
  destruct (JSMap.get topic (subscriptions s)) as [subs|] eqn:Hsubs;
    [|exact Hc].
  destruct Hc as (Hnd & Hkeys & Hall). cbn [snd].
  destruct (Hall topic subs Hsubs) as (_ & Hnds & _).
  destruct (Nat.eqb_spec (length (JSMap.delete id subs)) 0) as [Hz|Hnz].
  - split; [by apply keys_delete_NoDup|].
    split; [by apply keys_delete_by_keys|].
    cbn [subscriptions topicSubscribers]. intros topic' subs'.
    rewrite !get_delete by (by rewrite ?Hkeys).
    destruct (String.eqb topic' topic); [discriminate|apply Hall].
  - split; [by apply keys_set_NoDup|].
    split; [by apply keys_set_by_keys|].
    cbn [subscriptions topicSubscribers]. intros topic' subs'.
    rewrite !get_set.
    destruct (String.eqb topic' topic); [|apply Hall].
    intros [= <-].
    split; [by destruct (JSMap.delete id subs)|].
    split; [by apply keys_delete_NoDup|reflexivity].
Qed.

Lemma empty_consistent : subscriptions_consistent Subscriptions.empty.
Proof. split; [constructor|]. split; [reflexivity|]. intros topic subs [=]. Qed.

Lemma subscription_call_run c s :
  subscriptions_consistent s ->
  exists s',
    subscription_call c s = (Normal tt, s') /\ subscriptions_consistent s'.
Proof.
  intros Hc. destruct c as [subscription|topic id]; simpl; unfold bind, ret.
  - pose proof (subscribe_consistent subscription s Hc) as Hc'.
    rewrite (subscribe_run subscription s Hc) in *. eauto.
  - pose proof (unsubscribe_consistent topic id s Hc) as Hc'.
    rewrite (unsubscribe_run topic id s Hc) in *.
    destruct (JSMap.get topic (subscriptions s)); eauto.
Qed.

Lemma subscription_calls_run calls s0 :
  subscriptions_consistent s0 ->
  exists s,
    for_of calls subscription_call s0 = (Normal tt, s) /\
    subscriptions_consistent s.
Proof.
  revert s0. induction calls as [|c calls IH]; intros s0 Hc; [by exists s0|].
  destruct (subscription_call_run c s0 Hc) as (s1 & Hrun1 & Hc1).
  destruct (IH s1 Hc1) as (s & Hrun & Hcs).
  exists s. split; [|exact Hcs]. simpl. unfold bind. by rewrite Hrun1.
Qed.

Lemma subscriptions_after_consistent calls :
  subscriptions_consistent (subscriptions_after calls).
Proof.
  unfold subscriptions_after.
  destruct (subscription_calls_run calls _ empty_consistent) as (s & -> & Hc).
  exact Hc.
Qed.

Lemma find_subscription_set topic subs topic' id' s :
  find_subscription topic' id'
    {| subscriptions := JSMap.set topic subs (subscriptions s);
       topicSubscribers :=
         JSMap.set topic (JSMap.keys subs) (topicSubscribers s) |}
  = if String.eqb topic' topic then JSMap.get id' subs
    else find_subscription topic' id' s.
Proof.
  unfold find_subscription. cbn [subscriptions]. rewrite get_set.
  by destruct (String.eqb topic' topic).
Qed.

Lemma values_set_absent {V} k (v : V) (m : list (string * V)) :
  JSMap.get k m = None -> JSMap.values (JSMap.set k v m) = JSMap.values m ++ [v].
Proof.
  intros Hget. apply has_get in Hget. rewrite (set_absent k v m Hget).
  unfold JSMap.values. by rewrite map_app.
Qed.

Lemma length_set_present {V} k (v : V) (m : list (string * V)) :
  JSMap.has k m = true -> length (JSMap.set k v m) = length m.
Proof.
  induction m as [|[k0 v0] m IH]; simpl; [done|].
  unfold JSMap.has in *. simpl.
  destruct (String.eqb k k0); simpl; [done|]. intros H. by rewrite IH.
Qed.

End SubscriptionRuns.

(** X4.  Whatever [subscribe] and [unsubscribe] calls were made on a
    subscription manager, none of them throws, the two maps stay in step
    (the non-null assertions of [subscribe] never fail), and
    [getAllTopics] lists, without repeats, exactly the topics that have at
    least one subscription. *)
Theorem subscriptions_stay_consistent (calls : list SubscriptionCall) :
  exists s,
    for_of calls subscription_call Subscriptions.empty = (Normal tt, s) /\
    subscriptions_consistent s /\
    NoDup (Subscriptions.getAllTopics s) /\
    forall topic,
      topic ∈ Subscriptions.getAllTopics s
      <-> Subscriptions.getSubscriptions topic s <> [].
Proof.
  destruct (subscription_calls_run calls _ empty_consistent) as (s & Hs & Hc).
  exists s. split; [exact Hs|]. split; [exact Hc|].
  destruct Hc as (Hnd & _ & Hall). split; [exact Hnd|].
  intros topic. unfold Subscriptions.getAllTopics, Subscriptions.getSubscriptions.
  rewrite keys_get. split.
  - intros [subs Hsubs]. rewrite Hsubs.
    destruct (Hall topic subs Hsubs) as (Hne & _). by destruct subs.
  - destruct (JSMap.get topic (Subscriptions.subscriptions s)) as [subs|];
      [eauto|done].
Qed.

(** X5.  On a subscription manager reached by any run of calls,
    [unsubscribe(topic, id)] returns [true] exactly when a subscription is
    registered under that topic and id; when none is, the manager is left
    as it was; afterwards nothing is registered under the pair, and every
    other registration is as before. *)
Theorem unsubscribe_removes_only_its_pair
    (calls : list SubscriptionCall) (topic id : string) :
  let s := subscriptions_after calls in
  exists s',
    Subscriptions.unsubscribe topic id s
    = (Normal (bool_decide (is_Some (find_subscription topic id s))), s') /\
    (find_subscription topic id s = None -> s' = s) /\
    find_subscription topic id s' = None /\
    forall topic' id',
      (topic', id') <> (topic, id) ->
      find_subscription topic' id' s' = find_subscription topic' id' s.
Proof.
  intros s. pose proof (subscriptions_after_consistent calls) as Hc.
  fold s in Hc. rewrite (unsubscribe_run topic id s Hc).
  destruct Hc as (Hnd & Hkeys & Hall).
  assert (Hfind : find_subscription topic id s
                  = JSMap.get topic (Subscriptions.subscriptions s)
                    ≫= JSMap.get id) by reflexivity.
  rewrite !Hfind. clear Hfind.
  destruct (JSMap.get topic (Subscriptions.subscriptions s))
    as [subs|] eqn:Hsubs; cbn [mbind option_bind].
  - destruct (Hall topic subs Hsubs) as (Hne & Hnds & Hids).
    eexists. split; [|split; [|split]].
    + f_equal. f_equal. unfold JSMap.has.
      destruct (JSMap.get id subs); symmetry;
        [by apply bool_decide_eq_true|].
      apply bool_decide_eq_false. by intros [? ?].
    + intros Hnone. apply has_get in Hnone.
      rewrite (delete_absent id subs Hnone).
      destruct (Nat.eqb_spec (length subs) 0) as [Hz|_];
        [by destruct subs|].
      rewrite (set_same topic subs _ Hsubs), (set_same topic _ _ Hids).
      by destruct s.
    + destruct (Nat.eqb_spec (length (JSMap.delete id subs)) 0) as [Hz|Hnz].
      * unfold find_subscription. cbn [Subscriptions.subscriptions].
        rewrite get_delete by done. by rewrite String.eqb_refl.
      * rewrite find_subscription_set, String.eqb_refl.
        rewrite get_delete by done. by rewrite String.eqb_refl.
    + intros topic' id' Hother.
      assert (Hget : String.eqb topic' topic = true ->
                     JSMap.get id' (JSMap.delete id subs) = JSMap.get id' subs).
      { intros Heq. apply String.eqb_eq in Heq. subst topic'.
        rewrite get_delete by done.
        destruct (String.eqb_spec id' id) as [->|_]; [done|reflexivity]. }
      destruct (Nat.eqb_spec (length (JSMap.delete id subs)) 0) as [Hz|Hnz].
      * unfold find_subscription. cbn [Subscriptions.subscriptions].
        rewrite get_delete by done.
        destruct (String.eqb topic' topic) eqn:Heq; [|reflexivity].
        specialize (Hget eq_refl). apply String.eqb_eq in Heq. subst topic'.
        rewrite Hsubs. cbn [mbind option_bind]. rewrite <- Hget.
        by destruct (JSMap.delete id subs).
      * rewrite find_subscription_set.
        destruct (String.eqb topic' topic) eqn:Heq; [|reflexivity].
        rewrite (Hget eq_refl). apply String.eqb_eq in Heq. subst topic'.
        unfold find_subscription. by rewrite Hsubs.
  - exists s. split; [|split; [done|split]].
    + rewrite bool_decide_eq_false_2; [done|by intros [? ?]].
    + unfold find_subscription. by rewrite Hsubs.
    + done.
Qed.

(** X6.  On a subscription manager reached by any run of calls,
    [subscribe(subscription)] returns the subscription's id and registers
    it under its topic and id, leaving every other registration as it was.
    A new id is listed last among the topic's subscriptions; an id already
    registered under the topic is overwritten, and the topic's number of
    subscriptions does not change. *)
Theorem subscribe_registers_or_overwrites
    (calls : list SubscriptionCall)
    (subscription : Subscriptions.ISubscription) :
  let s := subscriptions_after calls in
  let topic := Subscriptions.sub_topic subscription in
  let id := Subscriptions.sub_id subscription in
  exists s',
    Subscriptions.subscribe subscription s = (Normal id, s') /\
    find_subscription topic id s' = Some subscription /\
    (forall topic' id',
       (topic', id') <> (topic, id) ->
       find_subscription topic' id' s' = find_subscription topic' id' s) /\
    match find_subscription topic id s with
    | None =>
        Subscriptions.getSubscriptions topic s'
        = Subscriptions.getSubscriptions topic s ++ [subscription]
    | Some _ =>
        length (Subscriptions.getSubscriptions topic s')
        = length (Subscriptions.getSubscriptions topic s)
    end.
Proof.
  intros s topic id. pose proof (subscriptions_after_consistent calls) as Hc.
  fold s in Hc. rewrite (subscribe_run subscription s Hc).
  fold topic id. eexists. split; [reflexivity|].
  rewrite find_subscription_set, String.eqb_refl.
  split; [by rewrite get_set, String.eqb_refl|].
  split.
  - intros topic' id' Hother. rewrite find_subscription_set.
    destruct (String.eqb_spec topic' topic) as [->|_]; [|reflexivity].
    rewrite get_set.
    destruct (String.eqb_spec id' id) as [->|_]; [done|].
    unfold find_subscription.
    by destruct (JSMap.get topic (Subscriptions.subscriptions s)).
  - unfold Subscriptions.getSubscriptions, find_subscription.
    cbn [Subscriptions.subscriptions]. rewrite get_set, String.eqb_refl.
    destruct (JSMap.get topic (Subscriptions.subscriptions s))
      as [subs|]; cbn [mbind option_bind default].
    + destruct (JSMap.get id subs) as [old|] eqn:Hold.
      * unfold JSMap.values. rewrite !length_map.
        apply length_set_present. unfold JSMap.has. by rewrite Hold.
      * by apply values_set_absent.
    + reflexivity.
Qed.

(** X7.  Round trip: on a subscription manager reached by any run of calls,
    registering a subscription under a topic and id that are not registered
    and then unsubscribing that pair returns [true] and restores the
    manager exactly, the order of the topics included. *)
Theorem subscribe_then_unsubscribe_restores
    (calls : list SubscriptionCall)
    (subscription : Subscriptions.ISubscription) :
  let s := subscriptions_after calls in
  let topic := Subscriptions.sub_topic subscription in
  let id := Subscriptions.sub_id subscription in
  find_subscription topic id s = None ->
  Subscriptions.unsubscribe topic id
    (Subscriptions.subscribe subscription s).2
  = (Normal true, s).
Proof.
  intros s topic id Hfresh.
  pose proof (subscriptions_after_consistent calls) as Hc. fold s in Hc.
  pose proof (subscribe_consistent subscription s Hc) as Hc'.
  rewrite (unsubscribe_run topic id _ Hc').
  rewrite (subscribe_run subscription s Hc). fold topic id.
  cbn [snd Subscriptions.subscriptions Subscriptions.topicSubscribers].
  rewrite get_set, String.eqb_refl.
  rewrite delete_set, !set_set.
  destruct Hc as (Hnd & Hkeys & Hall). unfold find_subscription in Hfresh.
  assert (Htrue : JSMap.has id
            (JSMap.set id subscription
               (default [] (JSMap.get topic (Subscriptions.subscriptions s))))
          = true).
  { unfold JSMap.has. by rewrite get_set, String.eqb_refl. }
  rewrite Htrue. f_equal.
  destruct (JSMap.get topic (Subscriptions.subscriptions s))
    as [subs|] eqn:Hsubs; cbn [mbind option_bind default from_option] in *;
    unfold Datatypes.id in *.
  - destruct (Hall topic subs Hsubs) as (Hne & Hnds & Hids).
    apply has_get in Hfresh. rewrite (delete_absent id subs Hfresh).
    destruct (Nat.eqb_spec (length subs) 0) as [Hz|_]; [by destruct subs|].
    rewrite (set_same topic subs _ Hsubs), (set_same topic _ _ Hids).
    by destruct s.
  - cbn [JSMap.delete length Nat.eqb].
    pose proof Hsubs as Hnone. apply has_get in Hnone.
    rewrite !delete_set, (delete_absent topic _ Hnone).
    rewrite (has_by_keys topic _ (Subscriptions.topicSubscribers s)) in Hnone
      by done.
    rewrite (delete_absent topic _ Hnone). by destruct s.
Qed.

Lemma subscribe_then_unsubscribe_restores_witness :
  find_subscription "orders" "b"
    (subscriptions_after [SSubscribe (subscription_of "orders" "a")]) = None /\
  Subscriptions.unsubscribe "orders" "b"
    (Subscriptions.subscribe (subscription_of "orders" "b")
       (subscriptions_after [SSubscribe (subscription_of "orders" "a")])).2
  = (Normal true,
     subscriptions_after [SSubscribe (subscription_of "orders" "a")]).
Proof.
  split; [reflexivity|].
  apply (subscribe_then_unsubscribe_restores
           [SSubscribe (subscription_of "orders" "a")]
           (subscription_of "orders" "b")).
  reflexivity.
Defined.

(** ** Registration order in the handler registry *)

Section RegistryOrder.
Import Registry.

Lemma sort_insert_head a l :
  Forall (fun y => priorityOrZero y <= priorityOrZero a) l ->
  sort_insert byPriorityDesc a l = a :: l.
Proof.
  destruct l as [|y l]; [reflexivity|]. intros Hall.
  apply Forall_cons in Hall as [Hy _]. simpl. unfold byPriorityDesc.
  destruct (Z.leb_spec (priorityOrZero y - priorityOrZero a) 0); [done|lia].
Qed.

Lemma ahead_of_none h hs :
  Forall (fun y => priorityOrZero y < priorityOrZero h) hs ->
  ahead_of h hs = [] /\ behind h hs = hs.
Proof.
  unfold ahead_of, behind. induction 1 as [|y hs Hy _ [IH1 IH2]]; [done|].
  simpl. rewrite IH1, IH2.
  destruct (Z.leb_spec (priorityOrZero h) (priorityOrZero y)); [lia|].
  by destruct (Z.ltb_spec (priorityOrZero y) (priorityOrZero h)); [|lia].
Qed.

Lemma ahead_behind h hs :
  descending hs -> ahead_of h hs ++ behind h hs = hs.
Proof.
  unfold descending. induction 1 as [|a hs Hs IH Hall]; [done|].
  unfold ahead_of, behind in *. simpl.
  destruct (Z.leb_spec (priorityOrZero h) (priorityOrZero a)) as [Hle|Hlt].
  - destruct (Z.ltb_spec (priorityOrZero a) (priorityOrZero h)); [lia|].
    simpl. by rewrite IH.
  - destruct (Z.ltb_spec (priorityOrZero a) (priorityOrZero h)); [|lia].
    destruct (ahead_of_none h hs) as [Ha Hb].
    { eapply Forall_impl; [exact Hall|]. simpl. intros; lia. }
    unfold ahead_of, behind in *. by rewrite Ha, Hb.
Qed.

(** Sorting after [push]: the new handler goes behind the handlers whose
    priority is not below its own. *)
Lemma sort_pushed h hs :
  descending hs ->
  Array_sort byPriorityDesc (hs ++ [h]) = ahead_of h hs ++ h :: behind h hs.
Proof.
  unfold descending. induction 1 as [|a hs Hs IH Hall]; [reflexivity|].
  change (Array_sort byPriorityDesc ((a :: hs) ++ [h]))
    with (sort_insert byPriorityDesc a (Array_sort byPriorityDesc (hs ++ [h]))).
  rewrite IH. unfold ahead_of, behind. simpl.
  destruct (Z.leb_spec (priorityOrZero h) (priorityOrZero a)) as [Hle|Hlt].
  - destruct (Z.ltb_spec (priorityOrZero a) (priorityOrZero h)); [lia|].
    apply sort_insert_head. apply Forall_app. split.
    + apply Forall_forall. intros y Hy. apply list_elem_of_In in Hy.
      apply filter_In in Hy as [Hy _]. apply list_elem_of_In in Hy.
      rewrite Forall_forall in Hall. by apply Hall.
    + constructor; [exact Hle|].
      apply Forall_forall. intros y Hy. apply list_elem_of_In in Hy.
      apply filter_In in Hy as [Hy _]. apply list_elem_of_In in Hy.
      rewrite Forall_forall in Hall. by apply Hall.
  - destruct (Z.ltb_spec (priorityOrZero a) (priorityOrZero h)); [|lia].
    destruct (ahead_of_none h hs) as [Ha Hb].
    { eapply Forall_impl; [exact Hall|]. simpl. intros; lia. }
    unfold ahead_of, behind in Ha, Hb. rewrite Ha, Hb. simpl.
    unfold byPriorityDesc at 1.
    destruct (Z.leb_spec (priorityOrZero h - priorityOrZero a) 0); [lia|].
    by rewrite sort_insert_head.
Qed.

Lemma register_run t h r :
  register t h r
  = (Normal tt,
     {| handlers :=
          <[t := Array_sort byPriorityDesc (typed t r ++ [h])]> (handlers r);
        globalHandlers := globalHandlers r;
        middleware := middleware r |}).
Proof.
  unfold register, bind, gets, when_, modify, ret, typed.
  destruct (handlers r !! t) as [hs|] eqn:Hhs; simpl; rewrite ?Hhs; simpl.
  - reflexivity.
  - by rewrite lookup_insert_eq, insert_insert_eq.
Qed.

Lemma typed_sorted calls t : descending (typed t (setup calls)).
Proof.
  unfold typed. destruct (setup_sorted calls) as [_ Ht].
  destruct (handlers (setup calls) !! t) as [hs|] eqn:Hhs; simpl;
    [by eapply Ht|constructor].
Qed.

Lemma remove_first_middle h pre post :
  h_ref h ∉ refs pre ->
  remove_first h (pre ++ h :: post) = Some (pre ++ post).
Proof.
  unfold refs. induction pre as [|a pre IH]; simpl; intros Hnot.
  - by rewrite Pos.eqb_refl.
  - apply not_elem_of_cons in Hnot as [Hne Hnot].
    destruct (Pos.eqb_spec (h_ref a) (h_ref h)); [congruence|].
    by rewrite IH.
Qed.

Lemma remove_first_absent h hs :
  h_ref h ∉ refs hs -> remove_first h hs = None.
Proof.
  unfold refs. induction hs as [|a hs IH]; simpl; intros Hnot; [done|].
  apply not_elem_of_cons in Hnot as [Hne Hnot].
  destruct (Pos.eqb_spec (h_ref a) (h_ref h)); [congruence|].
  by rewrite IH.
Qed.

Lemma remove_first_present h hs :
  h_ref h ∈ refs hs ->
  exists hs',
    remove_first h hs = Some hs' /\
    S (length hs') = length hs /\
    S (occurrences h hs') = occurrences h hs /\
    forall other,
      h_ref other <> h_ref h -> occurrences other hs' = occurrences other hs.
Proof.
  unfold refs, occurrences. induction hs as [|a hs IH]; simpl; intros Hin.
  - by apply elem_of_nil in Hin.
  - destruct (Pos.eqb_spec (h_ref a) (h_ref h)) as [Heq|Hne].
    + exists hs. split; [done|]. split; [done|]. rewrite Heq, Pos.eqb_refl.
      split; [done|]. intros other Hother.
      by destruct (Pos.eqb_spec (h_ref other) (h_ref h)).
    + apply elem_of_cons in Hin as [Heq|Hin]; [congruence|].
      destruct (IH Hin) as (hs' & -> & Hlen & Hocc & Hothers).
      exists (a :: hs'). split; [done|]. simpl. split; [by rewrite Hlen|].
      split.
      * destruct (Pos.eqb_spec (h_ref h) (h_ref a)); [congruence|done].
      * intros other Hother.
        destruct (Pos.eqb (h_ref other) (h_ref a)); simpl;
          by rewrite (Hothers other Hother).
Qed.

Lemma next_ext r r' message :
  middleware r = middleware r' ->
  dispatch r message = dispatch r' message ->
  forall fuel index,
    next r message fuel index = next r' message fuel index.
Proof.
  intros Hmw Hd. induction fuel as [|fuel IH]; intros index; cbn [next].
  - by rewrite Hd.
  - rewrite <- Hmw, Hd.
    destruct (middleware r !! index) as [mw|]; [|reflexivity].
    apply call_next_ext; [intros j _; apply IH|].
    intros j. apply next_index.
Qed.

Lemma handle_ext r r' message :
  middleware r = middleware r' ->
  dispatch r message = dispatch r' message ->
  handle r message = handle r' message.
Proof.
  intros Hmw Hd. unfold handle. rewrite <- Hmw.
  by rewrite (next_ext r r' message Hmw Hd).
Qed.

End RegistryOrder.

(** X8.  In a registry set up by any calls, [register] and [registerGlobal]
    place the new handler behind every handler of the list whose priority
    is not below its own and in front of those with a lower priority; the
    handlers already in the list keep their order.  So among handlers of
    equal priority the one registered first is called first (the sort of
    an array is stable). *)
Theorem register_places_after_equal_priority
    (calls : list Registry.Call) (messageType : string)
    (handler : Registry.IMessageHandler) :
  let r := Registry.setup calls in
  typed messageType (Registry.register messageType handler r).2
  = ahead_of handler (typed messageType r)
    ++ handler :: behind handler (typed messageType r) /\
  ahead_of handler (typed messageType r) ++ behind handler (typed messageType r)
  = typed messageType r /\
  Registry.globalHandlers (Registry.registerGlobal handler r).2
  = ahead_of handler (Registry.globalHandlers r)
    ++ handler :: behind handler (Registry.globalHandlers r) /\
  ahead_of handler (Registry.globalHandlers r)
  ++ behind handler (Registry.globalHandlers r)
  = Registry.globalHandlers r.
Proof.
  intros r. pose proof (typed_sorted calls messageType) as Ht. fold r in Ht.
  destruct (setup_sorted calls) as [Hg _]. fold r in Hg.
  split; [|split; [by apply ahead_behind|split; [|by apply ahead_behind]]].
  - rewrite register_run. cbn [snd]. unfold typed at 1.
    cbn [Registry.handlers]. rewrite lookup_insert_eq. simpl.
    by apply sort_pushed.
  - unfold Registry.registerGlobal, modify. simpl. by apply sort_pushed.
Qed.

(** X9.  [unregister(messageType, handler)] returns [true] exactly when the
    handler object is in the list of that message type, and then removes
    one occurrence of it: a handler registered twice for a type stays
    registered once.  Otherwise the registry is left as it was.  Global
    handlers, middleware and the lists of other message types are never
    touched. *)
Theorem unregister_removes_one_occurrence
    (r : Registry.UniversalHandlerRegistry) (messageType : string)
    (handler : Registry.IMessageHandler) :
  exists r',
    Registry.unregister messageType handler r
    = (Normal (bool_decide (Registry.h_ref handler ∈ refs (typed messageType r))),
       r') /\
    Registry.globalHandlers r' = Registry.globalHandlers r /\
    Registry.middleware r' = Registry.middleware r /\
    (forall t, t <> messageType -> Registry.handlers r' !! t = Registry.handlers r !! t) /\
    (Registry.h_ref handler ∉ refs (typed messageType r) -> r' = r) /\
    (Registry.h_ref handler ∈ refs (typed messageType r) ->
     S (length (typed messageType r')) = length (typed messageType r) /\
     S (occurrences handler (typed messageType r'))
     = occurrences handler (typed messageType r) /\
     forall other,
       Registry.h_ref other <> Registry.h_ref handler ->
       occurrences other (typed messageType r')
       = occurrences other (typed messageType r)).
Proof.
  unfold Registry.unregister, bind, gets, modify, ret, typed.
  destruct (Registry.handlers r !! messageType) as [hs|] eqn:Hhs; simpl.
  - destruct (decide (Registry.h_ref handler ∈ refs hs)) as [Hin|Hnot].
    + destruct (remove_first_present handler hs Hin)
        as (hs' & Hr & Hlen & Hocc & Hothers).
      rewrite Hr. simpl. eexists. split; [by rewrite bool_decide_eq_true_2|].
      cbn [Registry.globalHandlers Registry.middleware Registry.handlers].
      split; [done|]. split; [done|].
      split; [by intros t Hne; rewrite lookup_insert_ne|].
      split; [done|]. intros _. rewrite lookup_insert_eq. by simpl.
    + rewrite (remove_first_absent handler hs Hnot). simpl.
      exists r. split; [by rewrite bool_decide_eq_false_2|]. by rewrite Hhs.
  - exists r. do 5 (split; [done|]).
    intros Hin. by apply elem_of_nil in Hin.
Qed.

(** X10.  Round trip: in a registry set up by any calls, registering a
    handler object that is not yet registered for a message type and then
    unregistering it returns [true] and cannot be observed: every message
    type has the handlers it had, in the same order, and every message is
    handled as before. *)
Theorem register_then_unregister_is_invisible
    (calls : list Registry.Call) (messageType : string)
    (handler : Registry.IMessageHandler) :
  Registry.h_ref handler ∉ refs (typed messageType (Registry.setup calls)) ->
  exists r',
    Registry.unregister messageType handler
      (Registry.register messageType handler (Registry.setup calls)).2
    = (Normal true, r') /\
    Registry.globalHandlers r' = Registry.globalHandlers (Registry.setup calls) /\
    Registry.middleware r' = Registry.middleware (Registry.setup calls) /\
    (forall t, typed t r' = typed t (Registry.setup calls)) /\
    forall message,
      Registry.handle r' message = Registry.handle (Registry.setup calls) message.
Proof.
  intros Hfresh. set (r := Registry.setup calls) in *.
  pose proof (typed_sorted calls messageType) as Ht. fold r in Ht.
  rewrite register_run. cbn [snd].
  unfold Registry.unregister, bind, gets, modify, ret.
  cbn [Registry.handlers]. rewrite lookup_insert_eq.
  rewrite (sort_pushed handler _ Ht).
  rewrite remove_first_middle; cycle 1.
  { intros Hin. apply Hfresh. unfold refs, ahead_of in *.
    apply list_elem_of_fmap in Hin as (x & Hx & Hin).
    apply list_elem_of_fmap. exists x. split; [done|].
    apply list_elem_of_In in Hin. apply filter_In in Hin as [Hin _].
    by apply list_elem_of_In. }
  rewrite (ahead_behind handler _ Ht). simpl. eexists. split; [reflexivity|].
  cbn [Registry.globalHandlers Registry.middleware].
  split; [done|]. split; [done|].
  assert (Htyped : forall t,
    typed t {| Registry.handlers :=
                 <[messageType := typed messageType r]>
                   (<[messageType :=
                        ahead_of handler (typed messageType r)
                        ++ handler :: behind handler (typed messageType r)]>
                      (Registry.handlers r));
               Registry.globalHandlers := Registry.globalHandlers r;
               Registry.middleware := Registry.middleware r |}
    = typed t r).
  { intros t. unfold typed at 1. cbn [Registry.handlers].
    rewrite insert_insert_eq, lookup_insert. case_decide; [by subst|done]. }
  split; [exact Htyped|].
  intros message. apply handle_ext; [done|].
  unfold Registry.dispatch. cbn [Registry.globalHandlers].
  f_equal. f_equal. exact (Htyped (msg_type message)).
Qed.

Lemma register_then_unregister_is_invisible_witness :
  (Registry.h_ref validation_handler
   ∉ refs (typed "order.created"
             (Registry.setup
                [Registry.CallRegister "order.created" (logging_handler 5)]))) /\
  exists r',
    Registry.unregister "order.created" validation_handler
      (Registry.register "order.created" validation_handler
         (Registry.setup
            [Registry.CallRegister "order.created" (logging_handler 5)])).2
    = (Normal true, r') /\
    Registry.globalHandlers r'
    = Registry.globalHandlers
        (Registry.setup
           [Registry.CallRegister "order.created" (logging_handler 5)]) /\
    Registry.middleware r'
    = Registry.middleware
        (Registry.setup
           [Registry.CallRegister "order.created" (logging_handler 5)]) /\
    (forall t,
        typed t r'
        = typed t
            (Registry.setup
               [Registry.CallRegister "order.created" (logging_handler 5)])) /\
    forall message,
      Registry.handle r' message
      = Registry.handle
          (Registry.setup
             [Registry.CallRegister "order.created" (logging_handler 5)])
          message.
Proof.
  assert (Hfresh : Registry.h_ref validation_handler
    ∉ refs (typed "order.created"
              (Registry.setup
                 [Registry.CallRegister "order.created" (logging_handler 5)]))).
  { vm_compute. intros Hin. apply list_elem_of_singleton in Hin. discriminate. }
  split; [exact Hfresh|].
  exact (register_then_unregister_is_invisible
           [Registry.CallRegister "order.created" (logging_handler 5)]
           "order.created" validation_handler Hfresh).
Defined.

(** ** Middleware that does not await [next()] once *)

Section MiddlewareChain.
Import Registry.




End MiddlewareChain.



(** ** The rolling window of the performance monitor *)

Section MonitorWindow.

Lemma last_n_app {A} n (l1 l2 : list A) :
  last_n n (last_n n l1 ++ l2) = last_n n (l1 ++ l2).
Proof.
  unfold last_n.
  rewrite <- (drop_app_le l1 l2 (length l1 - n)) by lia.
  rewrite drop_drop. f_equal.
  rewrite length_drop, !length_app. lia.
Qed.

Lemma last_n_length {A} n (l : list A) : (length (last_n n l) <= n)%nat.
Proof. unfold last_n. rewrite length_drop. lia. Qed.

Lemma last_n_short {A} n (l : list A) : (length l <= n)%nat -> last_n n l = l.
Proof. unfold last_n. intros H. by replace (length l - n)%nat with 0%nat by lia. Qed.

Lemma recordLatency_window operation latency broker s key :
  (length (window key s) <= 1000)%nat ->
  window key (Monitor.recordLatency operation latency broker s).2
  = if String.eqb (Monitor.metricKey operation broker) key
    then last_n 1000 (window key s ++ [latency])
    else window key s.
Proof.
  intros Hlen. unfold Monitor.recordLatency, bind, gets, modify, window in *.
  cbn [snd Monitor.metrics].
  destruct (String.eqb_spec (Monitor.metricKey operation broker) key)
    as [->|Hne].
  - rewrite lookup_insert_eq. cbn [default from_option].
    set (w := default [] (Monitor.metrics s !! key)) in *.
    unfold last_n, Monitor.maxSamples. rewrite length_app. simpl.
    destruct (Z.gtb_spec (Z.of_nat (length w + 1)) 1000) as [Hgt|Hle].
    + replace (length w + 1 - 1000)%nat with 1%nat by lia. reflexivity.
    + replace (length w + 1 - 1000)%nat with 0%nat by lia. reflexivity.
  - by rewrite lookup_insert_ne.
Qed.

Lemma record_all_window calls key : forall s,
  (length (window key s) <= 1000)%nat ->
  (record_all calls s).1 = Normal tt /\
  window key (record_all calls s).2
  = last_n 1000 (window key s ++ recorded_for key calls).
Proof.
  induction calls as [|c calls IH]; intros s Hlen.
  - split; [reflexivity|]. unfold recorded_for. simpl.
    rewrite app_nil_r. by rewrite last_n_short.
  - pose proof (recordLatency_window (lc_operation c) (lc_latency c)
                  (lc_broker c) s key Hlen) as Hstep.
    destruct (recordLatency_run (lc_operation c) (lc_latency c) (lc_broker c) s)
      as [s1 Hs1].
    unfold record_all in *. cbn [for_of]. unfold bind. rewrite Hs1 in *.
    cbn [snd] in Hstep.
    assert (Hlen1 : (length (window key s1) <= 1000)%nat).
    { rewrite Hstep.
      destruct (String.eqb _ key); [apply last_n_length|exact Hlen]. }
    destruct (IH s1 Hlen1) as [Hok Hwin]. split; [exact Hok|].
    rewrite Hwin, Hstep. unfold recorded_for. cbn [List.filter].
    destruct (String.eqb _ key); cbn [map]; [|reflexivity].
    rewrite last_n_app, <- app_assoc. reflexivity.
Qed.

End MonitorWindow.

(** X12.  The samples the monitor holds for a key are the last 1000 of the
    latencies recorded under it, in the order they were recorded, whatever
    was recorded under other keys in between; recording never fails.  The
    key is the operation, prefixed by the broker and a dot when a non-empty
    broker is given, so an operation with a broker and the operation named
    [broker.operation] without one share one window. *)
Theorem monitor_keeps_last_samples (calls : list LatencyCall) (key : string) :
  (record_all calls Monitor.empty).1 = Normal tt /\
  window key (record_all calls Monitor.empty).2
  = last_n 1000 (recorded_for key calls) /\
  (length (window key (record_all calls Monitor.empty).2)
   = Nat.min (length (recorded_for key calls)) 1000) /\
  (forall operation broker,
      broker <> "" ->
      Monitor.metricKey operation (Some broker)
      = Monitor.metricKey (broker +:+ "." +:+ operation) None).
Proof.
  destruct (record_all_window calls key Monitor.empty) as [Hok Hwin].
  { unfold window. simpl. rewrite lookup_empty. simpl. lia. }
  split; [exact Hok|].
  assert (Hw : window key Monitor.empty = []).
  { unfold window. simpl. by rewrite lookup_empty. }
  rewrite Hw in Hwin. simpl in Hwin. split; [exact Hwin|].
  split.
  - rewrite Hwin. unfold last_n. rewrite length_drop. lia.
  - intros operation broker Hne. unfold Monitor.metricKey.
    by destruct (String.eqb_spec broker "").
Qed.

(** ** The statistics of a window *)

Section MonitorStats.







End MonitorStats.


(** ** The calls of the manager *)

Section ManagerCalls.
Import Manager.
Context {W : Type} {adapter : IBrokerAdapter W} {host : Host W}.

Lemma fresh_id_run prefix (m : UniversalMessageManager W) :
  fresh_id prefix m
  = (Normal (prefix +:+ "_" +:+ pretty (Date_now (world m)) +:+ "_"
             +:+ (Math_random_tag (world m)).1),
     set_world (Math_random_tag (world m)).2 m).
Proof.
  unfold fresh_id, bind, now, gets, zoom, ret.
  by destruct (Math_random_tag (world m)).
Qed.

Lemma buildMessage_run topic payload options (m : UniversalMessageManager W) :
  buildMessage topic payload options m
  = (Normal (built_message (world m) topic payload options),
     set_world (Math_random_tag (world m)).2 m).
Proof.
  unfold buildMessage, fresh_id, bind, now, gets, zoom, ret, built_message.
  destruct (Math_random_tag (world m)) as [tag w]. simpl.
  by destruct options.
Qed.

(** X14.  [publish(topic, payload, options)] files the message it builds
    under [topic], also when [options.type] names another type, and never
    fails: with room in the topic's queue the message is inserted by
    priority, and at capacity it goes to the topic's dead-letter store
    while the call still completes normally.  The fields of [options]
    override the generated id, the type, the payload and the timestamp.  No
    adapter is called and no other topic changes. *)
Theorem publish_files_under_topic (m : UniversalMessageManager W)
    (topic : string) (payload : option JSRecord)
    (options : option PartialMessage) :
  exists m',
    publish topic payload options m = (Normal tt, m') /\
    publishCalls m' = publishCalls m /\
    world m' = (Math_random_tag (world m)).2 /\
    (forall t,
        t <> topic ->
        live t (messageQueue m') = live t (messageQueue m) /\
        Queue.getDLQMessages t (messageQueue m')
        = Queue.getDLQMessages t (messageQueue m)) /\
    if Z.of_nat (length (live topic (messageQueue m))) <? Queue.maxQueueSize
    then
      live topic (messageQueue m')
      = inserted (live topic (messageQueue m))
          (built_message (world m) topic payload options) /\
      Queue.getDLQMessages topic (messageQueue m')
      = Queue.getDLQMessages topic (messageQueue m)
    else
      live topic (messageQueue m') = live topic (messageQueue m) /\
      Queue.getDLQMessages topic (messageQueue m')
      = Queue.getDLQMessages topic (messageQueue m)
        ++ [built_message (world m) topic payload options].
Proof.
  unfold publish, bind. rewrite buildMessage_run. unfold zoom.
  cbn [messageQueue set_world].
  set (message := built_message (world m) topic payload options).
  destruct (enqueue_effect topic message (messageQueue m))
    as [[Hroom ->]|[Hfull ->]]; eexists; (split; [reflexivity|]);
    cbn [publishCalls world messageQueue set_messageQueue];
    (split; [reflexivity|]); (split; [reflexivity|]).
  - split.
    + intros t Hne. rewrite live_set_queue, dlq_set_queue.
      by case_decide; [congruence|].
    + destruct (Z.ltb_spec (Z.of_nat (length (live topic (messageQueue m))))
                  Queue.maxQueueSize); [|lia].
      rewrite live_set_queue, dlq_set_queue. by case_decide.
  - split.
    + intros t Hne. rewrite live_set_dlq, dlq_set_dlq.
      by case_decide; [congruence|].
    + destruct (Z.ltb_spec (Z.of_nat (length (live topic (messageQueue m))))
                  Queue.maxQueueSize); [lia|].
      rewrite live_set_dlq, dlq_set_dlq. by case_decide.
Qed.

(** X15.  [publishImmediate] hands the message it builds to
    [adapter.publish] once, under [topic], without touching the queue, the
    dead-letter store or the subscriptions, so it reaches the broker
    whether or not the topic has a subscriber.  When the adapter call
    throws, the error reaches the caller and no latency is recorded; when
    it completes, one sample is recorded for ["publish_immediate"]: the
    time of the adapter call. *)
Theorem publishImmediate_bypasses_queue (m : UniversalMessageManager W)
    (topic : string) (payload : option JSRecord)
    (options : option PartialMessage) :
  let message := built_message (world m) topic payload options in
  let sent := adapter_publish topic message (Math_random_tag (world m)).2 in
  exists m',
    publishImmediate topic payload options m = (sent.1, m') /\
    messageQueue m' = messageQueue m /\
    subscriptionManager m' = subscriptionManager m /\
    console m' = console m /\
    world m' = sent.2 /\
    publishCalls m' = publishCalls m ++ [(topic, message, completed sent.1)] /\
    performanceMonitor m'
    = match sent.1 with
      | Normal _ =>
          (Monitor.recordLatency "publish_immediate"
             (Date_now sent.2 - Date_now (Math_random_tag (world m)).2)
             (Some adapter_getType) (performanceMonitor m)).2
      | Throw _ => performanceMonitor m
      end.
Proof.
  intros message sent. unfold publishImmediate, bind.
  rewrite buildMessage_run. fold message.
  unfold now, gets, adapterPublish, zoom. cbn [world set_world].
  fold sent. destruct sent as [[[]|e] w']; cbn [fst snd].
  - eexists. split; [reflexivity|]. repeat split; reflexivity.
  - eexists. split; [reflexivity|]. done.
Qed.

(** X16.  [subscribe] registers the subscription under the id it makes up
    before it calls [adapter.subscribe], and returns that id: the id the
    adapter returns is dropped.  When the adapter call throws, the error
    reaches the caller and the subscription stays registered, so the topic
    is still drained by the processing loop. *)
Theorem subscribe_registers_before_adapter (m : UniversalMessageManager W)
    (topic : string) (options : option SubscribeOptions) :
  subscriptions_consistent (subscriptionManager m) ->
  let id := subscription_id (world m) in
  let called :=
    adapter_subscribe topic (options ≫= consumerGroup) (options ≫= queueGroup)
      (Math_random_tag (world m)).2 in
  exists m',
    Manager.subscribe topic options m = (outcome called.1 id, m') /\
    world m' = called.2 /\
    find_subscription topic id (subscriptionManager m')
    = Some {| Subscriptions.sub_id := id;
              Subscriptions.sub_topic := topic;
              Subscriptions.sub_filters := options ≫= filters;
              Subscriptions.sub_consumerGroup := options ≫= consumerGroup;
              Subscriptions.sub_queueGroup := options ≫= queueGroup |} /\
    topic ∈ Subscriptions.getAllTopics (subscriptionManager m') /\
    subscriptions_consistent (subscriptionManager m') /\
    messageQueue m' = messageQueue m /\
    publishCalls m' = publishCalls m.
Proof.
  intros Hc id called. unfold Manager.subscribe, bind.
  rewrite fresh_id_run. unfold zoom, ret.
  cbn [subscriptionManager set_world].
  change ("sub" +:+ "_" +:+ pretty (Date_now (world m)) +:+ "_"
          +:+ (Math_random_tag (world m)).1) with id.
  set (subscription :=
    {| Subscriptions.sub_id := id; Subscriptions.sub_topic := topic;
       Subscriptions.sub_filters := options ≫= filters;
       Subscriptions.sub_consumerGroup := options ≫= consumerGroup;
       Subscriptions.sub_queueGroup := options ≫= queueGroup |}).
  pose proof (subscribe_consistent subscription _ Hc) as Hc'.
  rewrite (subscribe_run subscription _ Hc) in *.
  cbn [fst snd world set_subscriptionManager set_world] in *.
  change (Subscriptions.sub_topic subscription) with topic in *.
  change (Subscriptions.sub_id subscription) with id in *.
  fold called. destruct called as [[adapterId|e] w']; cbn [fst snd outcome];
    eexists; (split; [reflexivity|]);
    cbn [world subscriptionManager messageQueue publishCalls set_world
         set_subscriptionManager];
    (split; [reflexivity|]);
    (split; [rewrite find_subscription_set, String.eqb_refl;
             by rewrite get_set, String.eqb_refl|]);
    (split; [apply keys_get; cbn [Subscriptions.subscriptions];
             rewrite get_set, String.eqb_refl; by eexists|]);
    done.
Qed.

(** X17.  [unsubscribe] calls [adapter.unsubscribe] exactly when the
    subscription manager removed the subscription; for a pair that is not
    registered it returns [false] and changes nothing.  What the adapter
    answers is dropped: the call returns [true] also when the adapter
    returns [false], and when the adapter throws the subscription is
    already gone from the subscription manager. *)
Theorem unsubscribe_calls_adapter_when_removed (m : UniversalMessageManager W)
    (topic id : string) :
  subscriptions_consistent (subscriptionManager m) ->
  match find_subscription topic id (subscriptionManager m) with
  | None => Manager.unsubscribe topic id m = (Normal false, m)
  | Some _ =>
      exists m',
        Manager.unsubscribe topic id m
        = (outcome (adapter_unsubscribe id (world m)).1 true, m') /\
        world m' = (adapter_unsubscribe id (world m)).2 /\
        find_subscription topic id (subscriptionManager m') = None /\
        subscriptions_consistent (subscriptionManager m')
  end.
Proof.
  intros Hc. unfold Manager.unsubscribe, bind, zoom, when_, ret.
  pose proof (unsubscribe_consistent topic id _ Hc) as Hc'.
  rewrite (unsubscribe_run topic id _ Hc) in *.
  destruct Hc as (Hnd & Hkeys & Hall). unfold find_subscription at 1.
  destruct (JSMap.get topic (Subscriptions.subscriptions (subscriptionManager m)))
    as [subs|] eqn:Hsubs; cbn [mbind option_bind].
  - destruct (Hall topic subs Hsubs) as (Hne & Hnds & Hids).
    unfold JSMap.has.
    destruct (JSMap.get id subs) as [old|] eqn:Hold; cbn [fst snd] in *.
    + cbn [world set_subscriptionManager].
      destruct (adapter_unsubscribe id (world m)) as [[answer|e] w'];
        cbn [fst snd outcome]; eexists; (split; [reflexivity|]);
        cbn [world subscriptionManager set_world set_subscriptionManager];
        (split; [reflexivity|]); (split; [|exact Hc']).
      all: destruct (Nat.eqb (length (JSMap.delete id subs)) 0).
      all: first
        [ unfold find_subscription; cbn [Subscriptions.subscriptions];
          rewrite get_delete by done; by rewrite String.eqb_refl
        | rewrite find_subscription_set, String.eqb_refl;
          rewrite get_delete by done; by rewrite String.eqb_refl ].
    + apply has_get in Hold. rewrite (delete_absent id subs Hold).
      destruct (Nat.eqb_spec (length subs) 0) as [Hz|_]; [by destruct subs|].
      rewrite (set_same topic subs _ Hsubs), (set_same topic _ _ Hids).
      f_equal. destruct m as [[]]; reflexivity.
  - cbn [fst snd]. f_equal. destruct m as [[]]; reflexivity.
Qed.

End ManagerCalls.

Lemma subscribe_registers_before_adapter_witness :
  subscriptions_consistent (Manager.subscriptionManager (Manager.create 0)) /\
  exists m',
    Manager.subscribe "orders" None (Manager.create 0)
    = (Normal "sub_0_k3x9q2m1z", m') /\
    "orders" ∈ Subscriptions.getAllTopics (Manager.subscriptionManager m').
Proof.
  split; [apply empty_consistent|].
  destruct (subscribe_registers_before_adapter (Manager.create 0) "orders" None
              empty_consistent)
    as (m' & Hrun & _ & _ & Htopic & _).
  exists m'. split; [exact Hrun|exact Htopic].
Defined.

Lemma unsubscribe_calls_adapter_when_removed_witness :
  subscriptions_consistent (Manager.subscriptionManager subscribed_manager) /\
  exists m',
    Manager.unsubscribe "orders" "sub_0_k3x9q2m1z" subscribed_manager
    = (Normal true, m') /\
    find_subscription "orders" "sub_0_k3x9q2m1z" (Manager.subscriptionManager m')
    = None.
Proof.
  assert (Hc : subscriptions_consistent
                 (Manager.subscriptionManager subscribed_manager)).
  { apply (subscribe_consistent (subscription_of "orders" "sub_0_k3x9q2m1z")
             Subscriptions.empty empty_consistent). }
  split; [exact Hc|].
  destruct (unsubscribe_calls_adapter_when_removed subscribed_manager
              "orders" "sub_0_k3x9q2m1z" Hc)
    as (m' & Hrun & _ & Hgone & _).
  exists m'. split; [exact Hrun|exact Hgone].
Defined.

(** ** Rounds of the retry handler *)

Section RetryRounds.
Import Retry.

(** [n] more failed attempts while the counter stays within the limit. *)
Lemma handle_climb message : forall (n : nat) h0,
  retries (msg_id message) h0 + Z.of_nat n <= maxRetries h0 ->
  exists h,
    for_of (replicate n message) handle h0 = (Normal tt, h) /\
    retries (msg_id message) h = retries (msg_id message) h0 + Z.of_nat n /\
    retryCount h
    = (if n is O then retryCount h0
       else <[msg_id message := retries (msg_id message) h0 + Z.of_nat n]>
              (retryCount h0)) /\
    map Retry.delay (timeouts h)
    = map Retry.delay (timeouts h0)
      ++ map (fun k => retryDelay h0
                       * 2 ^ (retries (msg_id message) h0 + Z.of_nat k))
           (seq 0 n) /\
    maxRetries h = maxRetries h0 /\
    retryDelay h = retryDelay h0.
Proof.
  induction n as [|n IH]; intros h0 Hn.
  - exists h0. split; [reflexivity|]. split; [lia|]. split; [done|].
    split; [by rewrite app_nil_r|done].
  - destruct (handle_below message h0) as (h1 & Hrun1 & Hc1 & Ht1 & Hm1 & Hd1);
      [lia|].
    assert (Hr1 : retries (msg_id message) h1 = retries (msg_id message) h0 + 1).
    { unfold retries at 1. by rewrite Hc1, lookup_insert_eq. }
    destruct (IH h1) as (h & Hrun & Hr & Hc & Ht & Hm & Hd); [lia|].
    exists h. cbn [replicate for_of]. unfold bind. rewrite Hrun1.
    split; [exact Hrun|]. split; [lia|]. split.
    { rewrite Hc, Hc1, Hr1. destruct n as [|n].
      - f_equal; lia.
      - rewrite insert_insert_eq. f_equal; lia. }
    split; [|split; congruence].
    rewrite Ht, Ht1, map_app, <- app_assoc, Hd1, Hr1. f_equal.
    cbn [seq map]. rewrite Z.add_0_r. f_equal.
    rewrite <- seq_shift, map_map. apply map_ext. intros k.
    do 2 f_equal. lia.
Qed.

(** One round: the attempts up to the limit and the call that drops the
    message. *)
Lemma handle_round message h0 :
  retries (msg_id message) h0 = 0 ->
  0 <= maxRetries h0 ->
  exists h,
    for_of (replicate (S (Z.to_nat (maxRetries h0))) message) handle h0
    = (Normal tt, h) /\
    retryCount h = delete (msg_id message) (retryCount h0) /\
    map Retry.delay (timeouts h)
    = map Retry.delay (timeouts h0)
      ++ backoff (retryDelay h0) (Z.to_nat (maxRetries h0)) /\
    maxRetries h = maxRetries h0 /\
    retryDelay h = retryDelay h0.
Proof.
  intros Hzero Hmax.
  destruct (handle_climb message (Z.to_nat (maxRetries h0)) h0)
    as (h1 & Hrun1 & Hr1 & Hc1 & Ht1 & Hm1 & Hd1); [lia|].
  destruct (handle_with_exhausted processMessage message h1) as [line Hrun2];
    [lia|].
  eexists. rewrite <- Nat.add_1_r, replicate_add, for_of_app, Hrun1.
  cbn [replicate for_of]. unfold bind. fold handle in Hrun2. rewrite Hrun2.
  split; [reflexivity|]. cbn [maxRetries retryDelay timeouts retryCount].
  split.
  { rewrite Hc1. destruct (Z.to_nat (maxRetries h0)); [done|].
    by rewrite delete_insert_eq. }
  split; [|done].
  rewrite Ht1. f_equal. unfold backoff. apply map_ext. intros k.
  by rewrite Hzero.
Qed.

Lemma handle_rounds message : forall (rounds : nat) h0,
  retries (msg_id message) h0 = 0 ->
  0 <= maxRetries h0 ->
  exists h,
    for_of (replicate (rounds * S (Z.to_nat (maxRetries h0))) message) handle h0
    = (Normal tt, h) /\
    retryCount h
    = (if rounds is O then retryCount h0
       else delete (msg_id message) (retryCount h0)) /\
    map Retry.delay (timeouts h)
    = map Retry.delay (timeouts h0)
      ++ concat (replicate rounds
                   (backoff (retryDelay h0) (Z.to_nat (maxRetries h0)))).
Proof.
  induction rounds as [|rounds IH]; intros h0 Hzero Hmax.
  - exists h0. split; [reflexivity|]. split; [done|].
    by rewrite app_nil_r.
  - destruct (handle_round message h0 Hzero Hmax)
      as (h1 & Hrun1 & Hc1 & Ht1 & Hm1 & Hd1).
    destruct (IH h1) as (h & Hrun & Hc & Ht);
      [unfold retries; by rewrite Hc1, lookup_delete_eq|lia|].
    exists h.
    change (S rounds * S (Z.to_nat (maxRetries h0)))%nat
      with (S (Z.to_nat (maxRetries h0))
            + rounds * S (Z.to_nat (maxRetries h0)))%nat.
    rewrite replicate_add, for_of_app, Hrun1. rewrite Hm1 in Hrun.
    split; [exact Hrun|]. split.
    { rewrite Hc, Hc1. destruct rounds; [done|].
      apply map_eq. intros id. rewrite !lookup_delete.
      by case_decide. }
    rewrite Ht, Ht1, Hd1, Hm1, <- app_assoc. reflexivity.
Qed.

End RetryRounds.

(** X18.  The retry handler as shipped never brings a message to an end:
    every call below the limit fails and sets a timer, and the call at the
    limit drops the counter, so the next call for the same message starts
    over at attempt 0.  After any number of rounds of [maxRetries + 1]
    calls for a message on a new handler no counter is left, and the
    delays of the timers set are those of the backoff
    [retryDelay * 2^0 .. retryDelay * 2^(maxRetries - 1)], once per
    round. *)
Theorem retry_starts_over_after_drop
    (message : IMessage) (max delay : option Z) (rounds : nat) :
  0 <= default 3 max ->
  exists h,
    for_of (replicate (rounds * S (Z.to_nat (default 3 max))) message)
      Retry.handle (Retry.create max delay)
    = (Normal tt, h) /\
    Retry.retryCount h = ∅ /\
    map Retry.delay (Retry.timeouts h)
    = concat (replicate rounds
                (backoff (default 1000 delay) (Z.to_nat (default 3 max)))).
Proof.
  intros Hmax.
  destruct (handle_rounds message rounds (Retry.create max delay))
    as (h & Hrun & Hc & Ht); [reflexivity|exact Hmax|].
  exists h. split; [exact Hrun|]. split; [|exact Ht].
  rewrite Hc. destruct rounds; [reflexivity|]. apply delete_empty.
Qed.

Lemma retry_starts_over_after_drop_witness :
  0 <= default 3 None /\
  exists h,
    for_of (replicate 8 retry_message) Retry.handle (Retry.create None None)
    = (Normal tt, h) /\
    Retry.retryCount h = ∅ /\
    map Retry.delay (Retry.timeouts h)
    = [1000; 2000; 4000; 1000; 2000; 4000].
Proof.
  split; [simpl; lia|].
  apply (retry_starts_over_after_drop retry_message None None 2).
  simpl; lia.
Defined.



(** ** The validation handler *)

Section ValidationFacts.
Import Validation.

Lemma required_loop {S} message fields (s : S) :
  for_of fields
    (fun field =>
       if missing message field
       then throw (requiredError field message)
       else ret tt) s
  = (match List.find (missing message) fields with
     | Some field => Throw (requiredError field message)
     | None => Normal tt
     end, s).
Proof.
  induction fields as [|field fields IH]; [reflexivity|].
  cbn [for_of List.find]. unfold bind.
  destruct (missing message field); [reflexivity|]. exact IH.
Qed.

End ValidationFacts.

(** X20.  The validation handler accepts the messages whose type has a
    schema.  Handling one leaves every state as it is and throws exactly
    when a required field is missing, naming the first such field in the
    order of the schema; a field is missing when the message has no payload
    or the field is neither a property of the payload nor one every object
    inherits.  So a property whose value is [undefined] or [null] counts as
    present, and a schema without required fields accepts every message. *)
Theorem validation_reports_first_missing {S : Type}
    (h : Validation.ValidationHandler) (message : IMessage) (s : S) :
  match Validation.schemas h !! msg_type message with
  | None =>
      Validation.canHandle h message = false /\
      Validation.handle h message s = (Normal tt, s)
  | Some schema =>
      Validation.canHandle h message = true /\
      Validation.handle h message s
      = (match List.find (Validation.missing message) (required_fields schema) with
         | Some field => Throw (Validation.requiredError field message)
         | None => Normal tt
         end, s) /\
      ((Validation.handle h message s).1 = Normal tt
       <-> Forall (fun field => Validation.missing message field = false)
             (required_fields schema)) /\
      (forall field payload value,
          msg_payload message = Some payload ->
          payload !! field = Some value ->
          Validation.missing message field = false)
  end.
Proof.
  unfold Validation.canHandle, Validation.handle, required_fields.
  destruct (Validation.schemas h !! msg_type message) as [schema|] eqn:Hs;
    [|split; [by apply bool_decide_eq_false_2; intros [? ?]|reflexivity]].
  split; [by apply bool_decide_eq_true_2|].
  assert (Hrun : (match Validation.required schema with
                  | Some fields =>
                      if (0 <? length fields)%nat then
                        for_of fields
                          (fun field =>
                             if Validation.missing message field
                             then throw (Validation.requiredError field message)
                             else ret tt)
                      else ret tt
                  | None => ret tt
                  end) s
                 = (match List.find (Validation.missing message)
                            (default [] (Validation.required schema)) with
                    | Some field => Throw (Validation.requiredError field message)
                    | None => Normal tt
                    end, s)).
  { destruct (Validation.required schema) as [fields|]; [|reflexivity].
    cbn [default from_option]. unfold Datatypes.id.
    destruct fields as [|field fields]; [reflexivity|].
    cbn [length Nat.ltb Nat.leb]. apply required_loop. }
  split; [exact Hrun|]. split.
  - rewrite Hrun. cbn [fst].
    destruct (List.find _ _) as [field|] eqn:Hfind.
    + split; [done|]. intros Hall. apply find_some in Hfind as [Hin Hm].
      rewrite Forall_forall in Hall. apply list_elem_of_In in Hin.
      by rewrite (Hall field Hin) in Hm.
    + split; [|done]. intros _. apply Forall_forall. intros field Hin.
      apply list_elem_of_In in Hin.
      pose proof (find_none _ _ Hfind field Hin) as Hm. exact Hm.
  - intros field payload value Hp Hv. unfold Validation.missing, Validation.js_in.
    rewrite Hp, Hv. reflexivity.
Qed.

(** ** The health checker *)

Section HealthFacts.
Import Health.
Context {W : Type} {host : Manager.Host W}.





End HealthFacts.


(** ** The common middleware *)

Section MiddlewareFacts.
Import Integration.
Context {X : Type}.

Lemma Set_delete_head x ids :
  x ∉ ids -> Subscriptions.Set_delete x (x :: ids) = ids.
Proof.
  intros Hnot. unfold Subscriptions.Set_delete. cbn [List.filter].
  rewrite String.eqb_refl. cbn [negb].
  induction ids as [|y ids IH]; [reflexivity|].
  apply not_elem_of_cons in Hnot as [Hne Hnot]. cbn [List.filter].
  destruct (String.eqb_spec x y); [done|]. cbn [negb]. by rewrite IH.
Qed.

Lemma deleteAll_prefix old : forall rest,
  NoDup (old ++ rest) -> deleteAll old (old ++ rest) = rest.
Proof.
  induction old as [|x old IH]; intros rest Hnd; [reflexivity|].
  cbn [app] in Hnd. apply NoDup_cons in Hnd as [Hnot Hnd].
  unfold deleteAll. cbn [fold_left app]. rewrite Set_delete_head by done.
  by apply IH.
Qed.

Lemma deleteAll_take n ids :
  NoDup ids -> deleteAll (take n ids) ids = drop n ids.
Proof.
  intros Hnd. rewrite <- (take_drop n ids) at 2.
  apply deleteAll_prefix. by rewrite take_drop.
Qed.

Lemma seen_spec (id : string) ids :
  existsb (String.eqb id) ids = bool_decide (id ∈ ids).
Proof.
  induction ids as [|y ids IH]; [reflexivity|]. cbn [existsb]. rewrite IH.
  destruct (String.eqb_spec id y) as [->|Hne].
  - symmetry. apply bool_decide_eq_true_2. by left.
  - cbn [orb]. apply bool_decide_ext. rewrite elem_of_cons. tauto.
Qed.

Lemma Set_add_new (id : string) ids :
  id ∉ ids -> Subscriptions.Set_add id ids = ids ++ [id].
Proof.
  intros Hnot. unfold Subscriptions.Set_add.
  by rewrite seen_spec, bool_decide_eq_false_2.
Qed.

Lemma dedup_seen (next : M X unit) message ids x :
  msg_id message ∈ ids -> dedup next message (ids, x) = (Normal tt, (ids, x)).
Proof.
  intros Hin. unfold dedup, bind, gets. cbn [fst].
  by rewrite seen_spec, bool_decide_eq_true_2.
Qed.

Lemma dedup_new (next : M X unit) message ids x :
  msg_id message ∉ ids ->
  NoDup ids ->
  dedup next message (ids, x)
  = ((next x).1,
     (if Z.of_nat (length ids + 1) >? 10000
      then drop 1000 (ids ++ [msg_id message])
      else ids ++ [msg_id message],
      (next x).2)).
Proof.
  intros Hnot Hnd. unfold dedup, bind, gets, modify, when_, await_next, zoom.
  cbn [fst snd]. rewrite seen_spec, bool_decide_eq_false_2 by done.
  cbn [fst snd]. rewrite Set_add_new by done. rewrite length_app.
  cbn [length].
  destruct (Z.of_nat (length ids + 1) >? 10000); cbn [fst snd].
  - rewrite deleteAll_take; [by destruct (next x)|].
    apply NoDup_app. split; [done|]. split; [|apply NoDup_singleton].
    intros y Hy Hy'. apply list_elem_of_singleton in Hy'. by subst.
  - unfold ret. cbn [fst snd]. by destruct (next x).
Qed.

End MiddlewareFacts.

(** X22.  The deduplication middleware awaits [next()] for a message
    exactly when its id is not in the set of ids seen, and records the id
    before it does so: a message seen before is dropped without an error,
    also when the handlers failed when it came first.  The set never holds
    an id twice nor more than 10000 ids: the id that would be the 10001st
    makes the 1000 oldest ids leave, and is itself kept. *)
Theorem dedup_drops_seen_ids {X : Type}
    (next : M X unit) (message : IMessage) (ids : list string) (x : X) :
  NoDup ids ->
  Z.of_nat (length ids) <= 10000 ->
  (msg_id message ∈ ids ->
   Integration.dedup next message (ids, x) = (Normal tt, (ids, x))) /\
  (msg_id message ∉ ids ->
   exists ids',
     Integration.dedup next message (ids, x)
     = ((next x).1, (ids', (next x).2)) /\
     ids' = (if Z.of_nat (length ids) <? 10000 then ids ++ [msg_id message]
             else drop 1000 (ids ++ [msg_id message])) /\
     NoDup ids' /\
     Z.of_nat (length ids') <= 10000 /\
     msg_id message ∈ ids' /\
     Integration.dedup next message (ids', (next x).2)
     = (Normal tt, (ids', (next x).2))).
Proof.
  intros Hnd Hlen. split; [apply dedup_seen|]. intros Hnot.
  rewrite (dedup_new next message ids x Hnot Hnd).
  assert (Hnd' : NoDup (ids ++ [msg_id message])).
  { apply NoDup_app. split; [done|]. split; [|apply NoDup_singleton].
    intros y Hy Hy'. apply list_elem_of_singleton in Hy'. by subst. }
  eexists. split; [reflexivity|].
  assert (Hids : (if Z.of_nat (length ids + 1) >? 10000
                  then drop 1000 (ids ++ [msg_id message])
                  else ids ++ [msg_id message])
                 = (if Z.of_nat (length ids) <? 10000
                    then ids ++ [msg_id message]
                    else drop 1000 (ids ++ [msg_id message]))).
  { destruct (Z.gtb_spec (Z.of_nat (length ids + 1)) 10000),
      (Z.ltb_spec (Z.of_nat (length ids)) 10000); try reflexivity; lia. }
  rewrite Hids. split; [reflexivity|].
  assert (Hin : msg_id message
                ∈ (if Z.of_nat (length ids) <? 10000
                   then ids ++ [msg_id message]
                   else drop 1000 (ids ++ [msg_id message]))).
  { destruct (Z.ltb_spec (Z.of_nat (length ids)) 10000) as [Hlt|Hge].
    - apply elem_of_app. right. by left.
    - rewrite drop_app_le by lia. apply elem_of_app. right. by left. }
  split; [|split; [|split; [exact Hin|by apply dedup_seen]]].
  - destruct (Z.of_nat (length ids) <? 10000); [done|].
    rewrite <- (take_drop 1000 (ids ++ [msg_id message])) in Hnd'.
    by apply NoDup_app in Hnd' as (_ & _ & Hnd').
  - destruct (Z.ltb_spec (Z.of_nat (length ids)) 10000) as [Hlt|Hge].
    + rewrite length_app. simpl. lia.
    + rewrite length_drop, length_app. simpl. lia.
Qed.

Lemma dedup_drops_seen_ids_witness :
  NoDup ["m1"; "m2"] /\
  Z.of_nat (length ["m1"; "m2"]) <= 10000 /\
  Integration.dedup (throw "handler failed") (message_of_user "m2" JSUndefined)
    (["m1"; "m2"], tt)
  = (Normal tt, (["m1"; "m2"], tt)).
Proof.
  assert (Hnd : NoDup ["m1"; "m2"]).
  { apply NoDup_cons. split; [|apply NoDup_singleton].
    intros Hin. apply list_elem_of_singleton in Hin. discriminate. }
  assert (Hlen : Z.of_nat (length ["m1"; "m2"]) <= 10000) by (simpl; lia).
  split; [exact Hnd|]. split; [exact Hlen|].
  apply (dedup_drops_seen_ids (throw "handler failed")
           (message_of_user "m2" JSUndefined) ["m1"; "m2"] tt Hnd Hlen).
  right; left.
Defined.

(** ** The rate limiter *)

Section RateLimitFacts.
Import Integration.

Lemma rateLimit_step {X : Type} now (next : M X unit) message limiter x :
  rateLimit now next message (limiter, x)
  = if count (current_entry now (rateLimitKey message) limiter) >=? limit
    then (Throw ("Rate limit exceeded for " +:+ rateLimitKey message),
          (limiter, x))
    else ((next x).1,
          (<[rateLimitKey message :=
               counted (current_entry now (rateLimitKey message) limiter)]>
             limiter,
           (next x).2)).
Proof.
  unfold rateLimit, bind, gets, modify, throw, await_next, zoom, current_entry,
    counted.
  cbn [fst snd].
  destruct (count _ >=? limit); [reflexivity|]. cbn [fst snd].
  by destruct (next x).
Qed.

Lemma limited_within message : forall times limiter c R,
  limiter !! rateLimitKey message = Some {| count := c; resetTime := R |} ->
  0 <= c <= 100 ->
  Forall (fun now => now <= R) times ->
  (limited times message limiter).1
  = replicate (Nat.min (length times) (Z.to_nat (100 - c))) true
    ++ replicate (length times - Z.to_nat (100 - c)) false /\
  (limited times message limiter).2 !! rateLimitKey message
  = Some {| count := Z.min (c + Z.of_nat (length times)) 100; resetTime := R |}.
Proof.
  induction times as [|now times IH]; intros limiter c R Hentry Hc Hall.
  - split; [reflexivity|]. cbn. rewrite Hentry. do 2 f_equal. lia.
  - apply Forall_cons in Hall as [Hnow Hall]. cbn [limited].
    rewrite rateLimit_step. unfold current_entry. rewrite Hentry.
    cbn [default from_option]. unfold Datatypes.id. cbn [resetTime count].
    destruct (Z.gtb_spec now R) as [|_]; [lia|]. cbn [count].
    unfold limit. destruct (Z.geb_spec c 100) as [Hfull|Hroom].
    + assert (c = 100) by lia. subst c. cbn [fst snd].
      destruct (IH limiter 100 R Hentry Hc Hall) as [Hout Hfin].
      destruct (limited times message limiter) as [outcomes final].
      cbn [fst snd completed] in *. rewrite Hout, Hfin.
      change (Z.to_nat (100 - 100)) with 0%nat.
      rewrite !Nat.min_0_r, !Nat.sub_0_r. cbn [replicate app length].
      split; [reflexivity|]. do 2 f_equal. lia.
    + cbn [fst snd]. unfold counted. cbn [count resetTime].
      destruct (IH (<[rateLimitKey message :=
                        {| count := c + 1; resetTime := R |}]> limiter)
                  (c + 1) R) as [Hout Hfin];
        [by rewrite lookup_insert_eq|lia|exact Hall|].
      destruct (limited times message _) as [outcomes final].
      cbn [fst snd completed ret] in *. rewrite Hout, Hfin.
      replace (Z.to_nat (100 - c)) with (S (Z.to_nat (100 - (c + 1)))) by lia.
      cbn [length Nat.min Nat.sub replicate app].
      split; [reflexivity|]. do 2 f_equal. lia.
Qed.

Lemma limited_first message first times limiter :
  limiter !! rateLimitKey message = None ->
  limited (first :: times) message limiter
  = (true
     :: (limited times message
           (<[rateLimitKey message :=
                {| count := 1; resetTime := first + 60000 |}]> limiter)).1,
     (limited times message
        (<[rateLimitKey message :=
             {| count := 1; resetTime := first + 60000 |}]> limiter)).2).
Proof.
  intros Hnone. cbn [limited]. rewrite rateLimit_step.
  unfold current_entry. rewrite Hnone.
  cbn [default from_option resetTime count]. unfold window, limit.
  destruct (Z.gtb_spec first (first + 60000)) as [|_]; [lia|].
  cbn [count resetTime Z.geb Z.compare fst snd ret counted Z.add Pos.add].
  by destruct (limited times message _).
Qed.

End RateLimitFacts.

(** X23.  The rate limiter lets a key through 100 times in a window of
    60000 ms that starts with the key's first call: of the calls made up
    to the end of the window the first 100 are passed on and every later
    one throws "Rate limit exceeded" without awaiting [next()].  The first
    call after the window is passed on again and starts a new window.  The
    key is [metadata.userId] as a string, and ["anonymous"] when it is
    missing or falsy. *)
Theorem rate_limit_first_hundred
    (message : IMessage) (limiter : gmap string Integration.UserData)
    (first : Z) (times : list Z) :
  limiter !! Integration.rateLimitKey message = None ->
  Forall (fun now => now <= first + 60000) times ->
  (limited (first :: times) message limiter).1
  = true :: replicate (Nat.min (length times) 99) true
    ++ replicate (length times - 99) false /\
  (forall (X : Type) (next : M X unit) (x : X) (late : Z),
      first + 60000 < late ->
      Integration.rateLimit late next message
        ((limited (first :: times) message limiter).2, x)
      = ((next x).1,
         (<[Integration.rateLimitKey message :=
              {| Integration.count := 1;
                 Integration.resetTime := late + 60000 |}]>
            (limited (first :: times) message limiter).2,
          (next x).2))) /\
  (forall other,
      truthy (opt_index (msg_metadata other) "userId") = false ->
      Integration.rateLimitKey other = "anonymous").
Proof.
  intros Hnone Hall. rewrite (limited_first message first times limiter Hnone).
  destruct (limited_within message times
              (<[Integration.rateLimitKey message :=
                   {| Integration.count := 1;
                      Integration.resetTime := first + 60000 |}]> limiter)
              1 (first + 60000)) as [Hout Hfin];
    [by rewrite lookup_insert_eq|lia|exact Hall|].
  destruct (limited times message _) as [outcomes final].
  cbn [fst snd completed] in *. rewrite Hout.
  split; [reflexivity|]. split.
  2: { intros other Hfalsy. unfold Integration.rateLimitKey, js_or.
       by rewrite Hfalsy. }
  intros X next x late Hlate. rewrite rateLimit_step.
  unfold current_entry. rewrite Hfin.
  cbn [default from_option].
  unfold Datatypes.id, Integration.window, Integration.limit.
  cbn [Integration.resetTime Integration.count].
  destruct (Z.gtb_spec late (first + 60000)) as [_|]; [|lia].
  reflexivity.
Qed.

Lemma rate_limit_first_hundred_witness :
  (∅ : gmap string Integration.UserData)
    !! Integration.rateLimitKey (message_of_user "m1" (JSNumber 42)) = None /\
  Forall (fun now => now <= 1000 + 60000) [1500; 61000] /\
  (limited [1000; 1500; 61000] (message_of_user "m1" (JSNumber 42)) ∅).1
  = [true; true; true].
Proof.
  assert (Hall : Forall (fun now => now <= 1000 + 60000) [1500; 61000])
    by (repeat constructor; lia).
  assert (Hnone :
    (∅ : gmap string Integration.UserData)
      !! Integration.rateLimitKey (message_of_user "m1" (JSNumber 42)) = None)
    by apply lookup_empty.
  split; [exact Hnone|]. split; [exact Hall|].
  apply (rate_limit_first_hundred (message_of_user "m1" (JSNumber 42)) ∅ 1000
           [1500; 61000] Hnone Hall).
Defined.

(** X24.  In the chain of [setupCommonMiddleware] the rate limiter runs
    before the deduplication.  So a message that is a duplicate still
    counts against the limit of its key although no handler runs for it,
    and a message turned away by the limiter is not recorded as seen: when
    it comes again after the window it is handled. *)
Theorem duplicates_count_against_limit {X : Type}
    (now : Z) (handlers : M X unit) (message : IMessage)
    (limiter : gmap string Integration.UserData) (ids : list string) (x : X)
    (c R : Z) :
  limiter !! Integration.rateLimitKey message
  = Some {| Integration.count := c; Integration.resetTime := R |} ->
  now <= R ->
  (c < 100 ->
   msg_id message ∈ ids ->
   Integration.limitThenDedup now handlers message (limiter, (ids, x))
   = (Normal tt,
      (<[Integration.rateLimitKey message :=
           {| Integration.count := c + 1; Integration.resetTime := R |}]>
         limiter,
       (ids, x)))) /\
  (100 <= c ->
   Integration.limitThenDedup now handlers message (limiter, (ids, x))
   = (Throw ("Rate limit exceeded for " +:+ Integration.rateLimitKey message),
      (limiter, (ids, x)))).
Proof.
  intros Hentry Hnow. unfold Integration.limitThenDedup.
  rewrite rateLimit_step. unfold current_entry. rewrite Hentry.
  cbn [default from_option].
  unfold Datatypes.id, Integration.limit.
  cbn [Integration.resetTime Integration.count].
  destruct (Z.gtb_spec now R) as [|_]; [lia|]. cbn [Integration.count].
  split.
  - intros Hc Hin. destruct (Z.geb_spec c 100); [lia|].
    rewrite (dedup_seen handlers message ids x Hin). reflexivity.
  - intros Hc. destruct (Z.geb_spec c 100); [reflexivity|lia].
Qed.

Lemma duplicates_count_against_limit_witness :
  ({[ "42" := {| Integration.count := 7; Integration.resetTime := 9000 |} ]}
     : gmap string Integration.UserData)
    !! Integration.rateLimitKey (message_of_user "m1" (JSNumber 42))
  = Some {| Integration.count := 7; Integration.resetTime := 9000 |} /\
  Integration.limitThenDedup 5000 (throw "handler failed")
    (message_of_user "m1" (JSNumber 42))
    ({[ "42" := {| Integration.count := 7; Integration.resetTime := 9000 |} ]},
     (["m1"], tt))
  = (Normal tt,
     (<[ "42" := {| Integration.count := 8; Integration.resetTime := 9000 |} ]>
        {[ "42" := {| Integration.count := 7;
                      Integration.resetTime := 9000 |} ]},
      (["m1"], tt))).
Proof.
  assert (Hentry :
    ({[ "42" := {| Integration.count := 7; Integration.resetTime := 9000 |} ]}
       : gmap string Integration.UserData)
      !! Integration.rateLimitKey (message_of_user "m1" (JSNumber 42))
    = Some {| Integration.count := 7; Integration.resetTime := 9000 |})
    by (vm_compute; reflexivity).
  split; [exact Hentry|].
  apply (duplicates_count_against_limit 5000 (throw "handler failed")
           (message_of_user "m1" (JSNumber 42))
           {[ "42" := {| Integration.count := 7;
                         Integration.resetTime := 9000 |} ]}
           ["m1"] tt 7 9000 Hentry); [lia|lia|by left].
Defined.

(** ** Connecting and the timers of the manager *)

Section LifecycleFacts.
Import Lifecycle.
Context {W : Type} {adapter : Manager.IBrokerAdapter W} {host : Manager.Host W}.
Variable getMetrics : option (M W JSRecord).
Variable config : IBrokerConfig.
Implicit Types c : Connection W.

Lemma timers_of_manager kind (x : Manager.UniversalMessageManager W) c :
  timers_of kind (set_manager x c) = timers_of kind c.
Proof. reflexivity. Qed.

Lemma same_handle (l : list Interval) a b :
  NoDup (map handle l) -> a ∈ l -> b ∈ l -> handle a = handle b -> a = b.
Proof.
  induction l as [|x l IH]; intros Hnd Ha Hb Heq; [by apply elem_of_nil in Ha|].
  cbn [map] in Hnd. apply NoDup_cons in Hnd as [Hnot Hnd].
  apply elem_of_cons in Ha as [->|Ha], Hb as [->|Hb]; [done| | |by apply IH].
  - exfalso. apply Hnot. rewrite Heq. by apply list_elem_of_fmap_2.
  - exfalso. apply Hnot. rewrite <- Heq. by apply list_elem_of_fmap_2.
Qed.

Lemma adapterCall_run {A} (call : M W A) c :
  exists x,
    adapterCall call c = ((call (Manager.world (manager c))).1, set_manager x c).
Proof.
  unfold adapterCall, zoom. destruct (call _) as [r w]. by eexists.
Qed.

Lemma startProcessing_run c :
  timers_consistent config c ->
  exists c',
    startProcessing config c = (Normal tt, c') /\
    timers_consistent config c' /\
    is_Some (processingInterval c') /\
    manager c' = manager c /\
    timers_of MetricsPoll c' = timers_of MetricsPoll c.
Proof.
  intros (Hp & Hlt & Hnd & Hpoll). unfold startProcessing, bind, gets.
  destruct (processingInterval c) as [h|] eqn:Hrun.
  - exists c. split; [reflexivity|]. split; [|split; [by rewrite Hrun|done]].
    split; [by rewrite Hrun|done].
  - unfold setInterval, modify, set_processingInterval.
    cbn [manager processingInterval intervals nextHandle].
    eexists. split; [reflexivity|].
    cbn [manager processingInterval intervals nextHandle].
    split; [|split; [by eexists|split; [done|]]].
    + split; [|split; [|split]].
      * unfold timers_of in *. cbn [intervals processingInterval].
        rewrite List.filter_app, Hp. reflexivity.
      * cbn [intervals nextHandle]. apply Forall_app. split.
        -- eapply Forall_impl; [exact Hlt|]. cbn. intros; lia.
        -- repeat constructor.
      * cbn [intervals]. rewrite map_app. apply NoDup_app.
        split; [done|]. split; [|apply NoDup_singleton].
        intros h Hin Hh. apply list_elem_of_singleton in Hh. subst h.
        apply list_elem_of_fmap in Hin as (i & Hi & Hin).
        rewrite Forall_forall in Hlt. specialize (Hlt i Hin).
        cbn [handle] in Hi. lia.
      * unfold timers_of in *. cbn [intervals].
        rewrite List.filter_app. cbn. by rewrite app_nil_r.
    + unfold timers_of. cbn [intervals]. rewrite List.filter_app. cbn.
      by rewrite app_nil_r.
Qed.

Lemma poller_set_run c :
  timers_consistent config c ->
  exists c',
    (setInterval MetricsPoll 30000;;; ret tt)%js c = (Normal tt, c') /\
    timers_consistent config c' /\
    processingInterval c' = processingInterval c /\
    length (timers_of MetricsPoll c') = S (length (timers_of MetricsPoll c)).
Proof.
  intros (Hp & Hlt & Hnd & Hpoll). unfold bind, setInterval, ret.
  eexists. split; [reflexivity|].
  cbn [manager processingInterval intervals nextHandle].
  split; [|split; [done|]].
  - split; [|split; [|split]].
    + unfold timers_of in *. cbn [intervals processingInterval].
      rewrite List.filter_app, Hp. cbn. by rewrite app_nil_r.
    + cbn [intervals nextHandle]. apply Forall_app. split.
      * eapply Forall_impl; [exact Hlt|]. cbn. intros; lia.
      * repeat constructor.
    + cbn [intervals]. rewrite map_app. apply NoDup_app.
      split; [done|]. split; [|apply NoDup_singleton].
      intros h Hin Hh. apply list_elem_of_singleton in Hh. subst h.
      apply list_elem_of_fmap in Hin as (i & Hi & Hin).
      rewrite Forall_forall in Hlt. specialize (Hlt i Hin).
        cbn [handle] in Hi. lia.
    + unfold timers_of in *. cbn [intervals]. rewrite List.filter_app.
      apply Forall_app. split; [done|]. by repeat constructor.
  - unfold timers_of. cbn [intervals]. rewrite List.filter_app, length_app.
    cbn. lia.
Qed.

Lemma stopProcessing_run c :
  timers_consistent config c ->
  exists c',
    stopProcessing c = (Normal tt, c') /\
    timers_consistent config c' /\
    processingInterval c' = None /\
    intervals c' = timers_of MetricsPoll c /\
    manager c' = manager c /\
    timers_of MetricsPoll c' = timers_of MetricsPoll c.
Proof.
  intros (Hp & Hlt & Hnd & Hpoll). unfold stopProcessing, bind, gets.
  assert (Hsplit : forall l : list Interval,
    List.filter (fun i => match kind i with MetricsPoll => true | _ => false end)
      (List.filter (fun i => match kind i with MetricsPoll => true | _ => false end) l)
    = List.filter (fun i => match kind i with MetricsPoll => true | _ => false end) l).
  { induction l as [|[h d []] l IH]; cbn; by rewrite ?IH. }
  destruct (processingInterval c) as [h|] eqn:Hrun.
  - unfold clearInterval, modify, set_processingInterval.
    cbn [manager processingInterval intervals nextHandle].
    assert (Hkeep : List.filter (fun i => negb (Nat.eqb (handle i) h)) (intervals c)
                    = timers_of MetricsPoll c).
    { assert (Hin : {| handle := h; delay := processingDelay config;
                       kind := Processing |} ∈ intervals c).
      { assert (Hin' : {| handle := h; delay := processingDelay config;
                          kind := Processing |} ∈ timers_of Processing c)
          by (rewrite Hp; by left).
        unfold timers_of in Hin'. apply list_elem_of_In in Hin'.
        apply filter_In in Hin' as [Hin' _]. by apply list_elem_of_In. }
      unfold timers_of. apply List.filter_ext_in. intros i Hi.
      apply list_elem_of_In in Hi.
      destruct (Nat.eqb_spec (handle i) h) as [Heq|Hne]; cbn [negb].
      - rewrite (same_handle (intervals c) i _ Hnd Hi Hin Heq). reflexivity.
      - destruct (kind i) eqn:Hk; [|reflexivity]. exfalso.
        assert (Hi' : i ∈ timers_of Processing c).
        { unfold timers_of. apply list_elem_of_In, filter_In.
          split; [by apply list_elem_of_In|by rewrite Hk]. }
        rewrite Hp in Hi'. apply list_elem_of_singleton in Hi'.
        subst i. by cbn in Hne. }
    eexists. split; [reflexivity|].
    cbn [manager processingInterval intervals nextHandle]. rewrite Hkeep.
    split; [|split; [done|split; [done|split; [done|]]]].
    + split; [|split; [|split]].
      * unfold timers_of. cbn [intervals processingInterval].
        clear. induction (intervals c) as [|[h d []] l IH]; cbn; by rewrite ?IH.
      * cbn [intervals nextHandle]. apply Forall_forall. intros i Hi.
        unfold timers_of in Hi. apply list_elem_of_In in Hi.
        apply filter_In in Hi as [Hi _]. apply list_elem_of_In in Hi.
        rewrite Forall_forall in Hlt. by apply Hlt.
      * cbn [intervals]. unfold timers_of. clear -Hnd.
        induction (intervals c) as [|i l IH]; [constructor|].
        cbn [map] in Hnd. apply NoDup_cons in Hnd as [Hnot Hnd].
        cbn [List.filter]. destruct (kind i); [by apply IH|].
        cbn [map]. apply NoDup_cons. split; [|by apply IH].
        intros Hin. apply Hnot. apply list_elem_of_fmap in Hin as (j & -> & Hj).
        apply list_elem_of_fmap_2. apply list_elem_of_In in Hj.
        apply filter_In in Hj as [Hj _]. by apply list_elem_of_In.
      * unfold timers_of at 1. cbn [intervals]. unfold timers_of.
        rewrite Hsplit. exact Hpoll.
    + unfold timers_of at 1. cbn [intervals]. unfold timers_of. apply Hsplit.
  - exists c. split; [reflexivity|]. split; [by split; [rewrite Hrun|]|].
    split; [done|]. split; [|done].
    unfold timers_of in *. clear -Hp.
    induction (intervals c) as [|[h d []] l IH]; cbn in *;
      [done|discriminate|by rewrite <- IH].
Qed.

Lemma connect_run c :
  timers_consistent config c ->
  exists c',
    connect getMetrics config c
    = ((Manager.adapter_connect (Manager.world (manager c))).1, c') /\
    timers_consistent config c' /\
    match (Manager.adapter_connect (Manager.world (manager c))).1 with
    | Normal _ =>
        is_Some (processingInterval c') /\
        length (timers_of MetricsPoll c')
        = match getMetrics with
          | Some _ => S (length (timers_of MetricsPoll c))
          | None => length (timers_of MetricsPoll c)
          end
    | Throw _ =>
        processingInterval c' = processingInterval c /\
        intervals c' = intervals c
    end.
Proof.
  intros Hc. unfold connect, bind.
  destruct (adapterCall_run Manager.adapter_connect c) as [x ->].
  destruct (Manager.adapter_connect _) as [[[]|e] w]; cbn [fst].
  - destruct (startProcessing_run (set_manager x c)) as (c1 & -> & Hc1 & Hp1 & _ & Ht1);
      [exact Hc|].
    rewrite timers_of_manager in Ht1.
    destruct getMetrics as [get|].
    + destruct (poller_set_run c1 Hc1) as (c2 & Hrun2 & Hc2 & Hp2 & Hlen2).
      unfold bind in Hrun2. rewrite Hrun2. exists c2. split; [reflexivity|].
      split; [exact Hc2|]. split; [by rewrite Hp2|]. by rewrite Hlen2, Ht1.
    + exists c1. split; [reflexivity|]. split; [exact Hc1|].
      split; [exact Hp1|by rewrite Ht1].
  - eexists. split; [reflexivity|]. split; [exact Hc|done].
Qed.

Lemma disconnect_run c :
  timers_consistent config c ->
  exists c',
    disconnect c
    = ((Manager.adapter_disconnect (Manager.world (manager c))).1, c') /\
    timers_consistent config c' /\
    processingInterval c' = None /\
    intervals c' = timers_of MetricsPoll c /\
    timers_of MetricsPoll c' = timers_of MetricsPoll c.
Proof.
  intros Hc. unfold disconnect, bind.
  destruct (stopProcessing_run c Hc) as (c1 & -> & Hc1 & Hp1 & Hi1 & Hm1 & Ht1).
  destruct (adapterCall_run Manager.adapter_disconnect c1) as [x ->].
  rewrite Hm1. exists (set_manager x c1). split.
  - by destruct (Manager.adapter_disconnect _) as [[[]|e] w].
  - done.
Qed.

Lemma run_consistent calls : forall c,
  timers_consistent config c ->
  timers_consistent config (run getMetrics config calls c).1 /\
  length (timers_of MetricsPoll (run getMetrics config calls c).1)
  = (length (timers_of MetricsPoll c)
     + match getMetrics with
       | Some _ => connected calls (run getMetrics config calls c).2
       | None => 0
       end)%nat.
Proof.
  induction calls as [|call calls IH]; intros c Hc.
  - split; [exact Hc|]. cbn. destruct getMetrics; lia.
  - cbn [run]. destruct call; cbn [perform].
    + destruct (connect_run c Hc) as (c' & Hrun & Hc' & Hcase). rewrite Hrun.
      destruct (IH c' Hc') as [Hfin Hlen].
      destruct (run getMetrics config calls c') as [final results].
      cbn [fst snd] in *. split; [exact Hfin|]. rewrite Hlen.
      destruct (Manager.adapter_connect _) as [[[]|e] w];
        cbn [fst completed connected] in *.
      * destruct Hcase as [_ Hpoll]. rewrite Hpoll. destruct getMetrics; lia.
      * destruct Hcase as [_ Hsame]. unfold timers_of. by rewrite Hsame.
    + destruct (disconnect_run c Hc) as (c' & Hrun & Hc' & _ & _ & Hpoll).
      rewrite Hrun. destruct (IH c' Hc') as [Hfin Hlen].
      destruct (run getMetrics config calls c') as [final results].
      cbn [fst snd] in *. split; [exact Hfin|]. rewrite Hlen, Hpoll.
      by destruct (Manager.adapter_disconnect _) as [[[]|e] w].
Qed.

Lemma run_app calls calls' c :
  run getMetrics config (calls ++ calls') c
  = ((run getMetrics config calls' (run getMetrics config calls c).1).1,
     (run getMetrics config calls c).2
     ++ (run getMetrics config calls' (run getMetrics config calls c).1).2).
Proof.
  revert c. induction calls as [|call calls IH]; intros c.
  - cbn. by destruct (run getMetrics config calls' c).
  - cbn [app run]. destruct (perform getMetrics config call c) as [r c'].
    rewrite IH. destruct (run getMetrics config calls c') as [c1 r1].
    cbn [fst snd]. by destruct (run getMetrics config calls' c1).
Qed.

Lemma create_consistent (w : W) : timers_consistent config (create w).
Proof. split; [reflexivity|]. repeat split; constructor. Qed.

End LifecycleFacts.

(** X25.  Through any run of [connect] and [disconnect] calls the manager
    has at most one processing interval: the one it holds in
    [processingInterval], with a delay of 10 ms when
    [features.persistence] is set and 1 ms otherwise, so a second
    [connect] does not start a second one.  [disconnect] clears it also
    when the adapter fails to disconnect.  An adapter with [getMetrics]
    gets one more metrics interval of 30 s with every [connect] that
    completed, and none of them is ever cleared: after a [disconnect] they
    are the intervals still running. *)
Theorem connect_keeps_one_processing_interval
    {W : Type} {adapter : Manager.IBrokerAdapter W} {host : Manager.Host W}
    (getMetrics : option (M W JSRecord)) (config : Lifecycle.IBrokerConfig)
    (calls : list Lifecycle.Call) (w : W) :
  let final := (Lifecycle.run getMetrics config calls (Lifecycle.create w)).1 in
  let results := (Lifecycle.run getMetrics config calls (Lifecycle.create w)).2 in
  timers_of Lifecycle.Processing final
  = match Lifecycle.processingInterval final with
    | Some h =>
        [{| Lifecycle.handle := h;
            Lifecycle.delay := Lifecycle.processingDelay config;
            Lifecycle.kind := Lifecycle.Processing |}]
    | None => []
    end /\
  length (timers_of Lifecycle.MetricsPoll final)
  = match getMetrics with
    | Some _ => connected calls results
    | None => 0%nat
    end /\
  Forall (fun i => Lifecycle.delay i = 30000)
    (timers_of Lifecycle.MetricsPoll final) /\
  (forall before,
      calls = before ++ [Lifecycle.Disconnect] ->
      Lifecycle.processingInterval final = None /\
      Lifecycle.intervals final = timers_of Lifecycle.MetricsPoll final) /\
  (forall before,
      calls = before ++ [Lifecycle.Connect] ->
      last results = Some true ->
      is_Some (Lifecycle.processingInterval final)).
Proof.
  intros final results.
  destruct (run_consistent getMetrics config calls (Lifecycle.create w)
              (create_consistent config w)) as [(Hp & _ & _ & Hpoll) Hlen].
  fold final results in Hp, Hpoll, Hlen.
  split; [exact Hp|]. split; [exact Hlen|]. split; [exact Hpoll|]. split.
  - intros before Heq. subst final results calls. rewrite run_app.
    cbn [fst snd Lifecycle.run Lifecycle.perform].
    destruct (run_consistent getMetrics config before (Lifecycle.create w)
                (create_consistent config w)) as [Hc _].
    destruct (disconnect_run config _ Hc) as (c' & -> & _ & Hnone & Hi & Ht).
    cbn [fst snd]. split; [exact Hnone|]. by rewrite Ht.
  - intros before Heq. subst final results calls. rewrite run_app.
    cbn [fst snd Lifecycle.run Lifecycle.perform].
    destruct (run_consistent getMetrics config before (Lifecycle.create w)
                (create_consistent config w)) as [Hc _].
    destruct (connect_run getMetrics config _ Hc) as (c' & -> & _ & Hcase).
    cbn [fst snd]. rewrite last_snoc. intros [= Hok].
    destruct (Manager.adapter_connect _) as [[[]|e] w']; cbn in *;
      [by destruct Hcase|discriminate].
Qed.

(** ** The manager over the Redis adapter *)

Section ManagerUnfold.
Import Manager.
Context {W : Type} {adapter : IBrokerAdapter W} {host : Host W}.

Lemma manager_subscribe_unfold (m : UniversalMessageManager W) topic options :
  subscriptions_consistent (subscriptionManager m) ->
  Manager.subscribe topic options m
  = (outcome
       (adapter_subscribe topic (options ≫= consumerGroup)
          (options ≫= queueGroup) (Math_random_tag (world m)).2).1
       (subscription_id (world m)),
     set_world
       (adapter_subscribe topic (options ≫= consumerGroup)
          (options ≫= queueGroup) (Math_random_tag (world m)).2).2
       (set_subscriptionManager
          (Subscriptions.subscribe
             {| Subscriptions.sub_id := subscription_id (world m);
                Subscriptions.sub_topic := topic;
                Subscriptions.sub_filters := options ≫= filters;
                Subscriptions.sub_consumerGroup := options ≫= consumerGroup;
                Subscriptions.sub_queueGroup := options ≫= queueGroup |}
             (subscriptionManager m)).2
          (set_world (Math_random_tag (world m)).2 m))).
Proof.
  intros Hc. unfold Manager.subscribe, bind.
  rewrite fresh_id_run. unfold zoom, ret.
  cbn [subscriptionManager set_world].
  change ("sub" +:+ "_" +:+ pretty (Date_now (world m)) +:+ "_"
          +:+ (Math_random_tag (world m)).1) with (subscription_id (world m)).
  rewrite (subscribe_run _ _ Hc).
  cbn [fst snd world set_subscriptionManager set_world].
  by destruct (adapter_subscribe _ _ _ _) as [[adapterId|e] w'].
Qed.

Lemma manager_unsubscribe_unfold (m : UniversalMessageManager W) topic id :
  subscriptions_consistent (subscriptionManager m) ->
  is_Some (find_subscription topic id (subscriptionManager m)) ->
  Manager.unsubscribe topic id m
  = (outcome (adapter_unsubscribe id (world m)).1 true,
     set_world (adapter_unsubscribe id (world m)).2
       (set_subscriptionManager
          (Subscriptions.unsubscribe topic id (subscriptionManager m)).2 m)).
Proof.
  intros Hc [old Hold]. unfold Manager.unsubscribe, bind, zoom, when_, ret.
  rewrite (unsubscribe_run topic id _ Hc). unfold find_subscription in Hold.
  destruct (JSMap.get topic (Subscriptions.subscriptions (subscriptionManager m)))
    as [subs|]; [|done]. cbn [mbind option_bind] in Hold.
  unfold JSMap.has. rewrite Hold. cbn [fst snd world set_subscriptionManager].
  by destruct (adapter_unsubscribe id (world m)) as [[answer|e] w'].
Qed.

End ManagerUnfold.

Lemma unsubscribe_gone topic id s :
  subscriptions_consistent s ->
  find_subscription topic id (Subscriptions.unsubscribe topic id s).2 = None.
Proof.
  intros Hc. rewrite (unsubscribe_run topic id s Hc).
  destruct Hc as (Hnd & Hkeys & Hall).
  destruct (JSMap.get topic (Subscriptions.subscriptions s)) as [subs|] eqn:Hsubs.
  - destruct (Hall topic subs Hsubs) as (_ & Hnds & _). cbn [snd].
    destruct (Nat.eqb (length (JSMap.delete id subs)) 0).
    + unfold find_subscription. cbn [Subscriptions.subscriptions].
      rewrite get_delete by done. by rewrite String.eqb_refl.
    + rewrite find_subscription_set, String.eqb_refl.
      rewrite get_delete by done. by rewrite String.eqb_refl.
  - cbn [snd]. unfold find_subscription. by rewrite Hsubs.
Qed.

Section RedisFacts.
Context {C : Type} {client : Redis.Client C} {host : Manager.Host C}.

Lemma redis_unsubscribe_unknown (a : Redis.RedisAdapter C) id :
  redis_ids a ->
  starts_with "redis_sub_" id = false ->
  Redis.unsubscribe id a = (Normal false, a).
Proof.
  intros Hids Hid. unfold Redis.unsubscribe, bind, gets.
  assert (Hnone : JSMap.get id (Redis.subscriptions a) = None).
  { apply has_get, has_false. intros Hin. unfold redis_ids in Hids.
    rewrite Forall_forall in Hids. specialize (Hids id Hin). congruence. }
  by rewrite Hnone.
Qed.

Lemma redis_subscribe_run (a : Redis.RedisAdapter C) topic :
  redis_ids a ->
  match Redis.subscribe topic a with
  | (Normal adapterId, a') =>
      starts_with "redis_sub_" adapterId = true /\
      JSMap.get adapterId (Redis.subscriptions a') = Some topic /\
      redis_ids a'
  | (Throw _, a') => Redis.subscriptions a' = Redis.subscriptions a
  end.
Proof.
  intros Hids. unfold Redis.subscribe, Redis.fresh_id, bind, gets, modify, ret,
    Redis.onClients, zoom.
  cbn [Redis.clients Redis.set_clients].
  destruct (Manager.Math_random_tag (Redis.clients a)) as [tag c1].
  cbn [Redis.clients Redis.set_clients].
  destruct (Redis.subscriber_subscribe topic c1) as [[[]|e] c2];
    cbn [Redis.subscriptions Redis.clients Redis.listeners]; [|reflexivity].
  split; [reflexivity|]. split; [by rewrite get_set, String.eqb_refl|].
  unfold redis_ids in *. cbn [Redis.subscriptions]. rewrite keys_set.
  destruct (JSMap.has _ _); [exact Hids|].
  apply Forall_app. split; [exact Hids|]. by repeat constructor.
Qed.

End RedisFacts.

(** X26.  The Redis adapter knows a subscription by an id of its own,
    ["redis_sub_..."], which the manager drops; the manager hands its own
    id, ["sub_..."], to [adapter.unsubscribe], and the adapter knows no
    such id.  So after [subscribe] through the manager, [unsubscribe]
    through the manager returns [true] and removes the subscription from
    the subscription manager, while the adapter answers [false] without a
    call to its clients and keeps its subscription of the topic. *)
Theorem redis_subscription_outlives_unsubscribe
    {C : Type} {client : Redis.Client C} {host : Manager.Host C}
    (m m1 : Manager.UniversalMessageManager (Redis.RedisAdapter C))
    (topic id : string) (options : option Manager.SubscribeOptions) :
  subscriptions_consistent (Manager.subscriptionManager m) ->
  redis_ids (Manager.world m) ->
  Manager.subscribe (adapter := Redis.adapter) (host := Redis.adapter_host)
    topic options m = (Normal id, m1) ->
  starts_with "redis_sub_" id = false /\
  redis_ids (Manager.world m1) /\
  (exists adapterId,
      starts_with "redis_sub_" adapterId = true /\
      JSMap.get adapterId (Redis.subscriptions (Manager.world m1))
      = Some topic) /\
  exists m2,
    Manager.unsubscribe (adapter := Redis.adapter) topic id m1
    = (Normal true, m2) /\
    Manager.world m2 = Manager.world m1 /\
    find_subscription topic id (Manager.subscriptionManager m2) = None.
Proof.
  intros Hc Hids Hrun.
  rewrite (manager_subscribe_unfold (adapter := Redis.adapter)
             (host := Redis.adapter_host) m topic options Hc) in Hrun.
  cbn [Manager.adapter_subscribe Redis.adapter] in Hrun.
  set (a0 := (Manager.Math_random_tag (Host := Redis.adapter_host)
                (Manager.world m)).2) in *.
  assert (Hids0 : redis_ids a0).
  { subst a0. cbn [Manager.Math_random_tag Redis.adapter_host].
    by destruct (Manager.Math_random_tag (Redis.clients (Manager.world m))). }
  pose proof (redis_subscribe_run a0 topic Hids0) as Hsub.
  destruct (Redis.subscribe topic a0) as [[adapterId|e] a1];
    cbn [fst snd outcome] in Hrun; [|discriminate].
  injection Hrun as <- <-. destruct Hsub as (Hprefix & Hget & Hids1).
  cbn [Manager.world Manager.set_world Manager.set_subscriptionManager
       Manager.subscriptionManager].
  split; [reflexivity|]. split; [exact Hids1|].
  split; [by exists adapterId|].
  set (id := subscription_id (host := Redis.adapter_host) (Manager.world m)).
  set (subscription :=
    {| Subscriptions.sub_id := id; Subscriptions.sub_topic := topic;
       Subscriptions.sub_filters := options ≫= Manager.filters;
       Subscriptions.sub_consumerGroup := options ≫= Manager.consumerGroup;
       Subscriptions.sub_queueGroup := options ≫= Manager.queueGroup |}).
  pose proof (subscribe_consistent subscription _ Hc) as Hc1.
  assert (Hfound : is_Some (find_subscription topic id
            (Subscriptions.subscribe subscription
               (Manager.subscriptionManager m)).2)).
  { rewrite (subscribe_run subscription _ Hc). cbn [snd].
    change (Subscriptions.sub_topic subscription) with topic.
    change (Subscriptions.sub_id subscription) with id.
    rewrite find_subscription_set, String.eqb_refl, get_set, String.eqb_refl.
    by eexists. }
  rewrite (manager_unsubscribe_unfold (adapter := Redis.adapter) _ topic id);
    [|exact Hc1|exact Hfound].
  cbn [Manager.world Manager.set_world Manager.set_subscriptionManager
       Manager.subscriptionManager Manager.adapter_unsubscribe Redis.adapter].
  rewrite (redis_unsubscribe_unknown a1 id Hids1 eq_refl).
  eexists. split; [reflexivity|].
  cbn [Manager.world Manager.subscriptionManager Manager.set_world
       Manager.set_subscriptionManager].
  split; [reflexivity|]. by apply unsubscribe_gone.
Qed.

Lemma redis_subscription_outlives_unsubscribe_witness :
  subscriptions_consistent (Manager.subscriptionManager redis_manager) /\
  redis_ids (Manager.world redis_manager) /\
  exists m2,
    Manager.unsubscribe (adapter := Redis.adapter) "orders" "sub_0_k3x9q2m1z"
      (Manager.subscribe (adapter := Redis.adapter) (host := Redis.adapter_host)
         "orders" None redis_manager).2
    = (Normal true, m2) /\
    Redis.subscriptions (Manager.world m2)
    = [("redis_sub_1_k3x9q2m1z", "orders")].
Proof.
  assert (Hids : redis_ids (Manager.world redis_manager)) by constructor.
  assert (Hsub :
    Manager.subscribe (adapter := Redis.adapter) (host := Redis.adapter_host)
      "orders" None redis_manager
    = (Normal "sub_0_k3x9q2m1z",
       (Manager.subscribe (adapter := Redis.adapter)
          (host := Redis.adapter_host) "orders" None redis_manager).2))
    by (vm_compute; reflexivity).
  split; [apply empty_consistent|]. split; [exact Hids|].
  destruct (redis_subscription_outlives_unsubscribe redis_manager
              (Manager.subscribe (adapter := Redis.adapter)
                 (host := Redis.adapter_host) "orders" None redis_manager).2
              "orders" "sub_0_k3x9q2m1z" None empty_consistent Hids Hsub)
    as (_ & _ & _ & m2 & Hrun & Hworld & _).
  exists m2. split; [exact Hrun|]. rewrite Hworld. vm_compute. reflexivity.
Defined.

(** ** The callback the manager hands to the adapter *)



(** ** The message builder *)

(** X28.  [build()] returns the message object of the builder itself.  It
    fills in an id, ["msg_<time>_<random>"], only when none or the empty
    text was given, and the timestamp only when the message has none (or
    0); it changes no other field: a type that was never set stays unset.
    So a second [build()] on the same builder returns the same id and the
    same timestamp whatever the time, without reading the clock or the
    random source. *)
Theorem build_fills_missing_once
    {W : Type} {host : Manager.Host W} (b : Builder.PartialIMessage) (w : W) :
  exists built w',
    Builder.build (b, w) = (Normal built, (built, w')) /\
    Builder.id built
    = match Builder.id b with
      | Some "" | None =>
          Some ("msg_" +:+ pretty (Manager.Date_now w) +:+ "_"
                +:+ (Manager.Math_random_tag w).1)
      | Some x => Some x
      end /\
    w' = match Builder.id b with
         | Some "" | None => (Manager.Math_random_tag w).2
         | Some _ => w
         end /\
    Builder.timestamp built
    = match Builder.timestamp b with
      | Some 0 | None => Some (Manager.Date_now w')
      | Some t => Some t
      end /\
    Builder.set_id (Builder.id b) (Builder.set_timestamp (Builder.timestamp b) built)
    = b /\
    forall later,
      Builder.timestamp built <> Some 0 ->
      Builder.build (built, later) = (Normal built, (built, later)).
Proof.
  assert (Hid : forall x : string,
    x <> "" -> negb (String.eqb x "") = true).
  { intros x Hx. by destruct (String.eqb_spec x ""). }
  assert (Hagain : forall (built : Builder.PartialIMessage) x (later : W),
    Builder.id built = Some x -> x <> "" ->
    Builder.timestamp built <> Some 0 ->
    is_Some (Builder.timestamp built) ->
    Builder.build (built, later) = (Normal built, (built, later))).
  { intros built x later Hx Hne Ht [t Hsome].
    unfold Builder.build, bind, gets, when_, ret. cbn [fst snd].
    rewrite Hx, (Hid x Hne). cbn [negb fst snd]. rewrite Hsome.
    destruct (Z.eqb_spec t 0) as [->|_]; [by rewrite Hsome in Ht|].
    reflexivity. }
  unfold Builder.build at 1. unfold bind, gets, when_, modify, zoom, ret.
  cbn [fst snd].
  destruct b as [bid btype bpayload btimestamp bpriority bmetadata bheaders
                   bpartition bsubject bchannel].
  cbn [Builder.id Builder.timestamp].
  assert (Hprefix : forall s : string, "msg_" +:+ s <> "") by done.
  destruct bid as [x|]; [destruct (String.eqb_spec x "") as [->|Hx]|];
    cbn [negb fst snd];
    destruct (Manager.Math_random_tag w) as [tag w1] eqn:Htag;
    cbn [fst snd Builder.set_id Builder.timestamp Builder.id];
    (destruct btimestamp as [t|]; [destruct (Z.eqb_spec t 0) as [->|Ht]|]);
    cbn [negb fst snd Builder.set_timestamp Builder.set_id Builder.id
         Builder.timestamp Builder.type Builder.payload Builder.priority
         Builder.metadata Builder.headers Builder.partition Builder.subject
         Builder.channel];
    eexists _, _; (split; [reflexivity|]);
    cbn [Builder.set_timestamp Builder.set_id Builder.id
         Builder.timestamp Builder.type Builder.payload Builder.priority
         Builder.metadata Builder.headers Builder.partition Builder.subject
         Builder.channel];
    (split; [by destruct x as [|? ?] || reflexivity|]);
    (split; [by destruct x as [|? ?] || reflexivity|]);
    (split; [by destruct t as [|?|?] || reflexivity|]);
    (split; [reflexivity|]);
    intros later Hnz;
    (eapply Hagain; [reflexivity|done|exact Hnz|by eexists]).
Qed.

(** ** Moving subscriptions to another manager *)

Section MigrationFacts.
Import Manager.
Context {W1 W2 : Type} {adapter : IBrokerAdapter W2} {host : Host W2}.




End MigrationFacts.



(** ** The metrics poll *)

(** X30.  The callback of the metrics interval never throws.  When
    [adapter.getMetrics] completes, its result is stored for the adapter's
    type, stamped with the time after the call: a [timestamp] among the
    metrics is overwritten, the reading before it is replaced, and the
    latency windows and the readings of other brokers stay as they are;
    [getPerformanceMetrics] then reports it under [brokers].  When it
    throws, one line is written to the console and the monitor is left as
    it was.  The queue and the subscriptions are not touched. *)
Theorem metrics_poll_never_throws
    {W : Type} {adapter : Manager.IBrokerAdapter W} {host : Manager.Host W}
    (get : M W JSRecord) (m : Manager.UniversalMessageManager W) :
  exists m',
    Lifecycle.poll get m = (Normal tt, m') /\
    Manager.world m' = (get (Manager.world m)).2 /\
    Manager.messageQueue m' = Manager.messageQueue m /\
    Manager.subscriptionManager m' = Manager.subscriptionManager m /\
    match (get (Manager.world m)).1 with
    | Normal metrics =>
        Manager.console m' = Manager.console m /\
        Monitor.brokers (Manager.getPerformanceMetrics m')
          !! Manager.adapter_getType
        = Some (<["timestamp" :=
                    JSNumber (Manager.Date_now (get (Manager.world m)).2)]>
                  metrics) /\
        (forall other,
            other <> Manager.adapter_getType ->
            Monitor.brokers (Manager.getPerformanceMetrics m') !! other
            = Monitor.brokers (Manager.getPerformanceMetrics m) !! other) /\
        Monitor.latency (Manager.getPerformanceMetrics m')
        = Monitor.latency (Manager.getPerformanceMetrics m)
    | Throw e =>
        Manager.performanceMonitor m' = Manager.performanceMonitor m /\
        Manager.console m'
        = Manager.console m
          ++ [Manager.ConsoleError "Failed to collect broker metrics:" e]
    end.
Proof.
  unfold Lifecycle.poll, try_catch, bind, zoom, Manager.now, gets.
  destruct (get (Manager.world m)) as [[metrics|e] w]; cbn [fst snd].
  - unfold Monitor.recordBrokerMetrics, modify.
    cbn [Manager.world Manager.set_world Manager.performanceMonitor].
    eexists. split; [reflexivity|].
    unfold Manager.getPerformanceMetrics, Monitor.getMetrics.
    cbn [Manager.world Manager.messageQueue Manager.subscriptionManager
         Manager.console Manager.performanceMonitor
         Manager.set_performanceMonitor Manager.set_world
         Monitor.brokers Monitor.latency Monitor.brokerMetrics
         Monitor.metrics].
    do 4 (split; [reflexivity|]).
    split; [by rewrite lookup_insert_eq|]. split; [|reflexivity].
    intros other Hne. by rewrite lookup_insert_ne.
  - unfold Manager.console_error, modify. eexists. split; [reflexivity|].
    cbn [Manager.world Manager.messageQueue Manager.subscriptionManager
         Manager.console Manager.performanceMonitor Manager.set_world].
    by repeat split.
Qed.
